(** * yaml2json: the YAML-to-JSON data normalisation of main.go

    A shallow embedding of [transformData], [LoadStrategy] and the functions
    around them, up to [main], with the Go values that live behind
    [interface{}] written as an inductive type and Go's [(value, error)]
    returns written as pairs.

    Part I holds the definitions: the functions of main.go, then the parts of
    Go's libraries they call ([strconv.Itoa], [fmt]'s [%T], [json.Marshal],
    the flag package), a reader of JSON, and the predicates the statements
    use.  Part II holds the properties, the numbered claims of the
    specification among them. *)

From Stdlib Require Import ZArith QArith Qabs String Ascii List Lia Bool.
From stdpp Require Import base tactics option list strings sorting.

#[local] Set Warnings "-register-all".
#[local] Open Scope Z_scope.
#[local] Arguments String.append !s1 s2 : simpl nomatch.

(** ** Go values *)

(** The dynamic values an [interface{}] holds in this program: what
    [yaml.Unmarshal] builds (scalars, [[]interface{}],
    [map[interface{}]interface{}]) and what [transformData] builds
    ([map[string]interface{}]).  A map is written as the list of its entries
    in the order one [range] loop visits them; Go fixes no such order, so a
    statement about "the" map has to hold for every order.  The type has no
    nil slice and no nil map: [transformData] makes each one it returns. *)
Inductive value : Type :=
| VNil                                  (* the nil interface value *)
| VBool (b : bool)                      (* bool *)
| VInt (n : Z)                          (* int *)
| VInt64 (n : Z)                        (* int64 *)
| VUint64 (n : Z)                       (* uint64 *)
| VFloat64 (bits : Z)                   (* float64, as its IEEE-754 bits *)
| VString (s : string)                  (* string *)
| VSlice (l : list value)               (* []interface{} *)
| VMap (m : list (value * value))       (* map[interface{}]interface{} *)
| VStrMap (m : list (string * value)).  (* map[string]interface{} *)

(** Go's [error]: only its message matters here; [None] is the nil error. *)
Definition error : Type := option string.

(** Induction on a tree, with the property at hand for every element of a
    slice and every key and value of a map. *)
Section value_induction.

Variable P : value -> Prop.
Hypothesis Hnil : P VNil.
Hypothesis Hbool : forall b, P (VBool b).
Hypothesis Hint : forall n, P (VInt n).
Hypothesis Hint64 : forall n, P (VInt64 n).
Hypothesis Huint64 : forall n, P (VUint64 n).
Hypothesis Hfloat : forall f, P (VFloat64 f).
Hypothesis Hstring : forall s, P (VString s).
Hypothesis Hslice : forall l, Forall P l -> P (VSlice l).
Hypothesis Hmap : forall m, Forall (fun kv => P (fst kv) /\ P (snd kv)) m -> P (VMap m).
Hypothesis Hstrmap : forall m, Forall (fun kv => P (snd kv)) m -> P (VStrMap m).


Fixpoint value_nested_ind (v : value) : P v :=
  match v with
  | VNil => Hnil
  | VBool b => Hbool b
  | VInt n => Hint n
  | VInt64 n => Hint64 n
  | VUint64 n => Huint64 n
  | VFloat64 f => Hfloat f
  | VString s => Hstring s
  | VSlice l =>
      Hslice l ((fix go (l : list value) : Forall P l :=
                   match l with
                   | [] => @List.Forall_nil _ _
                   | x :: l' => @List.Forall_cons _ _ x l' (value_nested_ind x) (go l')
                   end) l)
  | VMap m =>
      Hmap m ((fix go (m : list (value * value))
                 : Forall (fun kv => P (fst kv) /\ P (snd kv)) m :=
                 match m with
                 | [] => @List.Forall_nil _ _
                 | (k, x) :: m' =>
                     @List.Forall_cons _ _ (k, x) m'
                       (conj (value_nested_ind k) (value_nested_ind x)) (go m')
                 end) m)
  | VStrMap m =>
      Hstrmap m ((fix go (m : list (string * value))
                    : Forall (fun kv => P (snd kv)) m :=
                    match m with
                    | [] => @List.Forall_nil _ _
                    | (k, x) :: m' => @List.Forall_cons _ _ (k, x) m' (value_nested_ind x) (go m')
                    end) m)
  end.
End value_induction.

(** ** strconv.Itoa *)

(** The byte ['0' + d]. *)
Definition digit_char (d : Z) : ascii := ascii_of_nat (48 + Z.to_nat d).

(** The digit loop of [strconv]'s [formatBits] in base 10: the last digit of
    [u] is put in front of what is already written, and the loop goes on with
    [u / 10] while [u >= 10]. *)
Fixpoint format_digits (fuel : nat) (u : Z) (acc : string) : string :=
  match fuel with
  | O => acc
  | S fuel' =>
      if u <? 10 then String (digit_char u) acc
      else format_digits fuel' (u / 10) (String (digit_char (u mod 10)) acc)
  end.

(** A number below [2^k] has at most [k] decimal digits. *)
Definition digit_fuel (u : Z) : nat := S (Z.to_nat (Z.log2 u)).

(** [strconv.Itoa]: the decimal digits of the magnitude, after a minus sign
    when the number is negative. *)
Definition Itoa (i : Z) : string :=
  if i <? 0 then String "-" (format_digits (digit_fuel (- i)) (- i) "")
  else format_digits (digit_fuel i) i "".

(** The value of a decimal digit, [None] for any other byte. *)
Definition digit_of (c : ascii) : option Z :=
  let n := Z.of_nat (nat_of_ascii c) in
  if (48 <=? n) && (n <=? 57) then Some (n - 48) else None.

(** The number a string of decimal digits denotes, read left to right from [acc]. *)
Fixpoint digits_value (s : string) (acc : Z) : option Z :=
  match s with
  | EmptyString => Some acc
  | String c r =>
      match digit_of c with
      | Some d => digits_value r (10 * acc + d)
      | None => None
      end
  end.

(** [s] is the decimal numeral of [u >= 0] with no leading zero: ["0"] for
    zero, and a first digit other than [0] for every other number. *)
Definition unsigned_decimal (s : string) (u : Z) : Prop :=
  s <> EmptyString
  /\ digits_value s 0 = Some u
  /\ (forall r, s = String "0" r -> r = EmptyString).

(** [s] is the canonical base-10 form of [n]: the numeral of the magnitude,
    after one minus sign exactly when [n] is negative. *)
Definition canonical_decimal (s : string) (n : Z) : Prop :=
  if n <? 0 then exists r, s = String "-" r /\ unsigned_decimal r (- n)
  else unsigned_decimal s n.

(** ** fmt's %T *)

(** What [%T] prints for a value: the name of its dynamic type. *)
Definition type_name (v : value) : string :=
  match v with
  | VNil => "<nil>"
  | VBool _ => "bool"
  | VInt _ => "int"
  | VInt64 _ => "int64"
  | VUint64 _ => "uint64"
  | VFloat64 _ => "float64"
  | VString _ => "string"
  | VSlice _ => "[]interface {}"
  | VMap _ => "map[interface {}]interface {}"
  | VStrMap _ => "map[string]interface {}"
  end.

(** ** transformData *)

(** [o[sk] = v] on a [map[string]interface{}]: an entry with the key [sk]
    gets the new value, otherwise the entry is added. *)
Fixpoint map_assign {A : Type} (sk : string) (v : A) (o : list (string * A))
  : list (string * A) :=
  match o with
  | [] => [(sk, v)]
  | (k', v') :: o' =>
      if String.eqb sk k' then (sk, v) :: o' else (k', v') :: map_assign sk v o'
  end.

(** The error of line 130:
    [fmt.Errorf("types don't match: expect map key string or int get: %T", k)]. *)
Definition unsupported_key (k : value) : string :=
  "types don't match: expect map key string or int get: " +:+ type_name k.

(** The inner type switch of [transformData] (lines 123-131): the text of a
    map key, or the error the [default] branch returns. *)
Definition key_text (k : value) : string + string :=
  match k with
  | VString s => inl s
  | VInt n => inl (Itoa n)
  | _ => inr (unsupported_key k)
  end.

(** The [range] loop over a [map[interface{}]interface{}] (lines 122-138);
    [rec] is the recursive call, [o] the map built so far. *)
Definition transform_map (rec : value -> value * error)
  : list (value * value) -> list (string * value) -> value * error :=
  fix loop m o :=
    match m with
    | [] => (VStrMap o, None)
    | (k, v) :: rest =>
        match key_text k with
        | inr msg => (VNil, Some msg)
        | inl sk =>
            match rec v with
            | (_, Some e) => (VNil, Some e)
            | (v', None) => loop rest (map_assign sk v' o)
            end
        end
    end.

(** The [for] loop over a [[]interface{}] (lines 143-149): [i] is the index
    of the head of the elements still to visit, [o] the slice being filled. *)
Definition transform_slice (rec : value -> value * error)
  : list value -> nat -> list value -> value * error :=
  fix loop l i o :=
    match l with
    | [] => (VSlice o, None)
    | x :: rest =>
        match rec x with
        | (_, Some e) => (VNil, Some e)
        | (y, None) => loop rest (S i) (<[i := y]> o)
        end
    end.

Fixpoint transformData (v : value) : value * error :=
  match v with
  | VMap m => transform_map transformData m []
  | VSlice in1 => transform_slice transformData in1 0%nat (replicate (length in1) VNil)
  | _ => (v, None)
  end.

(** ** Shapes of trees *)

(** The scalars: every dynamic type in [value] other than the three containers. *)
Definition is_scalar (v : value) : bool :=
  match v with
  | VSlice _ | VMap _ | VStrMap _ => false
  | _ => true
  end.

(** The integers among the scalars: Go's [int], [int64] and [uint64]. *)
Definition is_integer (v : value) : bool :=
  match v with
  | VInt _ | VInt64 _ | VUint64 _ => true
  | _ => false
  end.

(** The keys the type switch accepts: [string] and [int]. *)
Definition key_accepted (k : value) : bool :=
  match k with
  | VString _ | VInt _ => true
  | _ => false
  end.

(** A tree as the YAML decoder hands it over: every mapping is a
    [map[interface{}]interface{}] and every key is a scalar (a Go map can not
    hold a slice or a map as a key). *)
Fixpoint yaml_tree (v : value) : bool :=
  match v with
  | VSlice l => forallb yaml_tree l
  | VMap m => forallb (fun kv => is_scalar (fst kv) && yaml_tree (snd kv)) m
  | VStrMap _ => false
  | _ => true
  end.

(** A canonical tree: every mapping, at every depth, is a
    [map[string]interface{}], so every key is a string. *)
Fixpoint canonical (v : value) : bool :=
  match v with
  | VSlice l => forallb canonical l
  | VMap _ => false
  | VStrMap m => forallb (fun kv => canonical (snd kv)) m
  | _ => true
  end.

(** Some mapping of the tree has a key that the type switch rejects. *)
Fixpoint has_rejected_key (v : value) : bool :=
  match v with
  | VSlice l => existsb has_rejected_key l
  | VMap m => existsb (fun kv => negb (key_accepted (fst kv)) || has_rejected_key (snd kv)) m
  | VStrMap m => existsb (fun kv => has_rejected_key (snd kv)) m
  | _ => false
  end.

(** The keys of the [map[interface{}]interface{}] mappings of a tree, at every depth. *)
Fixpoint tree_keys (v : value) : list value :=
  match v with
  | VSlice l => flat_map tree_keys l
  | VMap m => flat_map (fun kv => fst kv :: tree_keys (snd kv)) m
  | VStrMap m => flat_map (fun kv => tree_keys (snd kv)) m
  | _ => []
  end.

(** No mapping of the tree holds the same key twice, as in every Go map. *)
Fixpoint distinct_keys (v : value) : Prop :=
  match v with
  | VSlice l => fold_right (fun x acc => distinct_keys x /\ acc) True l
  | VMap m =>
      NoDup (map fst m)
      /\ fold_right (fun kv acc => distinct_keys (snd kv) /\ acc) True m
  | VStrMap m =>
      NoDup (map fst m)
      /\ fold_right (fun kv acc => distinct_keys (snd kv) /\ acc) True m
  | _ => True
  end.

(** Every key of every [map[interface{}]interface{}] of the tree is a string. *)
Fixpoint string_keyed (v : value) : bool :=
  match v with
  | VSlice l => forallb string_keyed l
  | VMap m =>
      forallb (fun kv => match fst kv with VString _ => true | _ => false end
                         && string_keyed (snd kv)) m
  | VStrMap m => forallb (fun kv => string_keyed (snd kv)) m
  | _ => true
  end.

(** Two trees of the same shape with the same scalars at the same places: the
    second may hold a [map[string]interface{}] where the first holds a
    [map[interface{}]interface{}] whose keys are those strings. *)
Inductive same_tree : value -> value -> Prop :=
| same_scalar (v : value) : is_scalar v = true -> same_tree v v
| same_slice (l l' : list value) :
    Forall2 same_tree l l' -> same_tree (VSlice l) (VSlice l')
| same_map (m : list (value * value)) (m' : list (string * value)) :
    Forall2 (fun kv kv' => fst kv = VString (fst kv') /\ same_tree (snd kv) (snd kv')) m m' ->
    same_tree (VMap m) (VStrMap m')
| same_strmap (m : list (string * value)) : same_tree (VStrMap m) (VStrMap m).

(** A key the specification's key rule covers: a string or an integer. *)
Definition string_or_integer (k : value) : bool :=
  match k with
  | VString _ => true
  | _ => is_integer k
  end.

(** ** Byte Loader *)

(** Go's [[]byte]. *)
Definition bytes : Type := list ascii.

(** [strings.HasPrefix]: [len(s) >= len(prefix) && s[:len(prefix)] == prefix]. *)
Definition HasPrefix (s prefix : string) : bool :=
  (String.length prefix <=? String.length s)%nat
  && String.eqb (substring 0 (String.length prefix) s) prefix.

(** [LoadStrategy] (lines 65-70): the loader for a path or a URI. *)
Definition LoadStrategy {loader : Type} (path : string) (local remote : loader) : loader :=
  if HasPrefix path "http" then remote else local.

(** An [*http.Response] as far as [loadHTTPBytes] reads it: [Body] is what
    [ioutil.ReadAll(resp.Body)] returns, [CloseErr] what [resp.Body.Close()] returns. *)
Record Response : Type := {
  StatusCode : Z;
  Status : string;
  Body : bytes * error;
  CloseErr : error;
}.

(** What [client.Do] returns: a response and no error, or an error, with
    which a response may come (net/http: when [CheckRedirect] fails). *)
Inductive do_result : Type :=
| DoResponse (resp : Response)
| DoError (resp : option Response) (err : string).

(** The world outside the program: the file system ([ioutil.ReadFile]), the
    network behind an [http.Client] with a given [Timeout] in nanoseconds
    ([http.NewRequest] may refuse the method or the URL), and [strconv.Quote]
    for [%q]. *)
Record World : Type := {
  ReadFile : string -> bytes * error;
  NewRequest : string -> string -> error;
  Do : Z -> string -> string -> do_result;
  Quote : string -> string;
}.

(** What a loader does to the world, in order. *)
Inductive event : Type :=
| EvReadFile (path : string)
| EvRequest (timeout : Z) (method url : string)
| EvReadAll
| EvClose
| EvLog (msg : string).

(** A loader: the bytes and the error it returns, and what it did. *)
Definition loader : Type := string -> (bytes * error) * list event.

(** [time.Second], in nanoseconds, and the constant of line 19. *)
Definition Second : Z := 1000000000.
Definition LoadHTTPTimeout : Z := 30 * Second.

Definition StatusOK : Z := 200.

(** The deferred function of lines 80-86. *)
Definition close_body (resp : option Response) : list event :=
  match resp with
  | Some r => EvClose :: match CloseErr r with Some e => [EvLog e] | None => [] end
  | None => []
  end.

(** [loadHTTPBytes] (lines 72-97). *)
Definition loadHTTPBytes (w : World) (timeout : Z) : loader :=
  fun path =>
    match NewRequest w "GET" path with
    | Some err => (([], Some err), [])
    | None =>
        match Do w timeout "GET" path with
        | DoError resp err =>
            (([], Some err), EvRequest timeout "GET" path :: close_body resp)
        | DoResponse resp =>
            if negb (StatusCode resp =? StatusOK)
            then (([], Some ("could not access document at " +:+ Quote w path
                             +:+ " [" +:+ Status resp +:+ "] ")),
                  EvRequest timeout "GET" path :: close_body (Some resp))
            else (Body resp,
                  EvRequest timeout "GET" path :: EvReadAll :: close_body (Some resp))
        end
    end.

(** [ioutil.ReadFile] as a loader. *)
Definition readFile (w : World) : loader :=
  fun path => (ReadFile w path, [EvReadFile path]).

(** [LoadFromFileOrHTTP] (lines 60-62). *)
Definition LoadFromFileOrHTTP (w : World) (path : string) : (bytes * error) * list event :=
  LoadStrategy path (readFile w) (loadHTTPBytes w LoadHTTPTimeout) path.

(** The requests among the events of a loader. *)
Definition requests (tr : list event) : list event :=
  List.filter (fun ev => match ev with EvRequest _ _ _ => true | _ => false end) tr.

(** ** Parsing *)

(** gopkg.in/yaml.v2 as far as the program uses it: [decode] is the tree the
    library builds for a byte stream it accepts as a document ([VNil] for an
    empty or null document), or its error; [mismatch] is the message of the
    [*yaml.TypeError] it returns when the document does not fit the Go type
    it is asked to fill. *)
Record Yaml : Type := {
  decode : bytes -> value + string;
  mismatch : bytes -> string;
}.

(** [yaml.Unmarshal(data, &document)] for [document] of type
    [map[interface{}]interface{}], nil before the call: a mapping fills it, a
    null document leaves it nil (a nil map is the map without entries here),
    and for a sequence or any other scalar the library reports that it can
    not unmarshal the node into the map type. *)
Definition Unmarshal_map (y : Yaml) (data : bytes) : list (value * value) * error :=
  match decode y data with
  | inr err => ([], Some err)
  | inl (VMap m) => (m, None)
  | inl VNil => ([], None)
  | inl _ => ([], Some (mismatch y data))
  end.

(** [bytesToYAMLDoc] (lines 109-116). *)
Definition bytesToYAMLDoc (y : Yaml) (data : bytes) : value * error :=
  match Unmarshal_map y data with
  | (_, Some err) => (VNil, Some err)
  | (document, None) => (VMap document, None)
  end.

(** [YAMLData] (lines 170-177). *)
Definition YAMLData (w : World) (y : Yaml) (path : string) : value * error :=
  match fst (LoadFromFileOrHTTP w path) with
  | (_, Some err) => (VNil, Some err)
  | (data, None) => bytesToYAMLDoc y data
  end.

(** ** encoding/json: Marshal *)

(** [json.Marshal] is Go's library, not code of this repository.  The
    definitions follow the library's source as of Go 1.22: [appendString]
    and the map encoder of encoding/json, [DecodeRuneInString] of
    unicode/utf8.  Earlier releases write [\u0008] and [\u000c] where this
    one writes [\b] and [\f]; a reader of JSON decodes both to the same
    byte. *)

(** JSON text for the examples, written with ['] where JSON has its quote. *)
Definition json_text (s : string) : list ascii :=
  map (fun c => if Ascii.eqb c "'"%char then "034"%char else c) (list_ascii_of_string s).

(** The bytes of a string literal. *)
Definition lit (s : string) : bytes := list_ascii_of_string s.

(** A byte as a number. *)
Definition byte (c : ascii) : Z := Z.of_N (N_of_ascii c).

(** The two characters Rocq's string notation has no plain spelling for. *)
Definition quote_char : ascii := "034"%char.
Definition backslash_char : ascii := "092"%char.

Definition RuneError : Z := 0xFFFD.

(** The second byte a first byte of a multi-byte sequence accepts
    ([acceptRanges] of unicode/utf8). *)
Definition accept_range (p0 : Z) : Z * Z :=
  if p0 =? 0xE0 then (0xA0, 0xBF)
  else if p0 =? 0xED then (0x80, 0x9F)
  else if p0 =? 0xF0 then (0x90, 0xBF)
  else if p0 =? 0xF4 then (0x80, 0x8F)
  else (0x80, 0xBF).

(** [utf8.DecodeRuneInString]: the first rune of [p] and its width in
    bytes; [(RuneError, 1)] when [p] does not start with a well-formed
    sequence, [(RuneError, 0)] when it is empty.  The source tests first
    whether [p] is shorter than the sequence its first byte announces; here a
    sequence cut short by the end of [p] ends in one of the [[]] branches,
    with the same result. *)
Definition DecodeRune (p : bytes) : Z * nat :=
  match p with
  | [] => (RuneError, 0%nat)
  | c0 :: p1 =>
      let p0 := byte c0 in
      if p0 <? 0x80 then (p0, 1%nat)
      else if (p0 <? 0xC2) || (0xF4 <? p0) then (RuneError, 1%nat)
      else
        let sz := if p0 <? 0xE0 then 2 else if p0 <? 0xF0 then 3 else 4 in
        let '(lo, hi) := accept_range p0 in
        match p1 with
        | [] => (RuneError, 1%nat)
        | c1 :: p2 =>
            let b1 := byte c1 in
            if (b1 <? lo) || (hi <? b1) then (RuneError, 1%nat)
            else if sz <=? 2
            then (Z.lor (Z.shiftl (Z.land p0 0x1F) 6) (Z.land b1 0x3F), 2%nat)
            else
              match p2 with
              | [] => (RuneError, 1%nat)
              | c2 :: p3 =>
                  let b2 := byte c2 in
                  if (b2 <? 0x80) || (0xBF <? b2) then (RuneError, 1%nat)
                  else if sz <=? 3
                  then (Z.lor (Z.lor (Z.shiftl (Z.land p0 0x0F) 12)
                                     (Z.shiftl (Z.land b1 0x3F) 6))
                              (Z.land b2 0x3F), 3%nat)
                  else
                    match p3 with
                    | [] => (RuneError, 1%nat)
                    | c3 :: _ =>
                        let b3 := byte c3 in
                        if (b3 <? 0x80) || (0xBF <? b3) then (RuneError, 1%nat)
                        else (Z.lor (Z.lor (Z.lor (Z.shiftl (Z.land p0 0x07) 18)
                                                  (Z.shiftl (Z.land b1 0x3F) 12))
                                           (Z.shiftl (Z.land b2 0x3F) 6))
                                    (Z.land b3 0x3F), 4%nat)
                    end
              end
        end
  end.

(** [htmlSafeSet] of encoding/json: the ASCII bytes written as they are. *)
Definition htmlSafe (b : Z) : bool :=
  (0x20 <=? b) && (b <? 0x80)
  && negb ((b =? 0x22) || (b =? 0x26) || (b =? 0x3C) || (b =? 0x3E) || (b =? 0x5C)).

(** The digit [hex[d]] of ["0123456789abcdef"]. *)
Definition hex_char (d : Z) : ascii :=
  if d <? 10 then ascii_of_N (Z.to_N (48 + d)) else ascii_of_N (Z.to_N (87 + d)).

(** The escape of an ASCII byte that is not written as it is. *)
Definition escape_byte (c : ascii) : bytes :=
  let b := byte c in
  if (b =? 0x5C) || (b =? 0x22) then [backslash_char; c]
  else if b =? 0x08 then [backslash_char; "b"%char]
  else if b =? 0x0C then [backslash_char; "f"%char]
  else if b =? 0x0A then [backslash_char; "n"%char]
  else if b =? 0x0D then [backslash_char; "r"%char]
  else if b =? 0x09 then [backslash_char; "t"%char]
  else [backslash_char; "u"%char; "0"%char; "0"%char;
        hex_char (Z.shiftr b 4); hex_char (Z.land b 0xF)].

(** The loop of [appendString] with [escapeHTML] set, on the bytes still to
    write; every round consumes at least one byte, so the number of bytes is
    fuel enough. *)
Fixpoint appendString_loop (fuel : nat) (src : bytes) : bytes :=
  match fuel, src with
  | S fuel', c :: rest =>
      let b := byte c in
      if b <? 0x80 then
        (if htmlSafe b then [c] else escape_byte c) ++ appendString_loop fuel' rest
      else
        let '(r, size) := DecodeRune src in
        if (r =? RuneError) && (size =? 1)%nat
        then backslash_char :: lit "ufffd" ++ appendString_loop fuel' (drop size src)
        else if (r =? 0x2028) || (r =? 0x2029)
        then backslash_char :: lit "u202" ++ hex_char (Z.land r 0xF)
               :: appendString_loop fuel' (drop size src)
        else take size src ++ appendString_loop fuel' (drop size src)
  | _, _ => []
  end.

(** [appendString]: a Go string as a JSON string. *)
Definition appendString (s : string) : bytes :=
  quote_char :: appendString_loop (String.length s) (lit s) ++ [quote_char].

(** The order [json.Marshal] writes the entries of a map in: by key,
    bytewise.  The keys of a Go map are distinct, so every sorting algorithm
    gives the same list; this one inserts the entries one by one. *)
Definition entry_le {A : Type} (a b : string * A) : Prop := String.le (fst a) (fst b).

Fixpoint insert_entry {A : Type} (e : string * A) (l : list (string * A))
  : list (string * A) :=
  match l with
  | [] => [e]
  | e' :: l' =>
      if String.leb (fst e) (fst e') then e :: l else e' :: insert_entry e l'
  end.

Definition sort_entries {A : Type} (l : list (string * A)) : list (string * A) :=
  fold_right insert_entry [] l.

(** The encodings of the elements of an array, with commas between them, or
    the first error. *)
Fixpoint join_elements (first : bool) (parts : list (bytes + string)) : bytes + string :=
  match parts with
  | [] => inl []
  | inr e :: _ => inr e
  | inl b :: rest =>
      match join_elements false rest with
      | inr e => inr e
      | inl bs => inl ((if first then [] else lit ",") ++ b ++ bs)
      end
  end.

(** The same for the entries of an object: [key:value]. *)
Fixpoint join_entries (first : bool) (parts : list (string * (bytes + string)))
  : bytes + string :=
  match parts with
  | [] => inl []
  | (_, inr e) :: _ => inr e
  | (k, inl b) :: rest =>
      match join_entries false rest with
      | inr e => inr e
      | inl bs => inl ((if first then [] else lit ",") ++ appendString k ++ lit ":" ++ b ++ bs)
      end
  end.

Section Marshal.

(** The float encoder of encoding/json, which the model does not compute: the
    text [strconv.AppendFloat] writes for the finite number with these
    bits, or the message of the [UnsupportedValueError] for NaN and the
    infinities. *)
Variable FormatFloat : Z -> string + string.

(** The encoder of [json.Marshal] on the values of this program: the bytes,
    or the message of the error.  A [VSlice] and a [VStrMap] stand for a slice
    and a map that are not nil, as [transformData] builds them with [make]:
    [json.Marshal] writes [null] for a nil slice and a nil map, which [value]
    does not have, and [[]] and [{}] for the empty ones. *)
Fixpoint encode (v : value) : bytes + string :=
  match v with
  | VNil => inl (lit "null")
  | VBool b => inl (lit (if b then "true" else "false"))
  | VInt n | VInt64 n | VUint64 n => inl (lit (Itoa n))
  | VFloat64 f =>
      match FormatFloat f with
      | inl text => inl (lit text)
      | inr e => inr e
      end
  | VString s => inl (appendString s)
  | VSlice l =>
      match join_elements true (map encode l) with
      | inl bs => inl (lit "[" ++ bs ++ lit "]")
      | inr e => inr e
      end
  | VStrMap m =>
      match join_entries true
              (sort_entries (map (fun kv => (fst kv, encode (snd kv))) m)) with
      | inl bs => inl (lit "{" ++ bs ++ lit "}")
      | inr e => inr e
      end
  | VMap _ => inr "json: unsupported type: map[interface {}]interface {}"
  end.

(** [json.Marshal]. *)
Definition Marshal (v : value) : bytes * error :=
  match encode v with
  | inl b => (b, None)
  | inr e => ([], Some e)
  end.

(** [YAMLToJSON] (lines 100-107). *)
Definition YAMLToJSON (data : value) : bytes * error :=
  match transformData data with
  | (_, Some err) => ([], Some err)
  | (jm, None) => Marshal jm
  end.

(** [YAMLDoc] (lines 155-167). *)
Definition YAMLDoc (w : World) (y : Yaml) (path : string) : bytes * error :=
  match YAMLData w y path with
  | (_, Some err) => ([], Some err)
  | (yamlDoc, None) =>
      match YAMLToJSON yamlDoc with
      | (_, Some err) => ([], Some err)
      | (data, None) => (data, None)
      end
  end.

End Marshal.

(** ** Reading JSON back *)

(** A JSON document as a reader of the target format sees it; a number
    keeps its text. *)
Inductive json : Type :=
| JNull
| JBool (b : bool)
| JNumber (text : string)
| JString (s : string)
| JArray (l : list json)
| JObject (m : list (string * json)).

Definition is_ws (c : ascii) : bool :=
  let b := byte c in (b =? 0x20) || (b =? 0x09) || (b =? 0x0A) || (b =? 0x0D).

Fixpoint skip_ws (s : bytes) : bytes :=
  match s with
  | c :: r => if is_ws c then skip_ws r else s
  | [] => []
  end.

(** [s] without the prefix [p], when it starts with it. *)
Fixpoint strip_prefix (p s : bytes) : option bytes :=
  match p, s with
  | [], _ => Some s
  | a :: p', b :: s' => if Ascii.eqb a b then strip_prefix p' s' else None
  | _ :: _, [] => None
  end.

Definition hex_value (c : ascii) : option Z :=
  let b := byte c in
  if (0x30 <=? b) && (b <=? 0x39) then Some (b - 0x30)
  else if (0x61 <=? b) && (b <=? 0x66) then Some (b - 0x61 + 10)
  else if (0x41 <=? b) && (b <=? 0x46) then Some (b - 0x41 + 10)
  else None.

Definition hex4 (a b c d : ascii) : option Z :=
  match hex_value a, hex_value b, hex_value c, hex_value d with
  | Some x3, Some x2, Some x1, Some x0 => Some (((x3 * 16 + x2) * 16 + x1) * 16 + x0)
  | _, _, _, _ => None
  end.

Definition chr (b : Z) : ascii := ascii_of_N (Z.to_N b).

(** [utf8.EncodeRune]: the UTF-8 bytes of a code point, those of U+FFFD for
    a surrogate half and for a number that is no code point. *)
Definition EncodeRune (r : Z) : bytes :=
  if r <? 0x80 then [chr r]
  else if r <? 0x800 then [chr (Z.lor 0xC0 (Z.shiftr r 6)); chr (Z.lor 0x80 (Z.land r 0x3F))]
  else if ((0xD800 <=? r) && (r <=? 0xDFFF)) || (0x10FFFF <? r)
  then [chr 0xEF; chr 0xBF; chr 0xBD]
  else if r <? 0x10000
  then [chr (Z.lor 0xE0 (Z.shiftr r 12));
        chr (Z.lor 0x80 (Z.land (Z.shiftr r 6) 0x3F));
        chr (Z.lor 0x80 (Z.land r 0x3F))]
  else [chr (Z.lor 0xF0 (Z.shiftr r 18));
        chr (Z.lor 0x80 (Z.land (Z.shiftr r 12) 0x3F));
        chr (Z.lor 0x80 (Z.land (Z.shiftr r 6) 0x3F));
        chr (Z.lor 0x80 (Z.land r 0x3F))].

(** The character a one-letter escape stands for. *)
Definition unescape (e : ascii) : option ascii :=
  let b := byte e in
  if (b =? 0x22) || (b =? 0x5C) || (b =? 0x2F) then Some e
  else if b =? 0x62 then Some (chr 0x08)
  else if b =? 0x66 then Some (chr 0x0C)
  else if b =? 0x6E then Some (chr 0x0A)
  else if b =? 0x72 then Some (chr 0x0D)
  else if b =? 0x74 then Some (chr 0x09)
  else None.

(** The low half of a surrogate pair written as [\uXXXX] at the head of [s]. *)
Definition low_surrogate (s : bytes) : option (Z * bytes) :=
  match s with
  | c :: u :: h1 :: h2 :: h3 :: h4 :: rest =>
      if (byte c =? 0x5C) && (byte u =? 0x75) then
        match hex4 h1 h2 h3 h4 with
        | Some lo => if (0xDC00 <=? lo) && (lo <=? 0xDFFF) then Some (lo, rest) else None
        | None => None
        end
      else None
  | _ => None
  end.

(** The bytes of a JSON string, read from after its opening quote up to its
    closing quote, and what follows it. *)
Fixpoint read_string (s : bytes) : option (bytes * bytes) :=
  match s with
  | [] => None
  | c :: r =>
      if byte c =? 0x22 then Some ([], r)
      else if byte c =? 0x5C then
        match r with
        | [] => None
        | e :: r1 =>
            if byte e =? 0x75 then
              match r1 with
              | h1 :: h2 :: h3 :: h4 :: r2 =>
                  match hex4 h1 h2 h3 h4 with
                  | None => None
                  | Some cp =>
                      match (if (0xD800 <=? cp) && (cp <=? 0xDBFF)
                             then low_surrogate r2 else None) with
                      | Some (lo, _) =>
                          match r2 with
                          | _ :: _ :: _ :: _ :: _ :: _ :: r3 =>
                              match read_string r3 with
                              | Some (str, rest) =>
                                  Some (EncodeRune (0x10000 + (cp - 0xD800) * 0x400
                                                    + (lo - 0xDC00)) ++ str, rest)
                              | None => None
                              end
                          | _ => None
                          end
                      | None =>
                          match read_string r2 with
                          | Some (str, rest) => Some (EncodeRune cp ++ str, rest)
                          | None => None
                          end
                      end
                  end
              | _ => None
              end
            else
              match unescape e with
              | Some ch =>
                  match read_string r1 with
                  | Some (str, rest) => Some (ch :: str, rest)
                  | None => None
                  end
              | None => None
              end
        end
      else if byte c <? 0x20 then None
      else
        match read_string r with
        | Some (str, rest) => Some (c :: str, rest)
        | None => None
        end
  end.

Definition is_digit (c : ascii) : bool := (0x30 <=? byte c) && (byte c <=? 0x39).

(** The bytes a JSON number is made of: digits, signs, the point and the
    exponent letter. *)
Definition is_number_char (c : ascii) : bool :=
  let b := byte c in
  is_digit c || (b =? 0x2B) || (b =? 0x2D) || (b =? 0x2E) || (b =? 0x65) || (b =? 0x45).

Fixpoint span_number (s : bytes) : bytes * bytes :=
  match s with
  | c :: r =>
      if is_number_char c then let '(tok, rest) := span_number r in (c :: tok, rest)
      else ([], s)
  | [] => ([], [])
  end.

Fixpoint skip_digits (s : bytes) : bytes :=
  match s with
  | c :: r => if is_digit c then skip_digits r else s
  | [] => []
  end.

(** One digit or more, and what follows them. *)
Definition digits1 (s : bytes) : option bytes :=
  match s with
  | c :: r => if is_digit c then Some (skip_digits r) else None
  | [] => None
  end.

Definition number_exponent (s : bytes) : bool :=
  match s with
  | [] => true
  | c :: r =>
      if (byte c =? 0x65) || (byte c =? 0x45) then
        let r' := match r with
                  | sg :: r1 => if (byte sg =? 0x2B) || (byte sg =? 0x2D) then r1 else r
                  | [] => r
                  end in
        match digits1 r' with
        | Some [] => true
        | _ => false
        end
      else false
  end.

Definition number_fraction (s : bytes) : bool :=
  match s with
  | c :: r =>
      if byte c =? 0x2E then
        match digits1 r with
        | Some r' => number_exponent r'
        | None => false
        end
      else number_exponent s
  | [] => true
  end.

(** The grammar of a JSON number: an optional minus sign; then a zero, or a
    digit other than zero and any digits; then, optionally, a point and one
    digit or more; then, optionally, [e] or [E], an optional sign and one digit
    or more. *)
Definition json_number (s : bytes) : bool :=
  let s1 := match s with
            | c :: r => if byte c =? 0x2D then r else s
            | [] => s
            end in
  match s1 with
  | c :: r =>
      if byte c =? 0x30 then number_fraction r
      else if is_digit c then number_fraction (skip_digits r)
      else false
  | [] => false
  end.

(** A value, the elements of an array after its first bracket, and the
    members of an object after its first brace; [fuel] bounds the nesting and
    the number of elements. *)
Fixpoint read_value (fuel : nat) (s : bytes) : option (json * bytes) :=
  match fuel with
  | O => None
  | S fuel' =>
      match skip_ws s with
      | [] => None
      | c :: r =>
          if byte c =? 0x22 then
            match read_string r with
            | Some (str, rest) => Some (JString (string_of_list_ascii str), rest)
            | None => None
            end
          else if byte c =? 0x5B then
            match skip_ws r with
            | c' :: r' =>
                if byte c' =? 0x5D then Some (JArray [], r')
                else match read_elements fuel' r with
                     | Some (l, rest) => Some (JArray l, rest)
                     | None => None
                     end
            | [] => None
            end
          else if byte c =? 0x7B then
            match skip_ws r with
            | c' :: r' =>
                if byte c' =? 0x7D then Some (JObject [], r')
                else match read_members fuel' r with
                     | Some (m, rest) => Some (JObject m, rest)
                     | None => None
                     end
            | [] => None
            end
          else if is_number_char c then
            let '(tok, rest) := span_number (c :: r) in
            if json_number tok then Some (JNumber (string_of_list_ascii tok), rest) else None
          else
            match strip_prefix (lit "null") (c :: r) with
            | Some rest => Some (JNull, rest)
            | None =>
                match strip_prefix (lit "true") (c :: r) with
                | Some rest => Some (JBool true, rest)
                | None =>
                    match strip_prefix (lit "false") (c :: r) with
                    | Some rest => Some (JBool false, rest)
                    | None => None
                    end
                end
            end
      end
  end
with read_elements (fuel : nat) (s : bytes) : option (list json * bytes) :=
  match fuel with
  | O => None
  | S fuel' =>
      match read_value fuel' s with
      | None => None
      | Some (v, rest) =>
          match skip_ws rest with
          | c :: r =>
              if byte c =? 0x2C then
                match read_elements fuel' r with
                | Some (vs, rest') => Some (v :: vs, rest')
                | None => None
                end
              else if byte c =? 0x5D then Some ([v], r)
              else None
          | [] => None
          end
      end
  end
with read_members (fuel : nat) (s : bytes) : option (list (string * json) * bytes) :=
  match fuel with
  | O => None
  | S fuel' =>
      match skip_ws s with
      | q :: r0 =>
          if byte q =? 0x22 then
            match read_string r0 with
            | None => None
            | Some (key, r1) =>
                match skip_ws r1 with
                | colon :: r2 =>
                    if byte colon =? 0x3A then
                      match read_value fuel' r2 with
                      | None => None
                      | Some (v, rest) =>
                          match skip_ws rest with
                          | c :: r =>
                              if byte c =? 0x2C then
                                match read_members fuel' r with
                                | Some (m, rest') =>
                                    Some ((string_of_list_ascii key, v) :: m, rest')
                                | None => None
                                end
                              else if byte c =? 0x7D
                              then Some ([(string_of_list_ascii key, v)], r)
                              else None
                          | [] => None
                          end
                      end
                    else None
                | [] => None
                end
            end
          else None
      | [] => None
      end
  end.

(** A whole document: one value, with nothing but white space after it. *)
Definition parse_json (s : bytes) : option json :=
  match read_value (S (length s)) s with
  | Some (v, rest) =>
      match skip_ws rest with
      | [] => Some v
      | _ :: _ => None
      end
  | None => None
  end.

(** What may follow a number: the end of the text, or a byte no number
    goes on with. *)
Definition number_ends (rest : bytes) : bool :=
  match rest with
  | [] => true
  | c :: _ => negb (is_number_char c)
  end.

(** The first byte of an encoding: no white space and no closing bracket. *)
Definition starts_value (b : bytes) : Prop :=
  exists h t, b = h :: t /\ is_ws h = false
              /\ (byte h =? 0x5D) = false /\ (byte h =? 0x7D) = false.

(** ** Trees that survive the round trip *)

(** [utf8.ValidString]: the bytes are well-formed UTF-8 from end to end. *)
Fixpoint valid_loop (fuel : nat) (src : bytes) : bool :=
  match src, fuel with
  | [], _ => true
  | _ :: _, O => false
  | _ :: _, S fuel' =>
      let '(r, size) := DecodeRune src in
      if (r =? RuneError) && (size =? 1)%nat then false
      else valid_loop fuel' (drop size src)
  end.

Definition ValidString (s : string) : bool := valid_loop (String.length s) (lit s).

(** Every string of the tree, keys included, is well-formed UTF-8. *)
Fixpoint strings_valid (v : value) : bool :=
  match v with
  | VString s => ValidString s
  | VSlice l => forallb strings_valid l
  | VMap m => forallb (fun kv => strings_valid (fst kv) && strings_valid (snd kv)) m
  | VStrMap m => forallb (fun kv => ValidString (fst kv) && strings_valid (snd kv)) m
  | _ => true
  end.

(** The text of a key the type switch accepts (the empty string for any
    other key). *)
Definition key_string (k : value) : string :=
  match key_text k with
  | inl sk => sk
  | inr _ => EmptyString
  end.

(** No two keys of one mapping have the same text after coercion, at any depth. *)
Fixpoint coerced_keys_distinct (v : value) : Prop :=
  match v with
  | VSlice l => fold_right (fun x acc => coerced_keys_distinct x /\ acc) True l
  | VMap m =>
      NoDup (map (fun kv => key_string (fst kv)) m)
      /\ fold_right (fun kv acc => coerced_keys_distinct (snd kv) /\ acc) True m
  | VStrMap m =>
      NoDup (map fst m)
      /\ fold_right (fun kv acc => coerced_keys_distinct (snd kv) /\ acc) True m
  | _ => True
  end.

(** The tree [transformData] builds when no two keys collide: the same
    tree, each key replaced by its text. *)
Fixpoint norm (v : value) : value :=
  match v with
  | VSlice l => VSlice (map norm l)
  | VMap m => VStrMap (map (fun kv => (key_string (fst kv), norm (snd kv))) m)
  | _ => v
  end.

(** The fuel [read_value] needs for the encoding of a tree. *)
Fixpoint weight (v : value) : nat :=
  match v with
  | VSlice l => 2 + fold_right (fun x acc => weight x + acc)%nat 0%nat l
  | VMap m => 2 + fold_right (fun kv acc => weight (snd kv) + acc)%nat 0%nat m
  | VStrMap m => 2 + fold_right (fun kv acc => weight (snd kv) + acc)%nat 0%nat m
  | _ => 1
  end.

(** The same Go value: equal scalars, slices equal element by element, and
    maps with the same entries, which one run may visit in another order than
    the other. *)
Inductive same_value : value -> value -> Prop :=
| same_value_scalar (v : value) : is_scalar v = true -> same_value v v
| same_value_slice (l l' : list value) :
    Forall2 same_value l l' -> same_value (VSlice l) (VSlice l')
| same_value_strmap (m m' p : list (string * value)) :
    NoDup (map fst m) ->
    Permutation m p ->
    Forall2 (fun e e' => fst e = fst e' /\ same_value (snd e) (snd e')) p m' ->
    same_value (VStrMap m) (VStrMap m').

(** ** Floats as numbers *)

(** The number a float64 with these IEEE-754 bits denotes: one sign bit, eleven
    bits of exponent, 52 bits of mantissa; [None] for the infinities and NaN. *)
Definition float_value (bits : Z) : option Q :=
  let e := Z.land (Z.shiftr bits 52) 0x7FF in
  let m := Z.land bits 0xFFFFFFFFFFFFF in
  if e =? 0x7FF then None
  else
    let mag := if e =? 0 then (inject_Z m * Qpower 2 (-1074))%Q
               else (inject_Z (2 ^ 52 + m) * Qpower 2 (e - 1075))%Q in
    Some (if Z.testbit bits 63 then (- mag)%Q else mag).

(** The decimal digits at the head of [s]: the number they denote after
    [acc], how many they are, and what follows them. *)
Fixpoint read_digits (s : string) (acc count : Z) : Z * Z * string :=
  match s with
  | String c r =>
      match digit_of c with
      | Some d => read_digits r (10 * acc + d) (count + 1)
      | None => (acc, count, s)
      end
  | EmptyString => (acc, count, s)
  end.

(** The exponent part of a number: nothing, or [e] or [E], a sign or none,
    and digits to the end. *)
Definition exponent_value (s : string) : option Z :=
  match s with
  | EmptyString => Some 0
  | String c r =>
      if Ascii.eqb c "e" || Ascii.eqb c "E" then
        let '(neg, r1) := match r with
                          | String "-" r' => (true, r')
                          | String "+" r' => (false, r')
                          | _ => (false, r)
                          end in
        let '(e, n, rest) := read_digits r1 0 0 in
        if (n =? 0) || negb (String.eqb rest EmptyString) then None
        else Some (if neg then - e else e)
      else None
  end.

(** [mant * 10^(e - nf)], with its sign, for the exponent [e] that [s] holds. *)
Definition scaled (neg : bool) (mant nf : Z) (s : string) : option Q :=
  match exponent_value s with
  | None => None
  | Some e => Some (inject_Z (if neg then - mant else mant) * Qpower 10 (e - nf))%Q
  end.

(** The rational number a JSON number denotes: a minus sign or none, digits,
    a fraction or none, an exponent or none. *)
Definition number_value (text : string) : option Q :=
  let '(neg, s) := match text with
                   | String "-" r => (true, r)
                   | _ => (false, text)
                   end in
  let '(i, ni, s1) := read_digits s 0 0 in
  if ni =? 0 then None
  else
    match s1 with
    | String "." r =>
        let '(mant, nf, s2) := read_digits r i 0 in
        if nf =? 0 then None else scaled neg mant nf s2
    | _ => scaled neg i 0 s1
    end.

(** The number [text] read as a float64 is the float with these bits: the
    float is finite, it has the sign of the text, no float is nearer to the
    number the text denotes, and of two floats that are as near it is the one
    whose mantissa is even.  This is what [strconv.ParseFloat] returns for a
    number in the range of float64, and [strconv]'s shortest formatting
    writes for every finite float a text that is read as that float. *)
Definition reads_as (text : string) (bits : Z) : Prop :=
  exists q v,
    number_value text = Some q
    /\ float_value bits = Some v
    /\ (Z.testbit bits 63 = true <-> exists r, text = String "-" r)
    /\ forall g w, float_value g = Some w ->
         (Qabs (q - v) <= Qabs (q - w))%Q
         /\ ((Qabs (q - v) == Qabs (q - w))%Q -> (v == w)%Q \/ Z.even bits = true).

Section Roundtrip.

Variable FormatFloat : Z -> string + string.

(** Every float of the tree is one the float encoder writes, as a JSON number. *)
Fixpoint floats_written (v : value) : bool :=
  match v with
  | VFloat64 f =>
      match FormatFloat f with
      | inl text => json_number (lit text)
      | inr _ => false
      end
  | VSlice l => forallb floats_written l
  | VMap m => forallb (fun kv => floats_written (snd kv)) m
  | VStrMap m => forallb (fun kv => floats_written (snd kv)) m
  | _ => true
  end.

(** The document a canonical tree is written as. *)
Fixpoint json_of (v : value) : json :=
  match v with
  | VNil => JNull
  | VBool b => JBool b
  | VInt n | VInt64 n | VUint64 n => JNumber (Itoa n)
  | VFloat64 f =>
      match FormatFloat f with
      | inl text => JNumber text
      | inr _ => JNull
      end
  | VString s => JString s
  | VSlice l => JArray (map json_of l)
  | VStrMap m => JObject (sort_entries (map (fun kv => (fst kv, json_of (snd kv))) m))
  | VMap _ => JNull
  end.

(** A JSON document isomorphic to a tree of the decoder: the same shape,
    the same scalars (an integer as its decimal numeral, a float as a number
    that is read as that float), every key by its text, the members of an
    object in any order. *)
Inductive matches : value -> json -> Prop :=
| matches_nil : matches VNil JNull
| matches_bool (b : bool) : matches (VBool b) (JBool b)
| matches_int (n : Z) : matches (VInt n) (JNumber (Itoa n))
| matches_int64 (n : Z) : matches (VInt64 n) (JNumber (Itoa n))
| matches_uint64 (n : Z) : matches (VUint64 n) (JNumber (Itoa n))
| matches_float (f : Z) (text : string) :
    reads_as text f -> matches (VFloat64 f) (JNumber text)
| matches_string (s : string) : matches (VString s) (JString s)
| matches_slice (l : list value) (l' : list json) :
    Forall2 matches l l' -> matches (VSlice l) (JArray l')
| matches_map (m : list (value * value)) (m' p : list (string * json)) :
    Permutation m' p ->
    Forall2 (fun kv e => key_text (fst kv) = inl (fst e) /\ matches (snd kv) (snd e)) m p ->
    matches (VMap m) (JObject m').

(** A canonical tree with well-formed strings and floats that can be
    written is encoded without error, and the reader gets its document back. *)
Definition writable (c : value) : Prop :=
  canonical c = true /\ strings_valid c = true /\ floats_written c = true.

Definition reads_back (c : value) : Prop :=
  writable c ->
  exists b, encode FormatFloat c = inl b /\ starts_value b
    /\ (weight c <= length b)%nat
    /\ forall fuel rest, (weight c <= fuel)%nat -> number_ends rest = true ->
         read_value fuel (b ++ rest) = Some (json_of c, rest).

End Roundtrip.

(** The value a [map[string]interface{}] holds for a key. *)
Fixpoint map_index {A : Type} (sk : string) (o : list (string * A)) : option A :=
  match o with
  | [] => None
  | (k, v) :: o' => if String.eqb sk k then Some v else map_index sk o'
  end.

(** The same tree of the decoder, its maps visited in another order. *)
Inductive same_input : value -> value -> Prop :=
| same_input_scalar (v : value) : is_scalar v = true -> same_input v v
| same_input_slice (l l' : list value) :
    Forall2 same_input l l' -> same_input (VSlice l) (VSlice l')
| same_input_map (m m' p : list (value * value)) :
    Permutation m p ->
    Forall2 (fun kv kv' => fst kv = fst kv' /\ same_input (snd kv) (snd kv')) p m' ->
    same_input (VMap m) (VMap m').

(** ** Statements proved by induction on the tree *)

(** The outcome of [transformData] on a tree of the decoder: the error of a
    rejected key of the tree when there is one, a canonical tree otherwise. *)
Definition outcome (t : value) : Prop :=
  (has_rejected_key t = true
   /\ exists k, k ∈ tree_keys t /\ key_accepted k = false
                /\ transformData t = (VNil, Some (unsupported_key k)))
  \/ (has_rejected_key t = false
      /\ exists out, transformData t = (out, None) /\ canonical out = true).

(** On a tree whose keys are strings, and distinct in each mapping,
    [transformData] returns a tree of the same shape and scalars, and returns
    that tree as it is when it is called on it again. *)
Definition settles (t : value) : Prop :=
  string_keyed t = true -> distinct_keys t ->
  exists out, transformData t = (out, None) /\ same_tree t out
              /\ transformData out = (out, None).

(** A canonical tree whose maps hold every key once is a Go value. *)
Definition proper (c : value) : Prop := same_value c c.

(** Without a rejected key and without two keys of the same text in one
    mapping, [transformData] returns [norm t]. *)
Definition normalizes (t : value) : Prop :=
  has_rejected_key t = false -> coerced_keys_distinct t ->
  transformData t = (norm t, None).

(** What the order of the visit does not change, for a tree without a
    rejected key and without colliding keys. *)
Definition order_free (t : value) : Prop :=
  forall t', same_input t t' ->
  has_rejected_key t = false -> coerced_keys_distinct t ->
  has_rejected_key t' = false /\ coerced_keys_distinct t'
  /\ same_value (norm t) (norm t').

(** ** What the encoder can write *)

Section Finite.

Variable FormatFloat : Z -> string + string.

(** Every float of the tree is one the float encoder writes: it is finite. *)
Fixpoint floats_finite (v : value) : bool :=
  match v with
  | VFloat64 f =>
      match FormatFloat f with
      | inl _ => true
      | inr _ => false
      end
  | VSlice l => forallb floats_finite l
  | VMap m => forallb (fun kv => floats_finite (snd kv)) m
  | VStrMap m => forallb (fun kv => floats_finite (snd kv)) m
  | _ => true
  end.

End Finite.

(** ** What the output is made of *)

(** A byte that is neither a control character nor one of the three
    characters HTML gives a meaning to: [&], [<] and [>]. *)
Definition html_plain (c : ascii) : bool :=
  let b := byte c in
  (0x20 <=? b) && negb ((b =? 0x26) || (b =? 0x3C) || (b =? 0x3E)).

(** ** What a fetch leaves open *)

(** The response [client.Do] handed to [loadHTTPBytes], if it was called and
    returned one: with no error, or with the error of a redirect that failed. *)
Definition response_received (w : World) (timeout : Z) (path : string) : option Response :=
  match NewRequest w "GET" path with
  | Some _ => None
  | None =>
      match Do w timeout "GET" path with
      | DoResponse resp => Some resp
      | DoError resp _ => resp
      end
  end.

(** How often a loader closed a response body. *)
Definition closes (tr : list event) : nat :=
  length (List.filter (fun ev => match ev with EvClose => true | _ => false end) tr).

(** ** The command line *)

(** The flag package is Go's library, not code of this repository.  The
    definitions follow [FlagSet.parseOne] and [FlagSet.Parse] of the
    library's source as of Go 1.22, for the one flag [init] defines (lines
    25-27): the string flag [output], empty by default. *)

(** [s[i]], for [i < len(s)]. *)
Definition char_at (i : nat) (s : string) : ascii :=
  match String.get i s with
  | Some c => c
  | None => "000"%char
  end.

(** [s[i:]], for [i <= len(s)]. *)
Definition string_from (i : nat) (s : string) : string :=
  substring i (String.length s - i) s.

(** The loop of [parseOne] that looks for a value in the word itself: the
    first [=] of [name] after its first byte splits it into the name and the
    value.  [index_equals i s] is the least [j >= i] with [name[j] == '='],
    for [s = name[i:]]. *)
Fixpoint index_equals (i : nat) (s : string) : option nat :=
  match s with
  | EmptyString => None
  | String c r => if Ascii.eqb c "=" then Some i else index_equals (S i) r
  end.

Definition name_and_value (name : string) : string * option string :=
  match index_equals 1 (string_from 1 name) with
  | Some i => (substring 0 i name, Some (string_from (S i) name))
  | None => (name, None)
  end.

(** What one call of [parseOne] returns: no flag and no error ([NoFlag],
    with the words left), a flag that was set ([Seen]: here it can only be
    [output], with its new value), [ErrHelp], or the message of [failf]. *)
Inductive parsed_one : Type :=
| NoFlag (args : list string)
| Seen (output : string) (args : list string)
| HelpWanted
| BadFlag (msg : string).

(** [parseOne] on the words still to read. *)
Definition parseOne (args : list string) : parsed_one :=
  match args with
  | [] => NoFlag []
  | s :: rest =>
      if (String.length s <? 2)%nat || negb (Ascii.eqb (char_at 0 s) "-")
      then NoFlag args
      else
        let two := Ascii.eqb (char_at 1 s) "-" in
        if two && (String.length s =? 2)%nat then NoFlag rest
        else
          let name := string_from (if two then 2 else 1) s in
          if (String.length name =? 0)%nat
             || Ascii.eqb (char_at 0 name) "-" || Ascii.eqb (char_at 0 name) "="
          then BadFlag ("bad flag syntax: " +:+ s)
          else
            let '(name, value) := name_and_value name in
            if String.eqb name "output" then
              match value, rest with
              | Some v, _ => Seen v rest
              | None, v :: rest' => Seen v rest'
              | None, [] => BadFlag ("flag needs an argument: -" +:+ name)
              end
            else if String.eqb name "help" || String.eqb name "h" then HelpWanted
            else BadFlag ("flag provided but not defined: -" +:+ name)
  end.

(** What [flag.Parse] leaves behind: the value of [output] and the words
    after the flags, or the reason it ends the program. *)
Inductive flags : Type :=
| Parsed (output : string) (rest : list string)
| Help
| Failed (msg : string).

(** The loop of [FlagSet.Parse]; every round that goes on has consumed a
    word, so one more round than there are words is fuel enough. *)
Fixpoint Parse_loop (fuel : nat) (output : string) (args : list string) : flags :=
  match fuel with
  | O => Parsed output args
  | S fuel' =>
      match parseOne args with
      | Seen output' args' => Parse_loop fuel' output' args'
      | NoFlag args' => Parsed output args'
      | HelpWanted => Help
      | BadFlag msg => Failed msg
      end
  end.

(** [flag.Parse()], on [os.Args[1:]]. *)
Definition Parse (args : list string) : flags :=
  Parse_loop (S (length args)) EmptyString args.

(** ** The program *)

Definition newline : ascii := "010"%char.

(** What [fmt.Fprintln] writes for a string: the string and a newline. *)
Definition nl : string := String newline EmptyString.
Definition line (s : string) : string := s +:+ nl.

(** The permission bits [0600]. *)
Definition rw_owner : Z := 6 * 8 * 8.

(** What the program does to the world, in order: what it writes to the
    standard error and the standard output, [flag.PrintDefaults], what the
    loader does, and [ioutil.WriteFile]. *)
Inductive effect : Type :=
| Stderr (text : string)
| PrintDefaults
| Stdout (text : bytes)
| Loading (ev : event)
| FileWrite (name : string) (data : bytes) (perm : Z).

(** [flag.Usage], as [main] sets it (lines 30-34). *)
Definition Usage (prog : string) : list effect :=
  [Stderr ("Usage of " +:+ prog +:+ ":" +:+ nl +:+ nl);
   Stderr ("  " +:+ prog +:+ " [YAML FILE OR URL]" +:+ nl +:+ nl);
   PrintDefaults].

(** [main] (lines 29-57) for [os.Args = prog :: args]: what the program
    does and its exit status.  [flag.Parse] ends the program itself when it
    fails, with status 2 after the message and the usage, and with status 0
    after the usage when help was asked for.  [WriteFile] is
    [ioutil.WriteFile]. *)
Definition main (FormatFloat : Z -> string + string) (w : World) (y : Yaml)
    (WriteFile : string -> bytes -> Z -> error)
    (prog : string) (args : list string) : list effect * Z :=
  match Parse args with
  | Failed msg => (Stderr (line msg) :: Usage prog, 2)
  | Help => (Usage prog, 0)
  | Parsed output _ =>
      match args with
      | [] => ([Stderr (line "you need to provide the file path or url to load")], 1)
      | arg1 :: _ =>
          let loading := map Loading (snd (LoadFromFileOrHTTP w arg1)) in
          match YAMLDoc FormatFloat w y arg1 with
          | (_, Some err) => (loading ++ [Stderr (line err)], 1)
          | (json, None) =>
              if String.eqb output EmptyString
              then (loading ++ [Stdout (json ++ [newline])], 0)
              else
                match WriteFile output json rw_owner with
                | Some err => (loading ++ [FileWrite output json rw_owner; Stderr (line err)], 1)
                | None => (loading ++ [FileWrite output json rw_owner], 0)
                end
          end
      end
  end.

(** ** What a normalisation is *)

(** [out] is a normalisation of the tree [t] of the decoder: a scalar is
    itself; a sequence is a sequence of the same length, element by element
    in the same order a normalisation of the elements; a mapping is a
    [map[string]interface{}] that holds each text of a key of the input, once,
    and holds under a text a normalisation of the value of an entry whose key
    has that text.  This is said of every depth, the elements and the values
    being normalisations themselves. *)
Inductive normalized : value -> value -> Prop :=
| normalized_scalar (v : value) : is_scalar v = true -> normalized v v
| normalized_slice (l l' : list value) :
    Forall2 normalized l l' -> normalized (VSlice l) (VSlice l')
| normalized_map (m : list (value * value)) (o : list (string * value)) :
    NoDup (map fst o) ->
    (forall k v, (k, v) ∈ m -> exists sk, key_text k = inl sk /\ sk ∈ map fst o) ->
    Forall (fun e => exists k v, (k, v) ∈ m /\ key_text k = inl (fst e)
                                 /\ normalized v (snd e)) o ->
    normalized (VMap m) (VStrMap o).

(** * Part II: properties *)

(** The documents of the specification's scenarios 1, 2, 3 and 5. *)
Example scenario1 :
  transformData (VMap [(VString "name", VString "Widget"); (VString "count", VInt 3)])
  = (VStrMap [("name", VString "Widget"); ("count", VInt 3)], None).
Proof. reflexivity. Qed.

Example scenario2 :
  transformData (VMap [(VInt 1, VString "a"); (VInt 2, VString "b")])
  = (VStrMap [("1", VString "a"); ("2", VString "b")], None).
Proof. reflexivity. Qed.

Example scenario3 :
  transformData (VMap [(VMap [(VString "x", VInt 1)], VString "y")])
  = (VNil, Some "types don't match: expect map key string or int get: map[interface {}]interface {}").
Proof. reflexivity. Qed.

Example scenario5 :
  transformData
    (VMap [(VString "list",
            VSlice [VInt 1; VMap [(VString "a", VBool true)]; VString "s"])])
  = (VStrMap [("list", VSlice [VInt 1; VStrMap [("a", VBool true)]; VString "s"])],
     None).
Proof. reflexivity. Qed.

Example Itoa_examples :
  Itoa 0 = "0" /\ Itoa 7 = "7" /\ Itoa 10 = "10" /\ Itoa (-42) = "-42"
  /\ Itoa 9223372036854775807 = "9223372036854775807"
  /\ Itoa (-9223372036854775808) = "-9223372036854775808".
Proof. repeat split; reflexivity. Qed.

(** ** strconv.Itoa writes canonical decimals *)

Lemma digit_of_digit_char (d : Z) : 0 <= d < 10 -> digit_of (digit_char d) = Some d.
Proof.
  intros Hd.
  assert (Hc : d = 0 \/ d = 1 \/ d = 2 \/ d = 3 \/ d = 4 \/ d = 5 \/ d = 6
               \/ d = 7 \/ d = 8 \/ d = 9) by lia.
  repeat (destruct Hc as [-> | Hc]; [reflexivity |]). subst d. reflexivity.
Qed.

Lemma digit_char_zero (d : Z) : 0 <= d < 10 -> digit_char d = "0"%char -> d = 0.
Proof.
  intros Hd Hz.
  assert (Hc : d = 0 \/ d = 1 \/ d = 2 \/ d = 3 \/ d = 4 \/ d = 5 \/ d = 6
               \/ d = 7 \/ d = 8 \/ d = 9) by lia.
  repeat (destruct Hc as [-> | Hc]; [first [reflexivity | discriminate Hz] |]).
  subst d. discriminate Hz.
Qed.

Lemma string_app_assoc (s t u : string) : (s +:+ t) +:+ u = s +:+ (t +:+ u).
Proof. induction s as [| c s IH]; simpl; [reflexivity | f_equal; exact IH]. Qed.

Lemma format_digits_acc (fuel : nat) (u : Z) (acc : string) :
  format_digits fuel u acc = format_digits fuel u EmptyString +:+ acc.
Proof.
  revert u acc. induction fuel as [| fuel IH]; intros u acc; simpl; [reflexivity |].
  destruct (u <? 10); [reflexivity |].
  rewrite IH. rewrite (IH _ (String _ EmptyString)).
  rewrite string_app_assoc. reflexivity.
Qed.

Lemma digits_value_app (s t : string) (acc : Z) :
  digits_value (s +:+ t) acc
  = match digits_value s acc with Some a => digits_value t a | None => None end.
Proof.
  revert acc. induction s as [| c s IH]; intros acc; simpl; [reflexivity |].
  destruct (digit_of c); [apply IH | reflexivity].
Qed.

Lemma format_digits_step (fuel : nat) (u : Z) (acc : string) :
  format_digits (S fuel) u acc
  = if u <? 10 then String (digit_char u) acc
    else format_digits fuel (u / 10) (String (digit_char (u mod 10)) acc).
Proof. reflexivity. Qed.

Lemma format_digits_numeral (fuel : nat) (u : Z) :
  0 <= u < 10 ^ Z.of_nat (S fuel) ->
  unsigned_decimal (format_digits (S fuel) u EmptyString) u.
Proof.
  revert u. induction fuel as [| fuel IH]; intros u Hu;
    rewrite format_digits_step; destruct (Z.ltb_spec u 10) as [Hlt | Hge].
  - repeat split.
    + discriminate.
    + cbn [digits_value]. rewrite digit_of_digit_char by lia. f_equal; lia.
    + intros r Hr. now inversion Hr.
  - change (10 ^ Z.of_nat 1) with 10 in Hu. lia.
  - repeat split.
    + discriminate.
    + cbn [digits_value]. rewrite digit_of_digit_char by lia. f_equal; lia.
    + intros r Hr. now inversion Hr.
  - assert (Hq : 0 <= u / 10 < 10 ^ Z.of_nat (S fuel)).
    { split; [apply Z.div_pos; lia |].
      apply Z.div_lt_upper_bound; [lia |].
      rewrite (Nat2Z.inj_succ (S fuel)), Z.pow_succ_r in Hu by lia. lia. }
    destruct (IH _ Hq) as (Hne & Hval & Hlead).
    rewrite format_digits_acc.
    remember (format_digits (S fuel) (u / 10) EmptyString) as s eqn:Hs.
    repeat split.
    + destruct s; [congruence | cbn [String.append]; discriminate].
    + rewrite digits_value_app, Hval. cbn [digits_value].
      rewrite digit_of_digit_char by (apply Z.mod_pos_bound; lia).
      f_equal; pose proof (Z.div_mod u 10); lia.
    + intros r Hr. destruct s as [| c s']; [congruence |].
      cbn [String.append] in Hr. inversion Hr; subst c.
      specialize (Hlead s' eq_refl). subst s'.
      change (digits_value (String "0" EmptyString) 0) with (Some 0) in Hval.
      injection Hval as Hval. exfalso.
      pose proof (Z.div_mod u 10). pose proof (Z.mod_pos_bound u 10). lia.
Qed.

Lemma digit_fuel_enough (u : Z) : 0 <= u -> u < 10 ^ Z.of_nat (digit_fuel u).
Proof.
  intros Hu. unfold digit_fuel.
  rewrite Nat2Z.inj_succ, Z2Nat.id by apply Z.log2_nonneg.
  destruct (Z.eq_dec u 0) as [-> | Hnz]; [simpl; lia |].
  assert (H2 : u < 2 ^ Z.succ (Z.log2 u)) by (apply Z.log2_spec; lia).
  eapply Z.lt_le_trans; [exact H2 |].
  apply Z.pow_le_mono_l. lia.
Qed.

Lemma Itoa_canonical (n : Z) : canonical_decimal (Itoa n) n.
Proof.
  unfold canonical_decimal, Itoa. destruct (Z.ltb_spec n 0) as [Hneg | Hpos].
  - eexists; split; [reflexivity |].
    apply format_digits_numeral. split; [lia | apply digit_fuel_enough; lia].
  - apply format_digits_numeral. split; [lia | apply digit_fuel_enough; lia].
Qed.

(** ** The two loops of transformData *)

Lemma transformData_slice (l : list value) :
  transformData (VSlice l)
  = transform_slice transformData l 0%nat (replicate (length l) VNil).
Proof. reflexivity. Qed.

Lemma transformData_map (m : list (value * value)) :
  transformData (VMap m) = transform_map transformData m [].
Proof. reflexivity. Qed.

(** The slice loop returns an error only with the nil value. *)
Lemma transform_slice_error rec (l : list value) (i : nat) (o : list value) out e :
  transform_slice rec l i o = (out, Some e) ->
  out = VNil /\ exists x junk, x ∈ l /\ rec x = (junk, Some e).
Proof.
  revert i o. induction l as [| x l IH]; intros i o H; simpl in H; [discriminate |].
  destruct (rec x) as [y [e' |]] eqn:Hx.
  - injection H as <- <-. split; [reflexivity |].
    exists x, y. split; [left | exact Hx].
  - destruct (IH _ _ H) as (-> & x' & junk & Hin & Hx').
    split; [reflexivity |]. exists x', junk. split; [right; exact Hin | exact Hx'].
Qed.

(** When every element is transformed without error, the loop fills the
    places [i], [i+1], ... of [o] with the results, in order. *)
Lemma transform_slice_fill rec (l ys : list value) (i : nat) (o : list value) :
  Forall2 (fun x y => rec x = (y, None)) l ys ->
  length o = (i + length l)%nat ->
  transform_slice rec l i o = (VSlice (take i o ++ ys), None).
Proof.
  intros HF. revert i o. induction HF as [| x y l ys Hx HF IH]; intros i o Hlen; simpl.
  - simpl in Hlen. rewrite app_nil_r, take_ge by lia. reflexivity.
  - rewrite Hx. simpl in Hlen. rewrite IH by (rewrite length_insert; lia).
    do 2 f_equal.
    rewrite (take_S_r _ _ y) by (apply list_lookup_insert_eq; lia).
    rewrite take_insert_ge by lia. rewrite <- app_assoc. reflexivity.
Qed.

(** A run of the slice loop without error transformed every element. *)
Lemma transform_slice_success rec (l : list value) (i : nat) (o : list value) out :
  transform_slice rec l i o = (out, None) ->
  exists ys, Forall2 (fun x y => rec x = (y, None)) l ys.
Proof.
  revert i o. induction l as [| x l IH]; intros i o H; simpl in H.
  - exists []. constructor.
  - destruct (rec x) as [y [e' |]] eqn:Hx; [discriminate |].
    destruct (IH _ _ H) as [ys HF]. exists (y :: ys). constructor; assumption.
Qed.

(** The map built by a run of the map loop: the assignments in visiting order. *)
Lemma transform_map_success rec (m : list (value * value)) (o : list (string * value)) out :
  transform_map rec m o = (out, None) ->
  exists es,
    Forall2 (fun kv e => key_text (fst kv) = inl (fst e) /\ rec (snd kv) = (snd e, None)) m es
    /\ out = VStrMap (fold_left (fun o e => map_assign (fst e) (snd e) o) es o).
Proof.
  revert o. induction m as [| [k v] m IH]; intros o H; simpl in H.
  - injection H as <-. exists []. split; [constructor | reflexivity].
  - destruct (key_text k) as [sk | msg] eqn:Hk; [| discriminate].
    destruct (rec v) as [v' [e' |]] eqn:Hv; [discriminate |].
    destruct (IH _ H) as (es & HF & ->).
    exists ((sk, v') :: es). split; [| reflexivity].
    constructor; [split; assumption | exact HF].
Qed.

Lemma transform_map_fill rec (m : list (value * value)) es (o : list (string * value)) :
  Forall2 (fun kv e => key_text (fst kv) = inl (fst e) /\ rec (snd kv) = (snd e, None)) m es ->
  transform_map rec m o
  = (VStrMap (fold_left (fun o e => map_assign (fst e) (snd e) o) es o), None).
Proof.
  intros HF. revert o.
  induction HF as [| [k v] [sk v'] m es [Hk Hv] HF IH]; intros o; simpl; [reflexivity |].
  simpl in Hk, Hv. rewrite Hk, Hv. apply IH.
Qed.

(** The map loop returns an error only with the nil value, and the error is
    that of a rejected key or of a value of the map. *)
Lemma transform_map_error rec (m : list (value * value)) (o : list (string * value)) out e :
  transform_map rec m o = (out, Some e) ->
  out = VNil
  /\ exists k v, (k, v) ∈ m /\ (key_text k = inr e \/ exists junk, rec v = (junk, Some e)).
Proof.
  revert o. induction m as [| [k v] m IH]; intros o H; simpl in H; [discriminate |].
  destruct (key_text k) as [sk | msg] eqn:Hk.
  - destruct (rec v) as [v' [e' |]] eqn:Hv.
    + injection H as <- <-. split; [reflexivity |].
      exists k, v. split; [left | right; eauto].
    + destruct (IH _ H) as (-> & k' & v0 & Hin & Hor).
      split; [reflexivity |]. exists k', v0. split; [right; exact Hin | exact Hor].
  - injection H as <- <-. split; [reflexivity |].
    exists k, v. split; [left | left; exact Hk].
Qed.

(** ** What a run of transformData returns *)

Lemma key_text_accepted (k : value) :
  key_accepted k = true -> exists sk, key_text k = inl sk.
Proof. destruct k; simpl; intros H; try discriminate; eauto. Qed.

Lemma key_text_rejected (k : value) :
  key_accepted k = false -> key_text k = inr (unsupported_key k).
Proof. destruct k; simpl; intros H; try discriminate; reflexivity. Qed.

Lemma map_assign_Forall {A : Type} (P : A -> Prop) sk (v : A) (o : list (string * A)) :
  P v -> Forall (fun e => P (snd e)) o -> Forall (fun e => P (snd e)) (map_assign sk v o).
Proof.
  intros Hv Ho. induction Ho as [| [k' v'] o Hh Ho IH]; simpl.
  - constructor; [exact Hv | constructor].
  - destruct (String.eqb sk k'); constructor; auto.
Qed.

Lemma fold_assign_Forall {A : Type} (P : A -> Prop) (es o : list (string * A)) :
  Forall (fun e => P (snd e)) es -> Forall (fun e => P (snd e)) o ->
  Forall (fun e => P (snd e)) (fold_left (fun o e => map_assign (fst e) (snd e) o) es o).
Proof.
  intros Hes. revert o. induction Hes as [| e es He Hes IH]; intros o Ho; simpl; [exact Ho |].
  apply IH. apply map_assign_Forall; assumption.
Qed.

Lemma canonical_strmap (o : list (string * value)) :
  Forall (fun e => canonical (snd e) = true) o -> canonical (VStrMap o) = true.
Proof.
  intros Ho. simpl. apply forallb_forall. intros e He.
  rewrite Forall_forall in Ho. apply Ho. apply list_elem_of_In. exact He.
Qed.

Lemma canonical_slice (l : list value) :
  Forall (fun x => canonical x = true) l -> canonical (VSlice l) = true.
Proof.
  intros Hl. simpl. apply forallb_forall. intros x Hx.
  rewrite Forall_forall in Hl. apply Hl. apply list_elem_of_In. exact Hx.
Qed.

Lemma outcome_slice (l : list value) :
  Forall (fun x => yaml_tree x = true -> outcome x) l ->
  forallb yaml_tree l = true ->
  (existsb has_rejected_key l = true
   /\ exists k, k ∈ flat_map tree_keys l /\ key_accepted k = false
        /\ forall i o, transform_slice transformData l i o = (VNil, Some (unsupported_key k)))
  \/ (existsb has_rejected_key l = false
      /\ exists ys, Forall2 (fun x y => transformData x = (y, None)) l ys
                    /\ Forall (fun y => canonical y = true) ys).
Proof.
  intros HF. induction HF as [| x l Hx HF IH]; intros Hy; simpl in *.
  - right. split; [reflexivity |]. exists []. split; constructor.
  - apply andb_true_iff in Hy as [Hyx Hyl].
    destruct (Hx Hyx) as [(Hr & k & Hk & Hrej & Ht) | (Hr & y & Ht & Hc)]; rewrite Hr; simpl.
    + left. split; [reflexivity |]. exists k. split; [| split; [exact Hrej |]].
      * apply elem_of_app. left. exact Hk.
      * intros i o. rewrite Ht. reflexivity.
    + destruct (IH Hyl) as [(Hrl & k & Hk & Hrej & Hl) | (Hrl & ys & Hys & Hcs)].
      * left. split; [exact Hrl |]. exists k. split; [| split; [exact Hrej |]].
        -- apply elem_of_app. right. exact Hk.
        -- intros i o. rewrite Ht. apply Hl.
      * right. split; [exact Hrl |]. exists (y :: ys).
        split; constructor; assumption.
Qed.

Lemma outcome_map (m : list (value * value)) :
  Forall (fun kv => (yaml_tree (fst kv) = true -> outcome (fst kv))
                    /\ (yaml_tree (snd kv) = true -> outcome (snd kv))) m ->
  forallb (fun kv => is_scalar (fst kv) && yaml_tree (snd kv)) m = true ->
  (existsb (fun kv => negb (key_accepted (fst kv)) || has_rejected_key (snd kv)) m = true
   /\ exists k, k ∈ flat_map (fun kv => fst kv :: tree_keys (snd kv)) m
        /\ key_accepted k = false
        /\ forall o, transform_map transformData m o = (VNil, Some (unsupported_key k)))
  \/ (existsb (fun kv => negb (key_accepted (fst kv)) || has_rejected_key (snd kv)) m = false
      /\ exists es,
          Forall2 (fun kv e => key_text (fst kv) = inl (fst e)
                               /\ transformData (snd kv) = (snd e, None)) m es
          /\ Forall (fun e => canonical (snd e) = true) es).
Proof.
  intros HF. induction HF as [| [k v] m [_ Hv] HF IH]; intros Hy; simpl in *.
  - right. split; [reflexivity |]. exists []. split; constructor.
  - apply andb_true_iff in Hy as [Hykv Hym].
    apply andb_true_iff in Hykv as [_ Hyv].
    destruct (key_accepted k) eqn:Hk; simpl.
    + destruct (key_text_accepted k Hk) as [sk Hsk].
      destruct (Hv Hyv) as [(Hr & k' & Hk' & Hrej & Ht) | (Hr & y & Ht & Hc)]; rewrite Hr; simpl.
      * left. split; [reflexivity |]. exists k'. split; [| split; [exact Hrej |]].
        -- right. apply elem_of_app. left. exact Hk'.
        -- intros o. rewrite Hsk, Ht. reflexivity.
      * destruct (IH Hym) as [(Hrl & k' & Hk' & Hrej & Hl) | (Hrl & es & Hes & Hcs)].
        -- left. split; [exact Hrl |]. exists k'. split; [| split; [exact Hrej |]].
           ++ right. apply elem_of_app. right. exact Hk'.
           ++ intros o. rewrite Hsk, Ht. apply Hl.
        -- right. split; [exact Hrl |]. exists ((sk, y) :: es).
           split; constructor; auto.
    + left. split; [reflexivity |]. exists k. split; [left | split; [exact Hk |]].
      intros o. rewrite (key_text_rejected k Hk). reflexivity.
Qed.

Lemma transformData_outcome (t : value) : yaml_tree t = true -> outcome t.
Proof.
  induction t as [| b | n | n | n | f | s | l IH | m IH | m IH] using value_nested_ind;
    intros Hy; try (right; split; [reflexivity |]; eexists; split; reflexivity).
  - destruct (outcome_slice l IH Hy) as [(Hr & k & Hk & Hrej & Hl) | (Hr & ys & Hys & Hcs)].
    + left. split; [exact Hr |]. exists k. split; [exact Hk | split; [exact Hrej |]].
      rewrite transformData_slice. apply Hl.
    + right. split; [exact Hr |]. exists (VSlice ys). split.
      * rewrite transformData_slice.
        rewrite (transform_slice_fill _ _ ys) by (try exact Hys; rewrite length_replicate; lia).
        reflexivity.
      * apply canonical_slice. exact Hcs.
  - destruct (outcome_map m IH Hy) as [(Hr & k & Hk & Hrej & Hl) | (Hr & es & Hes & Hcs)].
    + left. split; [exact Hr |]. exists k. split; [exact Hk | split; [exact Hrej |]].
      rewrite transformData_map. apply Hl.
    + right. split; [exact Hr |]. eexists. split.
      * rewrite transformData_map. apply (transform_map_fill _ _ es). exact Hes.
      * apply canonical_strmap.
        apply (fold_assign_Forall (fun y => canonical y = true)); [exact Hcs | constructor].
  - discriminate Hy.
Qed.

Lemma transformData_error_nil (t out : value) (e : string) :
  transformData t = (out, Some e) -> out = VNil.
Proof.
  destruct t; simpl; intros H; try discriminate.
  - apply transform_slice_error in H. tauto.
  - apply transform_map_error in H. tauto.
Qed.

Lemma map_assign_keys {A : Type} (k sk : string) (v : A) (o : list (string * A)) :
  k ∈ map fst (map_assign sk v o) <-> k = sk \/ k ∈ map fst o.
Proof.
  induction o as [| [k' v'] o IH]; simpl.
  - rewrite list_elem_of_singleton. split; [auto | intros [H | H]; [exact H | inversion H]].
  - destruct (String.eqb_spec sk k') as [-> | Hne]; simpl.
    + rewrite !elem_of_cons. tauto.
    + rewrite !elem_of_cons, IH. tauto.
Qed.

Lemma fold_assign_keys {A : Type} (k : string) (es o : list (string * A)) :
  k ∈ map fst (fold_left (fun o e => map_assign (fst e) (snd e) o) es o)
  <-> k ∈ map fst o \/ k ∈ map fst es.
Proof.
  revert o. induction es as [| [sk v] es IH]; intros o; simpl.
  - split; [auto | intros [H | H]; [exact H | inversion H]].
  - rewrite IH, map_assign_keys, elem_of_cons. simpl. tauto.
Qed.

Lemma transform_map_rejected rec (m : list (value * value)) (k v : value) :
  (k, v) ∈ m -> key_accepted k = false ->
  forall o, exists e, transform_map rec m o = (VNil, Some e).
Proof.
  intros Hin Hk. induction m as [| [k' v'] m IH]; intros o; [inversion Hin |].
  simpl. apply elem_of_cons in Hin as [Heq | Hin].
  - injection Heq as <- <-. rewrite (key_text_rejected k Hk). eauto.
  - destruct (key_text k') as [sk | msg]; [| eauto].
    destruct (rec v') as [y [e |]]; [eauto |]. apply IH. exact Hin.
Qed.

(** ** The key rule *)

(** C1, against the claim as stated: [18446744073709551615] is an integer
    key (the decoder hands it over as a [uint64]), yet it is not rendered in
    decimal: the type switch sends it to the [default] branch. *)
Lemma uint64_key_not_rendered :
  let k := VUint64 18446744073709551615 in
  string_or_integer k = true
  /\ key_text k = inr "types don't match: expect map key string or int get: uint64"
  /\ transformData (VMap [(k, VString "x")])
     = (VNil, Some "types don't match: expect map key string or int get: uint64").
Proof. repeat split; reflexivity. Qed.

(** C1, as amended: for every key [k] of a mapping that [transformData]
    visits: if [k] is a string it is the output key, unchanged; if [k] is a
    Go [int] the output key is [strconv.Itoa k], the canonical base-10 form
    (no leading zero, a minus sign exactly for a negative value); a key of any
    other dynamic type ([int64], [uint64], float, boolean, nil, sequence,
    mapping) makes the call fail. *)
Theorem key_coercion_rule (m : list (value * value)) (k v : value) :
  (k, v) ∈ m ->
  (key_accepted k = false -> exists e, transformData (VMap m) = (VNil, Some e))
  /\ (forall out, transformData (VMap m) = (out, None) ->
      exists o sk,
        out = VStrMap o /\ sk ∈ map fst o
        /\ match k with
           | VString s => sk = s
           | VInt n => sk = Itoa n /\ canonical_decimal sk n
           | _ => False
           end).
Proof.
  intros Hin. split.
  - intros Hk. rewrite transformData_map.
    apply (transform_map_rejected _ m k v Hin Hk).
  - intros out Hout. rewrite transformData_map in Hout.
    apply transform_map_success in Hout as (es & HF & ->).
    apply list_elem_of_lookup in Hin as [i Hi].
    destruct (Forall2_lookup_l _ _ _ _ _ HF Hi) as ([sk y] & He & Hk & _).
    simpl in Hk. eexists. exists sk. split; [reflexivity |]. split.
    + apply fold_assign_keys. right.
      apply list_elem_of_fmap. exists (sk, y). split; [reflexivity |].
      apply list_elem_of_lookup. eauto.
    + destruct k; simpl in Hk; try discriminate; injection Hk as <-.
      * split; [reflexivity | apply Itoa_canonical].
      * reflexivity.
Qed.

Lemma key_coercion_rule_witness :
  exists o sk,
    (VStrMap [("-7", VString "a"); ("b", VNil)]) = VStrMap o /\ sk ∈ map fst o
    /\ (sk = Itoa (-7) /\ canonical_decimal sk (-7)).
Proof.
  apply (key_coercion_rule [(VInt (-7), VString "a"); (VString "b", VNil)]
           (VInt (-7)) (VString "a")).
  - left.
  - reflexivity.
Defined.

(** ** Errors *)

(** C2, against the claim as stated: every key of this tree is a string or
    an integer, and [transformData] fails all the same. *)
Lemma integer_keys_can_fail :
  let t := VMap [(VString "ids", VSlice [VMap [(VUint64 9223372036854775808, VBool true)]])] in
  yaml_tree t = true
  /\ forallb string_or_integer (tree_keys t) = true
  /\ transformData t
     = (VNil, Some "types don't match: expect map key string or int get: uint64").
Proof. repeat split; reflexivity. Qed.

(** C2, as amended: on a tree of the decoder, [transformData] returns an
    error if and only if some mapping of the tree has a key that is neither a
    string nor a Go [int] (a key of type [int64] or [uint64] counts); with the
    error it returns the nil value, no tree; and the message ends with the
    dynamic type of such a key of the tree. *)
Theorem normalize_error_iff (t : value) :
  yaml_tree t = true ->
  ((exists e, snd (transformData t) = Some e) <-> has_rejected_key t = true)
  /\ (forall e, snd (transformData t) = Some e ->
      fst (transformData t) = VNil
      /\ exists k, k ∈ tree_keys t /\ key_accepted k = false
           /\ e = "types don't match: expect map key string or int get: " +:+ type_name k).
Proof.
  intros Hy.
  destruct (transformData_outcome t Hy) as [(Hr & k & Hk & Hrej & Ht) | (Hr & out & Ht & _)];
    rewrite Ht, Hr; simpl.
  - split; [split; eauto |]. intros e [= <-]. split; [reflexivity |].
    exists k. repeat split; assumption.
  - split; [split; [intros [e He] |]; discriminate |]. intros e He. discriminate.
Qed.

Lemma normalize_error_iff_witness :
  let t := VMap [(VString "a", VSlice [VMap [(VFloat64 0, VNil)]])] in
  ((exists e, snd (transformData t) = Some e) <-> has_rejected_key t = true)
  /\ (forall e, snd (transformData t) = Some e ->
      fst (transformData t) = VNil
      /\ exists k, k ∈ tree_keys t /\ key_accepted k = false
           /\ e = "types don't match: expect map key string or int get: " +:+ type_name k).
Proof.
  apply (normalize_error_iff (VMap [(VString "a", VSlice [VMap [(VFloat64 0, VNil)]])])).
  reflexivity.
Defined.

(** ** The invariant of the output *)

(** C4: every tree that [transformData] returns without error, for a tree
    of the decoder, is canonical: each of its mappings, at every depth, is a
    [map[string]interface{}], so each of its keys is a string. *)
Theorem normalized_keys_are_strings (t out : value) :
  yaml_tree t = true ->
  transformData t = (out, None) ->
  canonical out = true.
Proof.
  intros Hy Ht.
  destruct (transformData_outcome t Hy) as [(_ & k & _ & _ & Ht') | (_ & out' & Ht' & Hc)];
    rewrite Ht in Ht'.
  - discriminate.
  - injection Ht' as <-. exact Hc.
Qed.

Lemma normalized_keys_are_strings_witness :
  canonical (VStrMap [("list", VSlice [VInt 1; VStrMap [("2", VBool true)]; VString "s"])])
  = true.
Proof.
  apply (normalized_keys_are_strings
           (VMap [(VString "list",
                   VSlice [VInt 1; VMap [(VInt 2, VBool true)]; VString "s"])])).
  - reflexivity.
  - reflexivity.
Defined.

(** ** Sequences *)

Lemma transform_all_total (rec : value -> value * error) (l : list value) :
  (forall x, x ∈ l -> snd (rec x) = None) ->
  exists ys, Forall2 (fun x y => rec x = (y, None)) l ys.
Proof.
  induction l as [| x l IH]; intros H.
  - exists []. constructor.
  - destruct IH as [ys Hys]; [intros x' Hx'; apply H; right; exact Hx' |].
    specialize (H x (list_elem_of_here _ _)).
    destruct (rec x) as [y e] eqn:Hx. simpl in H. subst e.
    exists (y :: ys). constructor; assumption.
Qed.

(** ** Trees whose keys are strings already *)

Lemma map_assign_fresh {A : Type} (sk : string) (v : A) (o : list (string * A)) :
  sk ∉ map fst o -> map_assign sk v o = o ++ [(sk, v)].
Proof.
  induction o as [| [k' v'] o IH]; simpl; intros Hnin; [reflexivity |].
  apply not_elem_of_cons in Hnin as [Hne Hnin].
  destruct (String.eqb_spec sk k') as [-> | _]; [congruence |].
  rewrite IH by exact Hnin. reflexivity.
Qed.

Lemma fold_assign_fresh {A : Type} (es o : list (string * A)) :
  NoDup (map fst o ++ map fst es) ->
  fold_left (fun o e => map_assign (fst e) (snd e) o) es o = o ++ es.
Proof.
  revert o. induction es as [| [sk v] es IH]; intros o Hnd; simpl.
  - rewrite app_nil_r. reflexivity.
  - simpl in Hnd. rewrite map_assign_fresh.
    + rewrite IH.
      * rewrite <- app_assoc. reflexivity.
      * rewrite map_app. simpl. rewrite <- app_assoc. exact Hnd.
    + apply NoDup_app in Hnd as (_ & Hdisj & _). intros Hin.
      apply (Hdisj sk Hin). left.
Qed.

Lemma settles_slice (l : list value) :
  Forall settles l ->
  forallb string_keyed l = true ->
  fold_right (fun x acc => distinct_keys x /\ acc) True l ->
  exists ys, Forall2 (fun x y => transformData x = (y, None)) l ys
             /\ Forall2 same_tree l ys
             /\ Forall2 (fun x y => transformData x = (y, None)) ys ys.
Proof.
  intros HF. induction HF as [| x l Hx HF IH]; simpl; intros Hs Hd.
  - exists []. repeat split; constructor.
  - apply andb_true_iff in Hs as [Hsx Hsl]. destruct Hd as [Hdx Hdl].
    destruct (Hx Hsx Hdx) as (y & Hy & Hsame & Hyy).
    destruct (IH Hsl Hdl) as (ys & H1 & H2 & H3).
    exists (y :: ys). repeat split; constructor; assumption.
Qed.

Lemma settles_map (m : list (value * value)) :
  Forall (fun kv => settles (snd kv)) m ->
  forallb (fun kv => match fst kv with VString _ => true | _ => false end
                     && string_keyed (snd kv)) m = true ->
  fold_right (fun kv acc => distinct_keys (snd kv) /\ acc) True m ->
  exists es,
    Forall2 (fun kv e => key_text (fst kv) = inl (fst e)
                         /\ transformData (snd kv) = (snd e, None)) m es
    /\ Forall2 (fun kv e => fst kv = VString (fst e) /\ same_tree (snd kv) (snd e)) m es.
Proof.
  intros HF. induction HF as [| [k v] m Hv HF IH]; simpl; intros Hs Hd.
  - exists []. split; constructor.
  - apply andb_true_iff in Hs as [Hskv Hsm]. apply andb_true_iff in Hskv as [Hk Hsv].
    destruct Hd as [Hdv Hdm].
    destruct (Hv Hsv Hdv) as (y & Hy & Hsame & _).
    destruct (IH Hsm Hdm) as (es & H1 & H2).
    destruct k; try discriminate Hk.
    exists ((s, y) :: es). split; constructor; auto.
Qed.

Lemma transformData_settles (t : value) : settles t.
Proof.
  induction t as [| b | n | n | n | f | s | l IH | m IH | m IH] using value_nested_ind;
    intros Hs Hd;
    try (eexists; split; [reflexivity |]; split; [| reflexivity];
         first [apply same_scalar; reflexivity | apply same_strmap]).
  - destruct (settles_slice l IH Hs Hd) as (ys & H1 & H2 & H3).
    exists (VSlice ys). split; [| split].
    + rewrite transformData_slice.
      rewrite (transform_slice_fill _ _ ys) by (try exact H1; rewrite length_replicate; lia).
      reflexivity.
    + apply same_slice. exact H2.
    + rewrite transformData_slice.
      rewrite (transform_slice_fill _ _ ys) by (try exact H3; rewrite length_replicate; lia).
      reflexivity.
  - destruct Hd as [Hnd Hd].
    assert (IH' : Forall (fun kv => settles (snd kv)) m).
    { eapply Forall_impl; [exact IH |]. intros kv [_ H]. exact H. }
    destruct (settles_map m IH' Hs Hd) as (es & H1 & H2).
    exists (VStrMap es). split; [| split].
    + rewrite transformData_map, (transform_map_fill _ _ es) by exact H1.
      rewrite fold_assign_fresh; [reflexivity |]. simpl.
      assert (Hkeys : map fst m = map VString (map fst es)).
      { clear -H2. induction H2 as [| kv e m es [Hk _] _ IH]; simpl; congruence. }
      rewrite Hkeys in Hnd. eapply (NoDup_fmap_1 VString). exact Hnd.
    + apply same_map. exact H2.
    + reflexivity.
Qed.

(** C6: for every tree all of whose mapping keys are strings already (no
    mapping holding a key twice, as in every Go map), [transformData] returns
    without error a tree of the same shape with the same scalar values; and
    normalising the returned tree once more returns it unchanged. *)
Theorem normalize_idempotent (t : value) :
  string_keyed t = true -> distinct_keys t ->
  exists out, transformData t = (out, None) /\ same_tree t out
              /\ transformData out = (out, None).
Proof. exact (transformData_settles t). Qed.

Lemma normalize_idempotent_witness :
  exists out,
    transformData (VMap [(VString "a", VSlice [VInt 1; VMap [(VString "b", VNil)]]);
                         (VString "c", VFloat64 0)]) = (out, None)
    /\ same_tree (VMap [(VString "a", VSlice [VInt 1; VMap [(VString "b", VNil)]]);
                        (VString "c", VFloat64 0)]) out
    /\ transformData out = (out, None).
Proof.
  apply (normalize_idempotent
           (VMap [(VString "a", VSlice [VInt 1; VMap [(VString "b", VNil)]]);
                  (VString "c", VFloat64 0)])).
  - reflexivity.
  - simpl. repeat split; apply NoDup_ListNoDup; repeat constructor; simpl; intuition discriminate.
Defined.

(** ** Loading *)

Lemma HasPrefix_spec (s prefix : string) :
  HasPrefix s prefix = true <-> exists rest, s = prefix +:+ rest.
Proof.
  unfold HasPrefix. revert s. induction prefix as [| c p IH]; intros s.
  - simpl. destruct s; simpl; split; eauto.
  - destruct s as [| c' s]; simpl.
    + split; [discriminate | intros [rest H]; discriminate].
    + specialize (IH s). simpl in IH.
      destruct (Ascii.eqb_spec c' c) as [-> | Hne].
      * rewrite IH. split; intros [rest H]; exists rest; congruence.
      * rewrite andb_false_r. split; [discriminate |].
        intros [rest H]. congruence.
Qed.

(** C7: which loader [LoadStrategy] returns depends on the location string
    alone: the remote one for every location that starts with [http], the
    local one for every other location, whatever the two loaders are; so
    [LoadFromFileOrHTTP] fetches over the network in the first case and reads
    the local file in the second. *)
Theorem strategy_by_prefix (w : World) (path : string) :
  ((exists rest, path = "http" +:+ rest) ->
     (forall (L : Type) (local remote : L), LoadStrategy path local remote = remote)
     /\ LoadFromFileOrHTTP w path = loadHTTPBytes w LoadHTTPTimeout path)
  /\ (~ (exists rest, path = "http" +:+ rest) ->
      (forall (L : Type) (local remote : L), LoadStrategy path local remote = local)
      /\ LoadFromFileOrHTTP w path = readFile w path).
Proof.
  unfold LoadFromFileOrHTTP, LoadStrategy.
  destruct (HasPrefix path "http") eqn:Hp.
  - split; [intros _; split; reflexivity |].
    intros Hn. exfalso. apply Hn. apply HasPrefix_spec. exact Hp.
  - split; [| intros _; split; reflexivity].
    intros He. apply HasPrefix_spec in He. congruence.
Qed.

Example strategy_examples :
  LoadStrategy "http://example.org/a.yml" 0 1 = 1
  /\ LoadStrategy "https://example.org/a.yml" 0 1 = 1
  /\ LoadStrategy ".travis.yml" 0 1 = 0
  /\ LoadStrategy "htt" 0 1 = 0
  /\ LoadStrategy "httpd.yml" 0 1 = 1.
Proof. repeat split; reflexivity. Qed.

(** C8: the network fetch sends at most one request (exactly one unless Go
    refuses the URL), a GET of the location with the timeout it was given,
    which is 30 seconds in [LoadFromFileOrHTTP]; it returns the error of
    [client.Do] (how the client reports a connection it could not open and a
    timeout that ran out) and an error for every status other than 200; and
    when it returns no error the status was 200 and the bytes are all of
    the response body. *)
Theorem http_fetch_contract (w : World) (path : string) :
  LoadHTTPTimeout = 30 * 1000000000
  /\ (forall timeout,
       let '((data, err), tr) := loadHTTPBytes w timeout path in
       (requests tr = [] /\ NewRequest w "GET" path <> None
        \/ requests tr = [EvRequest timeout "GET" path])
       /\ (NewRequest w "GET" path = None ->
           match Do w timeout "GET" path with
           | DoError _ e => err = Some e
           | DoResponse resp =>
               (StatusCode resp <> 200 -> err <> None)
               /\ (err = None -> StatusCode resp = 200 /\ Body resp = (data, None))
               /\ (StatusCode resp = 200 -> (data, err) = Body resp)
           end)).
Proof.
  split; [reflexivity |]. intros timeout. unfold loadHTTPBytes.
  destruct (NewRequest w "GET" path) as [e0 |] eqn:Hreq.
  - split; [left; split; [reflexivity | discriminate] | discriminate].
  - destruct (Do w timeout "GET" path) as [resp | resp e].
    + unfold StatusOK. destruct (Z.eqb_spec (StatusCode resp) 200) as [Hok | Hno]; simpl.
      * destruct (Body resp) as [data err] eqn:Hb.
        split; [right; unfold requests, close_body; simpl; destruct (CloseErr resp); reflexivity |].
        intros _. split; [congruence |]. split; [| reflexivity].
        intros ->. split; [exact Hok | reflexivity].
      * split; [right; unfold requests, close_body; simpl; destruct (CloseErr resp); reflexivity |].
        intros _. split; [discriminate |]. split; [discriminate | congruence].
    + split; [| reflexivity]. right.
      unfold requests, close_body. destruct resp as [r |]; [destruct (CloseErr r) |]; reflexivity.
Qed.

(** ** Parsing the document *)

(** C10, against the claim as stated: it is not so that every byte stream
    the YAML library accepts as a document is parsed without error; a
    document whose root is a sequence is refused. *)
Lemma sequence_root_refused :
  ~ (forall (y : Yaml) (data : bytes) (v : value),
        decode y data = inl v -> snd (bytesToYAMLDoc y data) = None).
Proof.
  intros H.
  specialize (H {| decode := fun _ => inl (VSlice [VString "a"; VString "b"]);
                   mismatch := fun _ => "cannot unmarshal !!seq into map[interface {}]interface {}" |}
                [] _ eq_refl).
  discriminate H.
Qed.

(** C10, as amended: for every byte stream the YAML library accepts as a
    document, [bytesToYAMLDoc] returns the mapping without error when the root
    of the document is a mapping, and an empty mapping when the document is
    empty or null; when the root is a sequence or any other scalar it returns
    the library's type error and no tree.  A byte stream the library rejects
    gives the library's error. *)
Theorem parse_needs_mapping_root (y : Yaml) (data : bytes) (v : value) :
  decode y data = inl v ->
  match v with
  | VMap m => bytesToYAMLDoc y data = (VMap m, None)
  | VNil => bytesToYAMLDoc y data = (VMap [], None)
  | _ => bytesToYAMLDoc y data = (VNil, Some (mismatch y data))
  end.
Proof.
  intros Hd. unfold bytesToYAMLDoc, Unmarshal_map. rewrite Hd.
  destruct v; reflexivity.
Qed.

Lemma parse_needs_mapping_root_witness :
  bytesToYAMLDoc {| decode := fun _ => inl (VMap [(VString "language", VString "go")]);
                    mismatch := fun _ => "unused" |} []
  = (VMap [(VString "language", VString "go")], None).
Proof.
  apply (parse_needs_mapping_root
           {| decode := fun _ => inl (VMap [(VString "language", VString "go")]);
              mismatch := fun _ => "unused" |} [] (VMap [(VString "language", VString "go")])).
  reflexivity.
Defined.

Lemma parse_rejected_stream (y : Yaml) (data : bytes) (e : string) :
  decode y data = inr e -> bytesToYAMLDoc y data = (VNil, Some e).
Proof. intros Hd. unfold bytesToYAMLDoc, Unmarshal_map. rewrite Hd. reflexivity. Qed.

(** ** Marshal on the scenarios *)

Example marshal_scenarios :
  let ff := fun _ : Z => inr "json: unsupported value" in
  YAMLToJSON ff (VMap [(VString "name", VString "Widget"); (VString "count", VInt 3)])
  = (json_text "{'count':3,'name':'Widget'}", None)
  /\ YAMLToJSON ff (VMap [(VInt 1, VString "a"); (VInt 2, VString "b")])
     = (json_text "{'1':'a','2':'b'}", None)
  /\ YAMLToJSON ff (VMap [(VString "list",
                           VSlice [VInt 1; VMap [(VString "a", VBool true)]; VString "s"])])
     = (json_text "{'list':[1,{'a':true},'s']}", None)
  /\ YAMLToJSON ff (VMap [(VString "<a&b>", VSlice []); (VString "A", VNil);
                          (VString "", VInt (-20))])
     = (json_text "{'':-20,'\u003ca\u0026b\u003e':[],'A':null}", None).
Proof. repeat split; vm_compute; reflexivity. Qed.

Example parse_examples :
  parse_json (json_text "{'list':[1,{'a':true},'s'], 'x' : -1.5e+3 , 'y':null}")
  = Some (JObject [("list", JArray [JNumber "1"; JObject [("a", JBool true)]; JString "s"]);
                   ("x", JNumber "-1.5e+3"); ("y", JNull)])
  /\ parse_json (json_text "['\u003ca\n', '\ud83d\ude00']")
     = Some (JArray [JString (String "<" (String "a" (String "010" EmptyString)));
                     JString (string_of_list_ascii [chr 0xF0; chr 0x9F; chr 0x98; chr 0x80])])
  /\ parse_json (json_text "[1,]") = None
  /\ parse_json (json_text "01") = None
  /\ parse_json (json_text "{'a':1} x") = None.
Proof. repeat split; vm_compute; reflexivity. Qed.

(** ** The order of the entries of an object *)

Lemma insert_entry_Permutation {A : Type} (e : string * A) (l : list (string * A)) :
  insert_entry e l ≡ₚ e :: l.
Proof.
  induction l as [| e' l IH]; simpl; [reflexivity |].
  destruct (String.leb (fst e) (fst e')); [reflexivity |].
  rewrite IH. apply Permutation_swap.
Qed.

Lemma sort_entries_Permutation {A : Type} (l : list (string * A)) : sort_entries l ≡ₚ l.
Proof.
  induction l as [| e l IH]; simpl; [reflexivity |].
  rewrite insert_entry_Permutation, IH. reflexivity.
Qed.

Lemma entry_le_trans {A : Type} : Transitive (@entry_le A).
Proof. intros a b c. unfold entry_le. apply transitivity. Qed.

Lemma entry_le_total {A : Type} (a b : string * A) :
  String.leb (fst a) (fst b) = false -> entry_le b a.
Proof.
  intros H. unfold entry_le, String.le.
  destruct (String.leb_total (fst a) (fst b)) as [H' | H']; [congruence |].
  rewrite H'. exact I.
Qed.

Lemma insert_entry_Sorted {A : Type} (e : string * A) (l : list (string * A)) :
  Sorted entry_le l -> Sorted entry_le (insert_entry e l).
Proof.
  induction l as [| e' l IH]; simpl; intros Hs.
  - repeat constructor.
  - destruct (String.leb (fst e) (fst e')) eqn:Hle.
    + constructor; [exact Hs |]. constructor.
      unfold entry_le, String.le. rewrite Hle. exact I.
    + apply Sorted_inv in Hs as [Hs Hhd]. constructor; [apply IH; exact Hs |].
      destruct l as [| e'' l]; simpl.
      * constructor. apply entry_le_total. exact Hle.
      * destruct (String.leb (fst e) (fst e'')).
        -- constructor. apply entry_le_total. exact Hle.
        -- constructor. inversion Hhd; assumption.
Qed.

Lemma sort_entries_Sorted {A : Type} (l : list (string * A)) :
  Sorted entry_le (sort_entries l).
Proof.
  induction l as [| e l IH]; simpl; [constructor | apply insert_entry_Sorted; exact IH].
Qed.

Lemma NoDup_fst_agree {A : Type} (l : list (string * A)) (a b : string * A) :
  NoDup (map fst l) -> a ∈ l -> b ∈ l -> fst a = fst b -> a = b.
Proof.
  induction l as [| e l IH]; simpl; intros Hnd Ha Hb Hk; [inversion Ha |].
  apply NoDup_cons in Hnd as [Hnin Hnd].
  apply elem_of_cons in Ha as [-> | Ha]; apply elem_of_cons in Hb as [-> | Hb].
  - reflexivity.
  - exfalso. apply Hnin. rewrite Hk. apply list_elem_of_fmap. eauto.
  - exfalso. apply Hnin. rewrite <- Hk. apply list_elem_of_fmap. eauto.
  - apply IH; assumption.
Qed.

(** Two runs over the same map, whose keys are distinct, write its entries
    in the same order. *)
Lemma sort_entries_unique {A : Type} (l1 l2 : list (string * A)) :
  l1 ≡ₚ l2 -> NoDup (map fst l1) -> sort_entries l1 = sort_entries l2.
Proof.
  intros Hp Hnd.
  apply (@Sorted_unique_strong _ entry_le entry_le_trans).
  - intros a b Ha Hb Hab Hba.
    apply (NoDup_fst_agree l1); [exact Hnd | | |].
    + rewrite <- (sort_entries_Permutation l1). exact Ha.
    + rewrite Hp, <- (sort_entries_Permutation l2). exact Hb.
    + unfold entry_le in *. apply (anti_symm String.le); assumption.
  - apply sort_entries_Sorted.
  - apply sort_entries_Sorted.
  - rewrite !sort_entries_Permutation. exact Hp.
Qed.

Lemma insert_entry_map {A B : Type} (f : A -> B) (e : string * A) (l : list (string * A)) :
  insert_entry (fst e, f (snd e)) (map (fun kv => (fst kv, f (snd kv))) l)
  = map (fun kv => (fst kv, f (snd kv))) (insert_entry e l).
Proof.
  induction l as [| e' l IH]; simpl; [reflexivity |].
  destruct (String.leb (fst e) (fst e')); simpl; [reflexivity |].
  rewrite IH. reflexivity.
Qed.

Lemma sort_entries_map {A B : Type} (f : A -> B) (l : list (string * A)) :
  sort_entries (map (fun kv => (fst kv, f (snd kv))) l)
  = map (fun kv => (fst kv, f (snd kv))) (sort_entries l).
Proof.
  induction l as [| e l IH]; simpl; [reflexivity |].
  rewrite IH. apply (insert_entry_map f).
Qed.

(** ** Marshal writes one text for one value *)

Lemma marshal_same_value FormatFloat (c : value) :
  forall c', same_value c c' -> encode FormatFloat c = encode FormatFloat c'.
Proof.
  induction c as [| b | n | n | n | f | s | l IH | m IH | m IH] using value_nested_ind;
    intros c' Hsame; inversion Hsame; subst; try reflexivity.
  - (* slices *)
    simpl. replace (map (encode FormatFloat) l') with (map (encode FormatFloat) l);
      [reflexivity |].
    match goal with H : Forall2 same_value _ _ |- _ => rename H into HF end.
    clear Hsame. induction HF as [| x y l l' Hxy HF IHF]; simpl; [reflexivity |].
    apply Forall_cons in IH as [Hx IH]. rewrite (Hx _ Hxy), (IHF IH). reflexivity.
  - (* maps *)
    match goal with H : Forall2 _ p _ |- _ => rename H into HF end.
    match goal with H : Permutation m p |- _ => rename H into Hp end.
    match goal with H : NoDup _ |- _ => rename H into Hnd end.
    simpl.
    assert (IHp : Forall (fun kv => forall c', same_value (snd kv) c' ->
                                    encode FormatFloat (snd kv) = encode FormatFloat c') p).
    { rewrite <- Hp. exact IH. }
    assert (Hmap : map (fun kv => (fst kv, encode FormatFloat (snd kv))) p
                   = map (fun kv => (fst kv, encode FormatFloat (snd kv))) m').
    { clear -HF IHp. induction HF as [| x y p m' [Hk Hxy] HF IHF]; simpl; [reflexivity |].
      apply Forall_cons in IHp as [Hx IHp].
      rewrite Hk, (Hx _ Hxy), (IHF IHp). reflexivity. }
    rewrite <- Hmap.
    rewrite (sort_entries_unique
               (map (fun kv => (fst kv, encode FormatFloat (snd kv))) m)
               (map (fun kv => (fst kv, encode FormatFloat (snd kv))) p)).
    + reflexivity.
    + apply Permutation_map. exact Hp.
    + rewrite map_map. simpl. exact Hnd.
Qed.

Lemma map_assign_NoDup {A : Type} (sk : string) (v : A) (o : list (string * A)) :
  NoDup (map fst o) -> NoDup (map fst (map_assign sk v o)).
Proof.
  induction o as [| [k' v'] o IH]; simpl; intros Hnd.
  - repeat constructor. inversion 1.
  - apply NoDup_cons in Hnd as [Hnin Hnd].
    destruct (String.eqb_spec sk k') as [-> | Hne]; simpl.
    + apply NoDup_cons. split; assumption.
    + apply NoDup_cons. split; [| apply IH; exact Hnd].
      rewrite map_assign_keys. intros [Heq | Hin]; [congruence | contradiction].
Qed.

Lemma fold_assign_NoDup {A : Type} (es o : list (string * A)) :
  NoDup (map fst o) ->
  NoDup (map fst (fold_left (fun o e => map_assign (fst e) (snd e) o) es o)).
Proof.
  revert o. induction es as [| e es IH]; intros o Hnd; simpl; [exact Hnd |].
  apply IH. apply map_assign_NoDup. exact Hnd.
Qed.

Lemma proper_slice (ys : list value) : Forall proper ys -> proper (VSlice ys).
Proof.
  intros H. apply same_value_slice. induction H; constructor; assumption.
Qed.

Lemma proper_strmap (o : list (string * value)) :
  NoDup (map fst o) -> Forall (fun e => proper (snd e)) o -> proper (VStrMap o).
Proof.
  intros Hnd H. apply (same_value_strmap o o o Hnd); [reflexivity |].
  clear Hnd. induction H; constructor; auto.
Qed.

Lemma transformData_proper (t : value) :
  yaml_tree t = true -> forall c, transformData t = (c, None) -> proper c.
Proof.
  induction t as [| b | n | n | n | f | s | l IH | m IH | m IH] using value_nested_ind;
    intros Hy c Hc; try (injection Hc as <-; apply same_value_scalar; reflexivity).
  - pose proof Hc as Hc'. rewrite transformData_slice in Hc'.
    apply transform_slice_success in Hc' as [ys Hys].
    rewrite transformData_slice in Hc.
    rewrite (transform_slice_fill _ _ ys) in Hc by (try exact Hys; rewrite length_replicate; lia).
    injection Hc as <-. simpl. apply proper_slice.
    simpl in Hy. clear -IH Hy Hys.
    induction Hys as [| x y l ys Hxy Hys IHys]; [constructor |].
    apply Forall_cons in IH as [Hx IH]. simpl in Hy. apply andb_true_iff in Hy as [Hyx Hyl].
    constructor; [apply Hx; assumption | apply IHys; assumption].
  - rewrite transformData_map in Hc.
    apply transform_map_success in Hc as (es & HF & ->).
    apply proper_strmap; [apply fold_assign_NoDup; constructor |].
    apply (fold_assign_Forall proper); [| constructor].
    simpl in Hy. clear -IH Hy HF.
    induction HF as [| [k v] [sk y] m es [_ Hv] HF IHF]; [constructor |].
    apply Forall_cons in IH as [[_ Hx] IH]. simpl in Hy.
    apply andb_true_iff in Hy as [Hykv Hym]. apply andb_true_iff in Hykv as [_ Hyv].
    constructor; [apply (Hx Hyv); exact Hv | apply IHF; assumption].
  - discriminate Hy.
Qed.

Example marshal_two_orders :
  let ff := fun _ : Z => inr "json: unsupported value" in
  Marshal ff (VStrMap [("b", VInt 1); ("a", VStrMap [("y", VNil); ("x", VBool true)])])
  = (json_text "{'a':{'x':true,'y':null},'b':1}", None)
  /\ Marshal ff (VStrMap [("a", VStrMap [("x", VBool true); ("y", VNil)]); ("b", VInt 1)])
     = (json_text "{'a':{'x':true,'y':null},'b':1}", None).
Proof. split; vm_compute; reflexivity. Qed.

(** ** Strings are read back as they were written *)

Lemma byte_range (c : ascii) : 0 <= byte c < 256.
Proof.
  unfold byte. pose proof (N_ascii_bounded c) as H. lia.
Qed.

Lemma chr_byte (c : ascii) : chr (byte c) = c.
Proof. unfold chr, byte. rewrite N2Z.id. apply ascii_N_embedding. Qed.

Lemma byte_inj (c d : ascii) : byte c = byte d -> c = d.
Proof. intros H. rewrite <- (chr_byte c), <- (chr_byte d), H. reflexivity. Qed.

Lemma lor_shiftl_add (a b k : Z) :
  0 <= k -> 0 <= b < 2 ^ k -> Z.lor (Z.shiftl a k) b = a * 2 ^ k + b.
Proof.
  intros Hk Hb. rewrite <- Z.shiftl_mul_pow2 by exact Hk.
  rewrite <- Z.lxor_lor, Z.add_nocarry_lxor; try reflexivity.
  all: apply Z.bits_inj'; intros n Hn; rewrite Z.land_spec, Z.bits_0.
  all: destruct (Z.lt_ge_cases n k) as [Hlt | Hge];
    [rewrite Z.shiftl_spec_low by exact Hlt; reflexivity |].
  all: rewrite <- (Z.mod_small b (2 ^ k)) by exact Hb.
  all: rewrite Z.mod_pow2_bits_high by lia; apply andb_false_r.
Qed.

Lemma land_mask (x : Z) (k : Z) : 0 <= k -> Z.land x (2 ^ k - 1) = x mod 2 ^ k.
Proof.
  intros Hk. replace (2 ^ k - 1) with (Z.ones k) by (rewrite Z.ones_equiv; lia).
  apply Z.land_ones. exact Hk.
Qed.


Lemma land_low (x m k : Z) : 0 <= k -> m = 2 ^ k - 1 -> Z.land x m = x mod (m + 1).
Proof. intros Hk ->. rewrite land_mask by exact Hk. f_equal. lia. Qed.

Lemma lor_mul (a b k p : Z) :
  0 <= k -> p = 2 ^ k -> 0 <= b < p -> Z.lor (a * p) b = a * p + b.
Proof.
  intros Hk -> Hb. rewrite <- (lor_shiftl_add a b k Hk Hb).
  rewrite Z.shiftl_mul_pow2 by exact Hk. reflexivity.
Qed.

Lemma decode2 (p0 b1 : Z) :
  Z.lor (Z.shiftl (Z.land p0 0x1F) 6) (Z.land b1 0x3F) = (p0 mod 32) * 64 + b1 mod 64.
Proof.
  rewrite (land_low p0 0x1F 5), (land_low b1 0x3F 6) by (reflexivity || lia).
  change (0x1F + 1) with 32. change (0x3F + 1) with 64.
  pose proof (Z.mod_pos_bound b1 64).
  rewrite Z.shiftl_mul_pow2 by lia. change (2 ^ 6) with 64.
  apply (lor_mul _ _ 6 64); [lia | reflexivity | lia].
Qed.

Lemma decode3 (p0 b1 b2 : Z) :
  Z.lor (Z.lor (Z.shiftl (Z.land p0 0x0F) 12) (Z.shiftl (Z.land b1 0x3F) 6)) (Z.land b2 0x3F)
  = (p0 mod 16) * 4096 + (b1 mod 64) * 64 + b2 mod 64.
Proof.
  rewrite (land_low p0 0x0F 4), (land_low b1 0x3F 6), (land_low b2 0x3F 6)
    by (reflexivity || lia).
  change (0x0F + 1) with 16. change (0x3F + 1) with 64.
  pose proof (Z.mod_pos_bound p0 16). pose proof (Z.mod_pos_bound b1 64).
  pose proof (Z.mod_pos_bound b2 64).
  rewrite !Z.shiftl_mul_pow2 by lia. change (2 ^ 6) with 64. change (2 ^ 12) with 4096.
  rewrite (lor_mul _ (b1 mod 64 * 64) 12 4096) by (reflexivity || lia).
  transitivity (Z.lor ((p0 mod 16 * 64 + b1 mod 64) * 64) (b2 mod 64)); [f_equal; lia |].
  rewrite (lor_mul _ _ 6 64) by (reflexivity || lia). lia.
Qed.

Lemma decode4 (p0 b1 b2 b3 : Z) :
  Z.lor (Z.lor (Z.lor (Z.shiftl (Z.land p0 0x07) 18) (Z.shiftl (Z.land b1 0x3F) 12))
               (Z.shiftl (Z.land b2 0x3F) 6)) (Z.land b3 0x3F)
  = (p0 mod 8) * 262144 + (b1 mod 64) * 4096 + (b2 mod 64) * 64 + b3 mod 64.
Proof.
  rewrite (land_low p0 0x07 3), (land_low b1 0x3F 6), (land_low b2 0x3F 6),
    (land_low b3 0x3F 6) by (reflexivity || lia).
  change (0x07 + 1) with 8. change (0x3F + 1) with 64.
  pose proof (Z.mod_pos_bound p0 8). pose proof (Z.mod_pos_bound b1 64).
  pose proof (Z.mod_pos_bound b2 64). pose proof (Z.mod_pos_bound b3 64).
  rewrite !Z.shiftl_mul_pow2 by lia.
  change (2 ^ 6) with 64. change (2 ^ 12) with 4096. change (2 ^ 18) with 262144.
  rewrite (lor_mul _ (b1 mod 64 * 4096) 18 262144) by (reflexivity || lia).
  transitivity (Z.lor (Z.lor ((p0 mod 8 * 64 + b1 mod 64) * 4096) (b2 mod 64 * 64))
                      (b3 mod 64)); [do 2 f_equal; lia |].
  rewrite (lor_mul _ (b2 mod 64 * 64) 12 4096) by (reflexivity || lia).
  transitivity (Z.lor (((p0 mod 8 * 64 + b1 mod 64) * 64 + b2 mod 64) * 64) (b3 mod 64));
    [f_equal; lia |].
  rewrite (lor_mul _ _ 6 64) by (reflexivity || lia). lia.
Qed.

Lemma accept_range_bounds (p0 : Z) :
  0x80 <= fst (accept_range p0) /\ snd (accept_range p0) <= 0xBF
  /\ (p0 = 0xF0 -> 0x90 <= fst (accept_range p0)).
Proof.
  unfold accept_range.
  repeat match goal with |- context [if ?b then _ else _] => destruct b eqn:? end;
    simpl; repeat split; lia.
Qed.

Lemma decode_multibyte (c : ascii) (tl : bytes) (r : Z) (size : nat) :
  0x80 <= byte c ->
  DecodeRune (c :: tl) = (r, size) ->
  (r =? RuneError) && (size =? 1)%nat = false ->
  exists seq rest,
    c :: tl = seq ++ rest /\ length seq = size /\ (2 <= size)%nat
    /\ Forall (fun x => 0x80 <= byte x) seq
    /\ (r = 0x2028 \/ r = 0x2029 -> seq = EncodeRune r).
Proof.
  intros Hc Hd Hv. unfold DecodeRune in Hd.
  pose proof (byte_range c) as Rc.
  destruct (accept_range_bounds (byte c)) as (Hlo & Hhi & Hf0).
  destruct (accept_range (byte c)) as [lo hi]. simpl in Hlo, Hhi, Hf0.
  destruct (Z.ltb_spec (byte c) 0x80) as [? | _]; [lia |].
  destruct ((byte c <? 0xC2) || (0xF4 <? byte c)) eqn:H0;
    [injection Hd as <- <-; discriminate Hv |].
  apply orb_false_iff in H0 as [H0 H0']. apply Z.ltb_ge in H0, H0'.
  destruct tl as [| c1 tl]; [injection Hd as <- <-; discriminate Hv |].
  pose proof (byte_range c1) as R1.
  destruct ((byte c1 <? lo) || (hi <? byte c1)) eqn:H1;
    [injection Hd as <- <-; discriminate Hv |].
  apply orb_false_iff in H1 as [H1 H1']. apply Z.ltb_ge in H1, H1'.
  destruct (Z.ltb_spec (byte c) 0xE0) as [H2 | H2].
  { (* two bytes *)
    simpl in Hd. injection Hd as <- <-. exists [c; c1], tl.
    repeat split; [simpl; lia | repeat constructor; lia |].
    rewrite decode2. intros Hr. exfalso.
    pose proof (Z.mod_pos_bound (byte c) 32). pose proof (Z.mod_pos_bound (byte c1) 64). lia. }
  destruct (Z.ltb_spec (byte c) 0xF0) as [H3 | H3].
  { (* three bytes *)
    simpl in Hd.
    destruct tl as [| c2 tl]; [injection Hd as <- <-; discriminate Hv |].
    pose proof (byte_range c2) as R2.
    destruct ((byte c2 <? 0x80) || (0xBF <? byte c2)) eqn:H4;
      [injection Hd as <- <-; discriminate Hv |].
    apply orb_false_iff in H4 as [H4 H4']. apply Z.ltb_ge in H4, H4'.
    injection Hd as <- <-. exists [c; c1; c2], tl.
    repeat split; [simpl; lia | repeat constructor; lia |].
    rewrite decode3. intros Hr.
    assert (Hb : byte c = 0xE2 /\ byte c1 = 0x80
                 /\ (byte c2 = 0xA8 \/ byte c2 = 0xA9)
                 /\ (byte c mod 16 * 4096 + byte c1 mod 64 * 64 + byte c2 mod 64
                     = 0x2000 + byte c2 mod 64)).
    { clear Hv. Z.div_mod_to_equations. lia. }
    destruct Hb as (E0 & E1 & E2 & Er). rewrite Er.
    rewrite <- (chr_byte c), <- (chr_byte c1), <- (chr_byte c2), E0, E1.
    destruct E2 as [-> | ->]; reflexivity. }
  (* four bytes *)
  simpl in Hd.
  destruct tl as [| c2 tl]; [injection Hd as <- <-; discriminate Hv |].
  pose proof (byte_range c2) as R2.
  destruct ((byte c2 <? 0x80) || (0xBF <? byte c2)) eqn:H4;
    [injection Hd as <- <-; discriminate Hv |].
  apply orb_false_iff in H4 as [H4 H4']. apply Z.ltb_ge in H4, H4'.
  destruct tl as [| c3 tl]; [injection Hd as <- <-; discriminate Hv |].
  pose proof (byte_range c3) as R3.
  destruct ((byte c3 <? 0x80) || (0xBF <? byte c3)) eqn:H5;
    [injection Hd as <- <-; discriminate Hv |].
  apply orb_false_iff in H5 as [H5 H5']. apply Z.ltb_ge in H5, H5'.
  injection Hd as <- <-. exists [c; c1; c2; c3], tl.
  repeat split; [simpl; lia | repeat constructor; lia |].
  rewrite decode4. intros Hr. exfalso.
  assert (byte c = 0xF0 \/ 0xF1 <= byte c) as [E | E] by lia.
  - specialize (Hf0 E). clear Hv. Z.div_mod_to_equations. lia.
  - clear Hv Hf0. Z.div_mod_to_equations. lia.
Qed.

Lemma read_string_ascii (c : ascii) (w : bytes) :
  byte c < 0x80 ->
  read_string ((if htmlSafe (byte c) then [c] else escape_byte c) ++ w)
  = match read_string w with
    | Some (str, rest) => Some (c :: str, rest)
    | None => None
    end.
Proof.
  intros Hc.
  destruct c as [b0 b1 b2 b3 b4 b5 b6 b7].
  destruct b7; [exfalso; destruct b0, b1, b2, b3, b4, b5, b6; vm_compute in Hc; discriminate Hc |].
  clear Hc.
  destruct b0, b1, b2, b3, b4, b5, b6; reflexivity.
Qed.

Lemma read_string_high (seq w : bytes) :
  Forall (fun x => 0x80 <= byte x) seq ->
  read_string (seq ++ w)
  = match read_string w with
    | Some (str, rest) => Some (seq ++ str, rest)
    | None => None
    end.
Proof.
  intros H. induction H as [| c seq Hc H IH]; simpl.
  - destruct (read_string w) as [[str rest] |]; reflexivity.
  - destruct (Z.eqb_spec (byte c) 0x22) as [? | _]; [lia |].
    destruct (Z.eqb_spec (byte c) 0x5C) as [? | _]; [lia |].
    destruct (Z.ltb_spec (byte c) 0x20) as [? | _]; [lia |].
    rewrite IH. destruct (read_string w) as [[str rest] |]; reflexivity.
Qed.

Lemma read_string_u202x (r : Z) (w : bytes) :
  r = 0x2028 \/ r = 0x2029 ->
  read_string (backslash_char :: lit "u202" ++ hex_char (Z.land r 0xF) :: w)
  = match read_string w with
    | Some (str, rest) => Some (EncodeRune r ++ str, rest)
    | None => None
    end.
Proof. intros [-> | ->]; reflexivity. Qed.

Lemma valid_loop_step (fuel : nat) (c : ascii) (tl : bytes) :
  valid_loop (S fuel) (c :: tl)
  = (let '(r, size) := DecodeRune (c :: tl) in
     if (r =? RuneError) && (size =? 1)%nat then false
     else valid_loop fuel (drop size (c :: tl))).
Proof. reflexivity. Qed.

Lemma appendString_loop_step (fuel : nat) (c : ascii) (rest : bytes) :
  appendString_loop (S fuel) (c :: rest)
  = (let b := byte c in
     if b <? 0x80 then
       (if htmlSafe b then [c] else escape_byte c) ++ appendString_loop fuel rest
     else
       let '(r, size) := DecodeRune (c :: rest) in
       if (r =? RuneError) && (size =? 1)%nat
       then backslash_char :: lit "ufffd" ++ appendString_loop fuel (drop size (c :: rest))
       else if (r =? 0x2028) || (r =? 0x2029)
       then backslash_char :: lit "u202" ++ hex_char (Z.land r 0xF)
              :: appendString_loop fuel (drop size (c :: rest))
       else take size (c :: rest) ++ appendString_loop fuel (drop size (c :: rest))).
Proof. reflexivity. Qed.

Lemma DecodeRune_ascii (c : ascii) (tl : bytes) :
  byte c < 0x80 -> DecodeRune (c :: tl) = (byte c, 1%nat).
Proof.
  intros Hc. unfold DecodeRune. destruct (Z.ltb_spec (byte c) 0x80); [reflexivity | lia].
Qed.

Lemma read_appendString_loop (fuel : nat) (src rest : bytes) :
  (length src <= fuel)%nat ->
  valid_loop fuel src = true ->
  read_string (appendString_loop fuel src ++ quote_char :: rest) = Some (src, rest).
Proof.
  revert src. induction fuel as [| fuel IH]; intros src Hlen Hv.
  - destruct src; [reflexivity | simpl in Hlen; lia].
  - destruct src as [| c tl]; [reflexivity |].
    rewrite appendString_loop_step. rewrite valid_loop_step in Hv. cbv zeta.
    simpl in Hlen.
    destruct (Z.ltb_spec (byte c) 0x80) as [Hc | Hc].
    + rewrite DecodeRune_ascii in Hv by exact Hc.
      assert (Hne : (byte c =? RuneError) = false).
      { apply Z.eqb_neq. unfold RuneError. lia. }
      rewrite Hne in Hv. simpl in Hv.
      rewrite <- app_assoc, read_string_ascii by exact Hc.
      rewrite IH by (try exact Hv; lia). reflexivity.
    + destruct (DecodeRune (c :: tl)) as [r size] eqn:Hd.
      destruct ((r =? RuneError) && (size =? 1)%nat) eqn:Hbad; [discriminate Hv |].
      destruct (decode_multibyte c tl r size Hc Hd Hbad)
        as (seq & rest' & Hsplit & Hsize & H2 & Hhigh & Hsep).
      assert (Hl : (length rest' <= fuel)%nat).
      { apply (f_equal length) in Hsplit. rewrite length_app in Hsplit.
        simpl in Hsplit. lia. }
      rewrite Hsplit in *. subst size.
      rewrite drop_app_length in *. rewrite take_app_length.
      destruct ((r =? 0x2028) || (r =? 0x2029)) eqn:Hr.
      * assert (Hr' : r = 0x2028 \/ r = 0x2029).
        { apply orb_true_iff in Hr as [Hr | Hr]; apply Z.eqb_eq in Hr; auto. }
        change ((backslash_char :: lit "u202" ++ hex_char (Z.land r 0xF)
                   :: appendString_loop fuel rest') ++ quote_char :: rest)
          with (backslash_char :: lit "u202" ++ hex_char (Z.land r 0xF)
                  :: (appendString_loop fuel rest' ++ quote_char :: rest)).
        rewrite read_string_u202x by exact Hr'.
        rewrite IH by assumption. rewrite (Hsep Hr'). reflexivity.
      * rewrite <- app_assoc, read_string_high by exact Hhigh.
        rewrite IH by assumption. reflexivity.
Qed.

Lemma lit_string (s : string) : string_of_list_ascii (lit s) = s.
Proof. apply string_of_list_ascii_of_string. Qed.

Lemma lit_length (s : string) : length (lit s) = String.length s.
Proof. induction s as [| c s IH]; simpl; [reflexivity | f_equal; exact IH]. Qed.

(** A well-formed string is read back from what [appendString] writes. *)
Lemma read_appendString (s : string) (rest : bytes) :
  ValidString s = true ->
  exists body, appendString s ++ rest = quote_char :: body
               /\ read_string body = Some (lit s, rest).
Proof.
  intros Hv. unfold appendString. eexists. split.
  - simpl. rewrite <- app_assoc. reflexivity.
  - simpl. apply read_appendString_loop; [rewrite lit_length; lia | exact Hv].
Qed.

(** ** Numbers are read back as they were written *)

Lemma span_number_app (tok rest : bytes) :
  forallb is_number_char tok = true -> number_ends rest = true ->
  span_number (tok ++ rest) = (tok, rest).
Proof.
  intros Ht Hr. induction tok as [| c tok IH]; simpl in *.
  - destruct rest as [| c r]; [reflexivity |]. simpl in *.
    destruct (is_number_char c); [discriminate | reflexivity].
  - apply andb_true_iff in Ht as [Hc Ht]. rewrite Hc, (IH Ht). reflexivity.
Qed.

Lemma is_digit_number_char (c : ascii) : is_digit c = true -> is_number_char c = true.
Proof. intros H. unfold is_number_char. rewrite H. reflexivity. Qed.

Lemma skip_digits_all (s : bytes) :
  skip_digits s = [] -> forallb is_number_char s = true.
Proof.
  induction s as [| c s IH]; simpl; [reflexivity |].
  destruct (is_digit c) eqn:Hd; [| discriminate].
  intros H. rewrite (is_digit_number_char c Hd), (IH H). reflexivity.
Qed.

Lemma skip_digits_number_chars (s : bytes) :
  forallb is_number_char (skip_digits s) = true -> forallb is_number_char s = true.
Proof.
  induction s as [| c s IH]; simpl; [reflexivity |].
  destruct (is_digit c) eqn:Hd; [| simpl; tauto].
  intros H. rewrite (is_digit_number_char c Hd), (IH H). reflexivity.
Qed.

Lemma number_exponent_chars (s : bytes) :
  number_exponent s = true -> forallb is_number_char s = true.
Proof.
  destruct s as [| c r]; [reflexivity |]. unfold number_exponent.
  destruct ((byte c =? 0x65) || (byte c =? 0x45)) eqn:He; [| discriminate].
  assert (Hc : is_number_char c = true).
  { unfold is_number_char. apply orb_true_iff in He as [-> | ->];
      rewrite ?orb_true_r; reflexivity. }
  intros H. simpl. rewrite Hc. simpl.
  assert (Hd : forall r', match digits1 r' with Some [] => true | _ => false end = true ->
                          forallb is_number_char r' = true).
  { intros r' Hr'. destruct r' as [| d r'']; [discriminate |]. simpl in Hr'.
    destruct (is_digit d) eqn:Hdd; [| discriminate]. simpl.
    rewrite (is_digit_number_char d Hdd). simpl.
    apply skip_digits_all. destruct (skip_digits r''); [reflexivity | discriminate]. }
  destruct r as [| sg r1]; [discriminate H |].
  destruct ((byte sg =? 0x2B) || (byte sg =? 0x2D)) eqn:Hs.
  - simpl. rewrite (Hd _ H).
    unfold is_number_char. apply orb_true_iff in Hs as [-> | ->];
      rewrite ?orb_true_r; reflexivity.
  - apply Hd. exact H.
Qed.

Lemma number_fraction_chars (s : bytes) :
  number_fraction s = true -> forallb is_number_char s = true.
Proof.
  destruct s as [| c r]; [reflexivity |]. unfold number_fraction.
  destruct (byte c =? 0x2E) eqn:Hp; [| apply number_exponent_chars].
  destruct r as [| d r']; [discriminate |]. simpl.
  destruct (is_digit d) eqn:Hd; [| discriminate].
  intros H. rewrite (is_digit_number_char d Hd).
  unfold is_number_char at 1. rewrite Hp, ?orb_true_r. simpl.
  apply skip_digits_number_chars. apply number_exponent_chars. exact H.
Qed.

Lemma json_number_chars (s : bytes) :
  json_number s = true -> forallb is_number_char s = true.
Proof.
  assert (Hu : forall s1,
             match s1 with
             | c :: r => if byte c =? 0x30 then number_fraction r
                         else if is_digit c then number_fraction (skip_digits r) else false
             | [] => false
             end = true -> forallb is_number_char s1 = true).
  { intros [| c r]; [discriminate |]. simpl.
    destruct (byte c =? 0x30) eqn:H0.
    - intros H. unfold is_number_char at 1, is_digit.
      apply Z.eqb_eq in H0. rewrite H0. simpl. apply number_fraction_chars. exact H.
    - destruct (is_digit c) eqn:Hd; [| discriminate]. intros H.
      rewrite (is_digit_number_char c Hd). simpl.
      apply skip_digits_number_chars. apply number_fraction_chars. exact H. }
  unfold json_number. destruct s as [| c r]; [discriminate |].
  destruct (byte c =? 0x2D) eqn:Hm; [| exact (Hu (c :: r))].
  intros H. simpl. rewrite (Hu _ H).
  unfold is_number_char. rewrite Hm, ?orb_true_r. reflexivity.
Qed.

Lemma json_number_head (s : bytes) :
  json_number s = true -> exists c r, s = c :: r /\ is_number_char c = true.
Proof.
  intros H. pose proof (json_number_chars s H) as Hc.
  destruct s as [| c r]; [discriminate H |]. simpl in Hc.
  apply andb_true_iff in Hc as [Hc _]. eauto.
Qed.

Lemma number_char_class (c : ascii) :
  is_number_char c = true ->
  is_ws c = false /\ (byte c =? 0x22) = false /\ (byte c =? 0x5B) = false
  /\ (byte c =? 0x7B) = false /\ (byte c =? 0x5D) = false /\ (byte c =? 0x7D) = false.
Proof.
  destruct c as [b0 b1 b2 b3 b4 b5 b6 b7].
  destruct b0, b1, b2, b3, b4, b5, b6, b7; vm_compute; intros H;
    first [discriminate H | repeat split].
Qed.

Lemma digit_of_is_digit (c : ascii) (d : Z) : digit_of c = Some d -> is_digit c = true.
Proof.
  destruct c as [b0 b1 b2 b3 b4 b5 b6 b7].
  destruct b0, b1, b2, b3, b4, b5, b6, b7; vm_compute; intros H;
    first [discriminate H | reflexivity].
Qed.

Lemma digits_value_digits (s : string) (acc u : Z) :
  digits_value s acc = Some u -> skip_digits (lit s) = [].
Proof.
  revert acc. induction s as [| c s IH]; intros acc; simpl; [reflexivity |].
  destruct (digit_of c) as [d |] eqn:Hd; [| discriminate].
  rewrite (digit_of_is_digit c d Hd). apply IH.
Qed.

Lemma unsigned_decimal_number (s : string) (u : Z) :
  unsigned_decimal s u ->
  exists c r, lit s = c :: r /\ is_digit c = true
              /\ (if byte c =? 0x30 then number_fraction r
                  else number_fraction (skip_digits r)) = true.
Proof.
  intros (Hne & Hval & Hlead). destruct s as [| c s]; [congruence |].
  exists c, (lit s). split; [reflexivity |]. simpl in Hval.
  destruct (digit_of c) as [d |] eqn:Hd; [| discriminate].
  split; [exact (digit_of_is_digit c d Hd) |].
  destruct (Z.eqb_spec (byte c) 0x30) as [H0 | H0].
  - assert (c = "0"%char) as -> by (apply byte_inj; exact H0).
    rewrite (Hlead s eq_refl). reflexivity.
  - rewrite (digits_value_digits s _ _ Hval). reflexivity.
Qed.

Lemma Itoa_json_number (n : Z) : json_number (lit (Itoa n)) = true.
Proof.
  pose proof (Itoa_canonical n) as H. unfold canonical_decimal in H.
  destruct (n <? 0).
  - destruct H as (r & -> & Hu).
    destruct (unsigned_decimal_number r _ Hu) as (c & r' & Hr & Hd & Hf).
    unfold json_number. simpl. rewrite Hr. rewrite Hd.
    destruct (byte c =? 0x30); exact Hf.
  - destruct (unsigned_decimal_number _ _ H) as (c & r' & Hr & Hd & Hf).
    unfold json_number. rewrite Hr.
    assert (Hm : (byte c =? 0x2D) = false).
    { unfold is_digit in Hd. apply andb_true_iff in Hd as [H1 H2].
      apply Z.leb_le in H1, H2. apply Z.eqb_neq. lia. }
    rewrite Hm, Hd. destruct (byte c =? 0x30); exact Hf.
Qed.

(** ** Values are read back as they were written *)

Lemma read_value_step (fuel : nat) (s : bytes) :
  read_value (S fuel) s
  = match skip_ws s with
    | [] => None
    | c :: r =>
        if byte c =? 0x22 then
          match read_string r with
          | Some (str, rest) => Some (JString (string_of_list_ascii str), rest)
          | None => None
          end
        else if byte c =? 0x5B then
          match skip_ws r with
          | c' :: r' =>
              if byte c' =? 0x5D then Some (JArray [], r')
              else match read_elements fuel r with
                   | Some (l, rest) => Some (JArray l, rest)
                   | None => None
                   end
          | [] => None
          end
        else if byte c =? 0x7B then
          match skip_ws r with
          | c' :: r' =>
              if byte c' =? 0x7D then Some (JObject [], r')
              else match read_members fuel r with
                   | Some (m, rest) => Some (JObject m, rest)
                   | None => None
                   end
          | [] => None
          end
        else if is_number_char c then
          let '(tok, rest) := span_number (c :: r) in
          if json_number tok then Some (JNumber (string_of_list_ascii tok), rest) else None
        else
          match strip_prefix (lit "null") (c :: r) with
          | Some rest => Some (JNull, rest)
          | None =>
              match strip_prefix (lit "true") (c :: r) with
              | Some rest => Some (JBool true, rest)
              | None =>
                  match strip_prefix (lit "false") (c :: r) with
                  | Some rest => Some (JBool false, rest)
                  | None => None
                  end
              end
          end
    end.
Proof. reflexivity. Qed.

Lemma read_elements_step (fuel : nat) (s : bytes) :
  read_elements (S fuel) s
  = match read_value fuel s with
    | None => None
    | Some (v, rest) =>
        match skip_ws rest with
        | c :: r =>
            if byte c =? 0x2C then
              match read_elements fuel r with
              | Some (vs, rest') => Some (v :: vs, rest')
              | None => None
              end
            else if byte c =? 0x5D then Some ([v], r)
            else None
        | [] => None
        end
    end.
Proof. reflexivity. Qed.

Lemma read_members_step (fuel : nat) (s : bytes) :
  read_members (S fuel) s
  = match skip_ws s with
    | q :: r0 =>
        if byte q =? 0x22 then
          match read_string r0 with
          | None => None
          | Some (key, r1) =>
              match skip_ws r1 with
              | colon :: r2 =>
                  if byte colon =? 0x3A then
                    match read_value fuel r2 with
                    | None => None
                    | Some (v, rest) =>
                        match skip_ws rest with
                        | c :: r =>
                            if byte c =? 0x2C then
                              match read_members fuel r with
                              | Some (m, rest') =>
                                  Some ((string_of_list_ascii key, v) :: m, rest')
                              | None => None
                              end
                            else if byte c =? 0x7D
                            then Some ([(string_of_list_ascii key, v)], r)
                            else None
                        | [] => None
                        end
                    end
                  else None
              | [] => None
              end
          end
        else None
    | [] => None
    end.
Proof. reflexivity. Qed.

Lemma skip_ws_value (b rest : bytes) : starts_value b -> skip_ws (b ++ rest) = b ++ rest.
Proof. intros (h & t & -> & Hws & _). simpl. rewrite Hws. reflexivity. Qed.

Lemma skip_ws_starts (bs rest : bytes) :
  starts_value bs ->
  exists h r, bs ++ rest = h :: r /\ skip_ws (h :: r) = h :: r /\ (byte h =? 0x5D) = false.
Proof.
  intros (h & t & -> & Hws & Hcb & _). exists h, (t ++ rest).
  split; [reflexivity |]. split; [simpl; rewrite Hws; reflexivity | exact Hcb].
Qed.

Lemma read_number (fuel : nat) (tok rest : bytes) :
  json_number tok = true -> number_ends rest = true ->
  starts_value tok
  /\ read_value (S fuel) (tok ++ rest) = Some (JNumber (string_of_list_ascii tok), rest).
Proof.
  intros Hn Hr. destruct (json_number_head tok Hn) as (c & r & -> & Hc).
  destruct (number_char_class c Hc) as (Hws & Hq & Hb & Hbr & Hcb & Hcbr).
  split; [exists c, r; auto |].
  rewrite read_value_step. simpl skip_ws. rewrite Hws, Hq, Hb, Hbr, Hc.
  change (c :: r ++ rest) with ((c :: r) ++ rest).
  rewrite span_number_app by (try apply json_number_chars; assumption).
  rewrite Hn. reflexivity.
Qed.

Section Reading.

Variable FormatFloat : Z -> string + string.

Lemma weight_pos (c : value) : (1 <= weight c)%nat.
Proof. destruct c; simpl; lia. Qed.

Lemma join_elements_false (p : bytes + string) (ps : list (bytes + string)) :
  join_elements false (p :: ps)
  = match join_elements true (p :: ps) with
    | inl b => inl (lit "," ++ b)
    | inr e => inr e
    end.
Proof. simpl. destruct p; [destruct (join_elements false ps) |]; reflexivity. Qed.

Lemma join_elements_inl (first : bool) (b : bytes) (ps : list (bytes + string)) :
  join_elements first (inl b :: ps)
  = match join_elements false ps with
    | inr e => inr e
    | inl bs => inl ((if first then [] else lit ",") ++ b ++ bs)
    end.
Proof. reflexivity. Qed.

Lemma join_entries_inl (first : bool) (k : string) (b : bytes)
      (ps : list (string * (bytes + string))) :
  join_entries first ((k, inl b) :: ps)
  = match join_entries false ps with
    | inr e => inr e
    | inl bs => inl ((if first then [] else lit ",") ++ appendString k ++ lit ":" ++ b ++ bs)
    end.
Proof. reflexivity. Qed.

Lemma join_entries_false (p : string * (bytes + string)) (ps : list (string * (bytes + string))) :
  join_entries false (p :: ps)
  = match join_entries true (p :: ps) with
    | inl b => inl (lit "," ++ b)
    | inr e => inr e
    end.
Proof. simpl. destruct p as [k [b | e]]; [destruct (join_entries false ps) |]; reflexivity. Qed.

Lemma read_elements_ok (xs : list value) :
  forall x,
  Forall (fun c => writable FormatFloat c /\ reads_back FormatFloat c) (x :: xs) ->
  exists bs,
    join_elements true (map (encode FormatFloat) (x :: xs)) = inl bs
    /\ starts_value bs
    /\ (fold_right (fun c acc => weight c + acc)%nat 0%nat (x :: xs) <= length bs)%nat
    /\ forall fuel rest,
        (S (fold_right (fun c acc => weight c + acc)%nat 0%nat (x :: xs)) <= fuel)%nat ->
        read_elements fuel (bs ++ lit "]" ++ rest)
        = Some (map (json_of FormatFloat) (x :: xs), rest).
Proof.
  induction xs as [| y ys IH]; intros x HF.
  - apply Forall_cons in HF as [[Hw Hx] _].
    destruct (Hx Hw) as (bx & Hbx & Hsx & Hlx & Hrx).
    exists bx. simpl. rewrite Hbx. split; [rewrite app_nil_r; reflexivity |].
    split; [exact Hsx |]. split; [lia |]. intros fuel rest Hfuel.
    destruct fuel as [| fuel]; [lia |].
    rewrite read_elements_step.
    rewrite Hrx by (try reflexivity; lia). reflexivity.
  - apply Forall_cons in HF as [[Hw Hx] HF].
    destruct (Hx Hw) as (bx & Hbx & Hsx & Hlx & Hrx).
    destruct (IH y HF) as (bs & Hbs & Hss & Hls & Hrs).
    exists (bx ++ lit "," ++ bs). split; [| split; [| split]].
    + rewrite map_cons in Hbs. rewrite !map_cons, Hbx.
      rewrite join_elements_inl, join_elements_false, Hbs. reflexivity.
    + destruct Hsx as (h & t & -> & Hh). exists h, (t ++ lit "," ++ bs). auto.
    + cbn [fold_right] in *. rewrite !length_app. lia.
    + intros fuel rest Hfuel. destruct fuel as [| fuel]; [lia |].
      rewrite read_elements_step. rewrite <- !app_assoc.
      cbn [fold_right] in Hfuel. pose proof (weight_pos x).
      rewrite Hrx by (try reflexivity; lia). cbn [lit list_ascii_of_string app skip_ws].
      change (is_ws ","%char) with false. cbv iota.
      change (byte ","%char =? 0x2C) with true. cbv iota.
      change (bs ++ "]"%char :: rest) with (bs ++ lit "]" ++ rest).
      rewrite Hrs by (cbn [fold_right]; lia). reflexivity.
Qed.

Lemma read_members_ok (es : list (string * value)) :
  forall e,
  Forall (fun kv => ValidString (fst kv) = true /\ writable FormatFloat (snd kv) /\ reads_back FormatFloat (snd kv))
         (e :: es) ->
  exists bs,
    join_entries true (map (fun kv => (fst kv, encode FormatFloat (snd kv))) (e :: es)) = inl bs
    /\ (exists t, bs = quote_char :: t)
    /\ (fold_right (fun kv acc => weight (snd kv) + acc)%nat 0%nat (e :: es) <= length bs)%nat
    /\ forall fuel rest,
        (S (fold_right (fun kv acc => weight (snd kv) + acc)%nat 0%nat (e :: es)) <= fuel)%nat ->
        read_members fuel (bs ++ lit "}" ++ rest)
        = Some (map (fun kv => (fst kv, json_of FormatFloat (snd kv))) (e :: es), rest).
Proof.
  induction es as [| e' es IH]; intros [k v] HF.
  - apply Forall_cons in HF as [(Hk & Hw & Hv) _]. simpl in Hk, Hw, Hv.
    destruct (Hv Hw) as (bv & Hbv & Hsv & Hlv & Hrv).
    exists (appendString k ++ lit ":" ++ bv).
    split; [| split; [| split]].
    + simpl. rewrite Hbv. rewrite app_nil_r. reflexivity.
    + eexists. reflexivity.
    + cbn [fold_right snd]. rewrite !length_app. lia.
    + intros fuel rest Hfuel. destruct fuel as [| fuel]; [lia |].
      cbn [fold_right snd] in Hfuel.
      rewrite read_members_step. rewrite <- !app_assoc.
      destruct (read_appendString k (lit ":" ++ bv ++ lit "}" ++ rest) Hk)
        as (body & -> & Hbody).
      cbn [skip_ws]. change (is_ws quote_char) with false. cbv iota.
      change (byte quote_char =? 0x22) with true. cbv iota.
      rewrite Hbody. cbn [lit list_ascii_of_string app skip_ws].
      change (is_ws ":"%char) with false. cbv iota.
      change (byte ":"%char =? 0x3A) with true. cbv iota.
      change (bv ++ "}"%char :: rest) with (bv ++ lit "}" ++ rest).
      rewrite Hrv by (try reflexivity; lia). rewrite lit_string. reflexivity.
  - apply Forall_cons in HF as [(Hk & Hw & Hv) HF]. simpl in Hk, Hw, Hv.
    destruct (Hv Hw) as (bv & Hbv & Hsv & Hlv & Hrv).
    destruct (IH e' HF) as (bs & Hbs & Hqs & Hls & Hrs).
    exists (appendString k ++ lit ":" ++ bv ++ lit "," ++ bs).
    split; [| split; [| split]].
    + rewrite map_cons in Hbs. rewrite !map_cons. cbn [fst snd]. rewrite Hbv.
      rewrite join_entries_inl, join_entries_false, Hbs. reflexivity.
    + eexists. reflexivity.
    + cbn [fold_right snd] in *. rewrite !length_app. lia.
    + intros fuel rest Hfuel. destruct fuel as [| fuel]; [lia |].
      cbn [fold_right snd] in Hfuel. pose proof (weight_pos v).
      rewrite read_members_step. rewrite <- !app_assoc.
      destruct (read_appendString k (lit ":" ++ bv ++ lit "," ++ bs ++ lit "}" ++ rest) Hk)
        as (body & -> & Hbody).
      cbn [skip_ws]. change (is_ws quote_char) with false. cbv iota.
      change (byte quote_char =? 0x22) with true. cbv iota.
      rewrite Hbody. cbn [lit list_ascii_of_string app skip_ws].
      change (is_ws ":"%char) with false. cbv iota.
      change (byte ":"%char =? 0x3A) with true. cbv iota.
      change (bv ++ ","%char :: bs ++ "}"%char :: rest)
        with (bv ++ lit "," ++ bs ++ lit "}" ++ rest).
      rewrite Hrv by (try reflexivity; lia). rewrite lit_string.
      cbn [lit list_ascii_of_string app skip_ws].
      change (is_ws ","%char) with false. cbv iota.
      change (byte ","%char =? 0x2C) with true. cbv iota.
      change (bs ++ "}"%char :: rest) with (bs ++ lit "}" ++ rest).
      rewrite Hrs by (cbn [fold_right]; lia). reflexivity.
Qed.

Lemma weight_sum_Permutation (l l' : list (string * value)) :
  l ≡ₚ l' ->
  fold_right (fun kv acc => weight (snd kv) + acc)%nat 0%nat l
  = fold_right (fun kv acc => weight (snd kv) + acc)%nat 0%nat l'.
Proof. induction 1; simpl; lia. Qed.

Lemma writable_slice (l : list value) :
  writable FormatFloat (VSlice l) -> Forall (writable FormatFloat) l.
Proof.
  intros (Hc & Hs & Hf). simpl in Hc, Hs, Hf.
  rewrite forallb_forall in Hc, Hs, Hf. apply Forall_forall. intros x Hx.
  apply list_elem_of_In in Hx. repeat split; auto.
Qed.

Lemma writable_strmap (m : list (string * value)) :
  writable FormatFloat (VStrMap m) ->
  Forall (fun kv => ValidString (fst kv) = true /\ writable FormatFloat (snd kv)) m.
Proof.
  intros (Hc & Hs & Hf). simpl in Hc, Hs, Hf.
  rewrite forallb_forall in Hc, Hs, Hf. apply Forall_forall. intros x Hx.
  apply list_elem_of_In in Hx. specialize (Hs x Hx). apply andb_true_iff in Hs as [Hk Hs].
  repeat split; auto.
Qed.

Lemma read_literal (fuel : nat) (text : string) (j : json) (rest : bytes) :
  (text, j) = ("null", JNull) \/ (text, j) = ("true", JBool true)
  \/ (text, j) = ("false", JBool false) ->
  read_value (S fuel) (lit text ++ rest) = Some (j, rest).
Proof. intros [H | [H | H]]; injection H as -> ->; reflexivity. Qed.

Theorem encode_reads_back (c : value) : reads_back FormatFloat c.
Proof.
  induction c as [| b | n | n | n | f | s | l IH | m IH | m IH] using value_nested_ind;
    intros Hw.
  - exists (lit "null"). split; [reflexivity |].
    split; [eexists _, _; repeat split; reflexivity |]. split; [simpl; lia |].
    intros [| fuel] rest Hfuel _; [simpl in Hfuel; lia |]. apply read_literal. auto.
  - exists (lit (if b then "true" else "false")). split; [reflexivity |].
    split; [destruct b; eexists _, _; repeat split; reflexivity |].
    split; [destruct b; simpl; lia |].
    intros [| fuel] rest Hfuel _; [simpl in Hfuel; lia |].
    destruct b; apply read_literal; auto.
  - exists (lit (Itoa n)). split; [reflexivity |].
    destruct (json_number_head _ (Itoa_json_number n)) as (h & t & Hh & _).
    split; [apply (read_number 0 _ [] (Itoa_json_number n) eq_refl) |].
    split; [rewrite Hh; simpl; lia |].
    intros [| fuel] rest Hfuel Hr; [simpl in Hfuel; lia |].
    simpl json_of. rewrite <- (lit_string (Itoa n)) at 2.
    apply read_number; [apply Itoa_json_number | exact Hr].
  - exists (lit (Itoa n)). split; [reflexivity |].
    destruct (json_number_head _ (Itoa_json_number n)) as (h & t & Hh & _).
    split; [apply (read_number 0 _ [] (Itoa_json_number n) eq_refl) |].
    split; [rewrite Hh; simpl; lia |].
    intros [| fuel] rest Hfuel Hr; [simpl in Hfuel; lia |].
    simpl json_of. rewrite <- (lit_string (Itoa n)) at 2.
    apply read_number; [apply Itoa_json_number | exact Hr].
  - exists (lit (Itoa n)). split; [reflexivity |].
    destruct (json_number_head _ (Itoa_json_number n)) as (h & t & Hh & _).
    split; [apply (read_number 0 _ [] (Itoa_json_number n) eq_refl) |].
    split; [rewrite Hh; simpl; lia |].
    intros [| fuel] rest Hfuel Hr; [simpl in Hfuel; lia |].
    simpl json_of. rewrite <- (lit_string (Itoa n)) at 2.
    apply read_number; [apply Itoa_json_number | exact Hr].
  - destruct Hw as (_ & _ & Hf). simpl in Hf. simpl encode. simpl json_of.
    destruct (FormatFloat f) as [text | e]; [| discriminate].
    exists (lit text). split; [reflexivity |].
    destruct (json_number_head _ Hf) as (h & t & Hh & _).
    split; [apply (read_number 0 _ [] Hf eq_refl) |].
    split; [rewrite Hh; simpl; lia |].
    intros [| fuel] rest Hfuel Hr; [simpl in Hfuel; lia |].
    rewrite <- (lit_string text) at 2.
    apply read_number; [exact Hf | exact Hr].
  - destruct Hw as (_ & Hs & _). simpl in Hs.
    exists (appendString s). split; [reflexivity |].
    split; [eexists _, _; repeat split; reflexivity |].
    split; [unfold appendString; simpl; lia |].
    intros [| fuel] rest Hfuel Hr; [simpl in Hfuel; lia |].
    destruct (read_appendString s rest Hs) as (body & -> & Hbody).
    rewrite read_value_step. cbn [skip_ws]. change (is_ws quote_char) with false. cbv iota.
    change (byte quote_char =? 0x22) with true. cbv iota.
    rewrite Hbody, lit_string. reflexivity.
  - (* slices *)
    pose proof (writable_slice l Hw) as Hwl.
    destruct l as [| x xs].
    + exists (lit "[]"). split; [reflexivity |].
      split; [eexists _, _; repeat split; reflexivity |]. split; [simpl; lia |].
      intros [| fuel] rest Hfuel _; [simpl in Hfuel; lia |]. reflexivity.
    + assert (HF : Forall (fun c => writable FormatFloat c /\ reads_back FormatFloat c) (x :: xs)).
      { apply Forall_and. split; assumption. }
      destruct (read_elements_ok xs x HF) as (bs & Hbs & Hss & Hls & Hrs).
      exists (lit "[" ++ bs ++ lit "]"). split; [| split; [| split]].
      * simpl encode. simpl in Hbs. rewrite Hbs. reflexivity.
      * eexists _, _; repeat split; reflexivity.
      * cbn [weight]. rewrite !length_app. simpl length. lia.
      * intros [| fuel] rest Hfuel _; [simpl in Hfuel; lia |].
        cbn [weight] in Hfuel. rewrite read_value_step.
        cbn [lit list_ascii_of_string app skip_ws].
        change (is_ws "["%char) with false. cbv iota.
        change (byte "["%char =? 0x22) with false. cbv iota.
        change (byte "["%char =? 0x5B) with true. cbv iota.
        rewrite <- app_assoc. change (["]"%char] ++ rest) with (lit "]" ++ rest).
        destruct (skip_ws_starts bs (lit "]" ++ rest) Hss) as (h & r & Heq & Hskip & Hh).
        rewrite Heq, Hskip, Hh, <- Heq. rewrite Hrs by lia. reflexivity.
  - (* map[interface{}]interface{}: not canonical *)
    destruct Hw as (Hc & _). discriminate Hc.
  - (* map[string]interface{} *)
    pose proof (writable_strmap m Hw) as Hwm.
    assert (HF : Forall (fun kv => ValidString (fst kv) = true /\ writable FormatFloat (snd kv)
                                   /\ reads_back FormatFloat (snd kv)) (sort_entries m)).
    { rewrite sort_entries_Permutation. apply Forall_forall. intros kv Hkv.
      rewrite Forall_forall in Hwm, IH. destruct (Hwm kv Hkv). auto. }
    assert (Hsum : fold_right (fun kv acc => weight (snd kv) + acc)%nat 0%nat (sort_entries m)
                   = fold_right (fun kv acc => weight (snd kv) + acc)%nat 0%nat m).
    { apply weight_sum_Permutation. apply sort_entries_Permutation. }
    simpl encode. simpl json_of.
    rewrite (sort_entries_map (encode FormatFloat)), (sort_entries_map (json_of FormatFloat)).
    destruct (sort_entries m) as [| e es].
    + exists (lit "{}"). split; [reflexivity |].
      split; [eexists _, _; repeat split; reflexivity |].
      split; [cbn [weight]; rewrite <- Hsum; simpl; lia |].
      intros [| fuel] rest Hfuel _; [simpl in Hfuel; lia |]. reflexivity.
    + destruct (read_members_ok es e HF) as (bs & Hbs & [t ->] & Hls & Hrs).
      exists (lit "{" ++ (quote_char :: t) ++ lit "}"). split; [| split; [| split]].
      * rewrite Hbs. reflexivity.
      * eexists _, _; repeat split; reflexivity.
      * cbn [weight]. rewrite <- Hsum. rewrite !length_app. simpl length in *. lia.
      * intros [| fuel] rest Hfuel _; [simpl in Hfuel; lia |].
        cbn [weight] in Hfuel. rewrite <- Hsum in Hfuel. rewrite read_value_step.
        cbn [lit list_ascii_of_string app skip_ws].
        change (is_ws "{"%char) with false. cbv iota.
        change (byte "{"%char =? 0x22) with false. cbv iota.
        change (byte "{"%char =? 0x5B) with false. cbv iota.
        change (byte "{"%char =? 0x7B) with true. cbv iota.
        rewrite <- app_assoc. change (["}"%char] ++ rest) with (lit "}" ++ rest).
        cbn [skip_ws]. change (is_ws quote_char) with false. cbv iota.
        change (byte quote_char =? 0x7D) with false. cbv iota.
        change (quote_char :: t ++ lit "}" ++ rest)
          with ((quote_char :: t) ++ lit "}" ++ rest).
        rewrite Hrs by lia. reflexivity.
Qed.

End Reading.

(** What [json.Marshal] writes for a writable tree is a document, and the
    reader returns it. *)
Lemma marshal_parse (FormatFloat : Z -> string + string) (c : value) :
  writable FormatFloat c ->
  exists b, Marshal FormatFloat c = (b, None)
            /\ parse_json b = Some (json_of FormatFloat c).
Proof.
  intros Hw. destruct (encode_reads_back FormatFloat c Hw) as (b & Hb & _ & Hl & Hr).
  exists b. unfold Marshal, parse_json. rewrite Hb. split; [reflexivity |].
  specialize (Hr (S (length b)) [] ltac:(lia) eq_refl).
  rewrite app_nil_r in Hr. rewrite Hr. reflexivity.
Qed.

(** ** From the tree of the decoder to the document that is read back *)

Lemma key_text_string (k : value) :
  key_accepted k = true -> key_text k = inl (key_string k).
Proof. destruct k; simpl; intros H; try discriminate; reflexivity. Qed.

Lemma normalizes_slice (l : list value) :
  Forall normalizes l ->
  existsb has_rejected_key l = false ->
  fold_right (fun x acc => coerced_keys_distinct x /\ acc) True l ->
  Forall2 (fun x y => transformData x = (y, None)) l (map norm l).
Proof.
  intros HF. induction HF as [| x l Hx HF IH]; simpl; intros Hr Hd; [constructor |].
  apply orb_false_iff in Hr as [Hrx Hrl]. destruct Hd as [Hdx Hdl].
  constructor; [apply Hx; assumption | apply IH; assumption].
Qed.

Lemma normalizes_map (m : list (value * value)) :
  Forall (fun kv => normalizes (snd kv)) m ->
  existsb (fun kv => negb (key_accepted (fst kv)) || has_rejected_key (snd kv)) m = false ->
  fold_right (fun kv acc => coerced_keys_distinct (snd kv) /\ acc) True m ->
  Forall2 (fun kv e => key_text (fst kv) = inl (fst e)
                       /\ transformData (snd kv) = (snd e, None))
          m (map (fun kv => (key_string (fst kv), norm (snd kv))) m).
Proof.
  intros HF. induction HF as [| [k v] m Hv HF IH]; simpl; intros Hr Hd; [constructor |].
  apply orb_false_iff in Hr as [Hrkv Hrm]. apply orb_false_iff in Hrkv as [Hk Hrv].
  apply negb_false_iff in Hk. destruct Hd as [Hdv Hdm].
  constructor; [| apply IH; assumption].
  simpl. split; [apply key_text_string; exact Hk | apply Hv; assumption].
Qed.

Lemma transformData_norm (t : value) : normalizes t.
Proof.
  induction t as [| b | n | n | n | f | s | l IH | m IH | m IH] using value_nested_ind;
    intros Hr Hd; try reflexivity.
  - rewrite transformData_slice.
    rewrite (transform_slice_fill _ _ (map norm l));
      [reflexivity | apply normalizes_slice; assumption | rewrite length_replicate; lia].
  - destruct Hd as [Hnd Hd].
    assert (IH' : Forall (fun kv => normalizes (snd kv)) m).
    { eapply Forall_impl; [exact IH |]. intros kv [_ H]. exact H. }
    rewrite transformData_map.
    rewrite (transform_map_fill _ _ _ _ (normalizes_map m IH' Hr Hd)).
    rewrite fold_assign_fresh; [reflexivity |].
    simpl. rewrite map_map. simpl. exact Hnd.
Qed.

Lemma number_char_ascii (c : ascii) : is_number_char c = true -> (byte c <? 0x80) = true.
Proof.
  destruct c as [b0 b1 b2 b3 b4 b5 b6 b7].
  destruct b0, b1, b2, b3, b4, b5, b6, b7; vm_compute; intros H;
    first [discriminate H | reflexivity].
Qed.

Lemma valid_loop_ascii (fuel : nat) (src : bytes) :
  forallb (fun c => byte c <? 0x80) src = true ->
  (length src <= fuel)%nat ->
  valid_loop fuel src = true.
Proof.
  revert src. induction fuel as [| fuel IH]; intros src Ha Hl.
  - destruct src; [reflexivity | simpl in Hl; lia].
  - destruct src as [| c tl]; [reflexivity |].
    simpl in Ha, Hl. apply andb_true_iff in Ha as [Hc Ha]. apply Z.ltb_lt in Hc.
    rewrite valid_loop_step, DecodeRune_ascii by exact Hc.
    assert (Hne : (byte c =? RuneError) = false).
    { apply Z.eqb_neq. unfold RuneError. lia. }
    rewrite Hne. simpl. rewrite drop_0. apply IH; [exact Ha | lia].
Qed.

Lemma Itoa_valid (n : Z) : ValidString (Itoa n) = true.
Proof.
  unfold ValidString. apply valid_loop_ascii; [| rewrite lit_length; lia].
  pose proof (json_number_chars _ (Itoa_json_number n)) as H.
  rewrite forallb_forall in *. intros c Hc. apply number_char_ascii. apply H. exact Hc.
Qed.

Section Isomorphic.

Variable FormatFloat : Z -> string + string.

Lemma norm_writable (t : value) :
  yaml_tree t = true -> has_rejected_key t = false ->
  strings_valid t = true -> floats_written FormatFloat t = true ->
  writable FormatFloat (norm t).
Proof.
  unfold writable.
  induction t as [| b | n | n | n | f | s | l IH | m IH | m IH] using value_nested_ind;
    intros Hy Hr Hs Hf; try (repeat split; assumption).
  - simpl in *. rewrite !forallb_forall in *. rewrite Forall_forall in IH.
    assert (Hno : forall x, In x l -> has_rejected_key x = false).
    { intros x Hx. destruct (has_rejected_key x) eqn:E; [| reflexivity].
      assert (existsb has_rejected_key l = true) by (apply existsb_exists; eauto).
      congruence. }
    repeat split; intros y Hy'; apply in_map_iff in Hy' as (x & <- & Hx);
      apply (IH x); auto; apply list_elem_of_In; exact Hx.
  - simpl in *. rewrite !forallb_forall in *. rewrite Forall_forall in IH.
    assert (Hno : forall kv, In kv m ->
                key_accepted (fst kv) = true /\ has_rejected_key (snd kv) = false).
    { intros kv Hkv.
      destruct (negb (key_accepted (fst kv)) || has_rejected_key (snd kv)) eqn:E.
      - assert (existsb (fun kv => negb (key_accepted (fst kv)) || has_rejected_key (snd kv)) m
                = true) by (apply existsb_exists; eauto).
        congruence.
      - apply orb_false_iff in E as [E1 E2]. apply negb_false_iff in E1. auto. }
    repeat split; intros e He; apply in_map_iff in He as (kv & <- & Hkv); simpl;
      destruct (Hno kv Hkv) as [Hk Hrv];
      specialize (Hy kv Hkv); apply andb_true_iff in Hy as [_ Hyv];
      specialize (Hs kv Hkv); apply andb_true_iff in Hs as [Hsk Hsv];
      specialize (Hf kv Hkv);
      destruct (IH kv (proj2 (list_elem_of_In _ _) Hkv)) as [_ IHv];
      destruct (IHv Hyv Hrv Hsv Hf) as (H1 & H2 & H3); try assumption.
    rewrite H2, andb_true_r.
    destruct (fst kv); simpl in Hk; try discriminate; simpl.
    + apply Itoa_valid.
    + exact Hsk.
  - discriminate Hy.
Qed.

Hypothesis floats_read_back :
  forall f text, FormatFloat f = inl text -> reads_as text f.

Lemma norm_matches (t : value) :
  yaml_tree t = true -> has_rejected_key t = false ->
  floats_written FormatFloat t = true ->
  matches t (json_of FormatFloat (norm t)).
Proof.
  induction t as [| b | n | n | n | f | s | l IH | m IH | m IH] using value_nested_ind;
    intros Hy Hr Hf; try (simpl; constructor).
  - simpl in *. destruct (FormatFloat f) as [text |] eqn:E; [| discriminate].
    constructor. exact (floats_read_back f text E).
  - simpl in *. clear -IH Hy Hr Hf.
    induction IH as [| x l Hx _ IHl]; simpl in *; [constructor |].
    apply andb_true_iff in Hy as [Hyx Hyl]. apply orb_false_iff in Hr as [Hrx Hrl].
    apply andb_true_iff in Hf as [Hfx Hfl].
    constructor; [apply Hx; assumption | apply IHl; assumption].
  - simpl norm. simpl json_of. rewrite map_map. simpl.
    apply (matches_map m _
             (map (fun kv => (key_string (fst kv), json_of FormatFloat (norm (snd kv)))) m)).
    + apply sort_entries_Permutation.
    + simpl in *. clear -IH Hy Hr Hf.
      induction IH as [| [k v] m [_ Hv] _ IHm]; simpl in *; [constructor |].
      apply andb_true_iff in Hy as [Hykv Hym]. apply andb_true_iff in Hykv as [_ Hyv].
      apply orb_false_iff in Hr as [Hrkv Hrm]. apply orb_false_iff in Hrkv as [Hk Hrv].
      apply negb_false_iff in Hk. apply andb_true_iff in Hf as [Hfv Hfm].
      constructor; [| apply IHm; assumption].
      simpl. split; [apply key_text_string; exact Hk | apply Hv; assumption].
  - discriminate Hy.
Qed.

End Isomorphic.

(** ** Sequences keep their order *)

Lemma map_assign_elem {A : Type} (e : string * A) (sk : string) (v : A)
    (o : list (string * A)) :
  e ∈ map_assign sk v o -> e = (sk, v) \/ e ∈ o.
Proof.
  induction o as [| [k' v'] o IH]; simpl.
  - intros H. apply list_elem_of_singleton in H. auto.
  - destruct (String.eqb_spec sk k') as [-> | Hne]; intros H;
      apply elem_of_cons in H as [H | H].
    + auto.
    + right. right. exact H.
    + right. rewrite H. left.
    + destruct (IH H) as [H' | H']; [auto | right; right; exact H'].
Qed.

Lemma fold_assign_elem {A : Type} (e : string * A) (es o : list (string * A)) :
  e ∈ fold_left (fun o e => map_assign (fst e) (snd e) o) es o -> e ∈ o \/ e ∈ es.
Proof.
  revert o. induction es as [| [sk v] es IH]; intros o; simpl; [auto |].
  intros H. destruct (IH _ H) as [H' | H']; [| right; right; exact H'].
  apply map_assign_elem in H' as [-> | H']; [right; left | left; exact H'].
Qed.

(** What [transformData] returns without an error for a tree of the decoder
    is a normalisation of the tree. *)
Lemma transformData_normalized (t : value) :
  yaml_tree t = true -> forall out, transformData t = (out, None) -> normalized t out.
Proof.
  induction t as [| b | n | n | n | f | s | l IH | m IH | m IH] using value_nested_ind;
    intros Hy out Ht; try (injection Ht as <-; apply normalized_scalar; reflexivity).
  - rewrite transformData_slice in Ht.
    destruct (transform_slice_success _ _ _ _ _ Ht) as [ys Hys].
    rewrite (transform_slice_fill _ _ ys) in Ht by (try exact Hys; rewrite length_replicate; lia).
    injection Ht as <-. simpl take. simpl app. apply normalized_slice.
    simpl in Hy. clear - IH Hy Hys.
    induction Hys as [| x y l ys Hxy Hys IHys]; [constructor |].
    apply Forall_cons in IH as [Hx IH]. simpl in Hy. apply andb_true_iff in Hy as [Hyx Hyl].
    constructor; [exact (Hx Hyx y Hxy) | exact (IHys IH Hyl)].
  - rewrite transformData_map in Ht. apply transform_map_success in Ht as (es & HF & ->).
    apply normalized_map.
    + apply fold_assign_NoDup. constructor.
    + intros k v Hin. apply list_elem_of_lookup in Hin as [i Hi].
      destruct (Forall2_lookup_l _ _ _ _ _ HF Hi) as ([sk y] & He & Hk & _).
      exists sk. split; [exact Hk |]. apply fold_assign_keys. right.
      apply list_elem_of_fmap. exists (sk, y). split; [reflexivity |].
      apply list_elem_of_lookup. eauto.
    + apply Forall_forall. intros e He.
      apply fold_assign_elem in He as [He | He]; [inversion He |].
      apply list_elem_of_lookup in He as [i Hi].
      destruct (Forall2_lookup_r _ _ _ _ _ HF Hi) as ([k v] & Hm & Hk & Hv).
      exists k, v. split; [apply list_elem_of_lookup; eauto |]. split; [exact Hk |].
      simpl in Hv. rewrite Forall_forall in IH.
      assert (Hin : (k, v) ∈ m) by (apply list_elem_of_lookup; eauto).
      destruct (IH _ Hin) as [_ IHv]. apply IHv; [| exact Hv].
      simpl in Hy. rewrite forallb_forall in Hy.
      specialize (Hy (k, v) (proj1 (list_elem_of_In _ _) Hin)).
      apply andb_true_iff in Hy as [_ Hy]. exact Hy.
  - discriminate Hy.
Qed.

(** A normalisation is a canonical tree. *)
Lemma normalized_canonical (t : value) :
  forall out, normalized t out -> canonical out = true.
Proof.
  induction t as [| b | n | n | n | f | s | l IH | m IH | m IH] using value_nested_ind;
    intros out H;
    inversion H as [v Hs | l0 l' HF | m0 o Hnd Hcov HF]; subst;
    try reflexivity; try discriminate.
  - apply canonical_slice. clear H.
    induction HF as [| x y l l' Hxy HF IHF]; [constructor |].
    apply Forall_cons in IH as [Hx IH]. constructor; [exact (Hx y Hxy) | exact (IHF IH)].
  - apply canonical_strmap. rewrite Forall_forall in HF. rewrite Forall_forall in IH.
    apply Forall_forall. intros e He. destruct (HF e He) as (k & v & Hin & _ & Hn).
    destruct (IH _ Hin) as [_ IHv]. exact (IHv _ Hn).
Qed.

(** A tree that kept an integer key is no normalisation, and neither is a
    sequence whose elements changed places. *)
Example normalized_rejects :
  ~ normalized (VSlice [VMap [(VInt 1, VNil)]]) (VSlice [VMap [(VInt 1, VNil)]])
  /\ ~ normalized (VSlice [VInt 1; VInt 2]) (VSlice [VInt 2; VInt 1]).
Proof.
  split; intros H; inversion H as [v Hs | l l' HF |]; subst; try discriminate Hs;
    inversion HF as [| x y l0 l0' Hxy HF']; subst;
    inversion Hxy as [v Hs | |]; subst; discriminate.
Qed.

(** C5: for every sequence, a run of [transformData] without error returns
    a sequence of the same length whose element at each position is the
    transformed element of that position of the input, and, for an element
    that is a tree of the decoder, a normalisation of it: a canonical tree
    whose sequences, at every depth, have the length and the order of the
    input's; the run is without error whenever the transformation of every
    element is; and when no key of the sequence is rejected and no two keys of
    one mapping collide, the run returns the sequence of the normal forms of
    the elements, in their order. *)
Theorem slice_order_preserved (l : list value) :
  (forall out, transformData (VSlice l) = (out, None) ->
     exists l', out = VSlice l' /\ length l' = length l
       /\ forall i x, l !! i = Some x ->
            exists y, l' !! i = Some y /\ transformData x = (y, None)
                      /\ (yaml_tree x = true -> normalized x y /\ canonical y = true))
  /\ ((forall x, x ∈ l -> snd (transformData x) = None) ->
      snd (transformData (VSlice l)) = None)
  /\ (has_rejected_key (VSlice l) = false -> coerced_keys_distinct (VSlice l) ->
      transformData (VSlice l) = (VSlice (map norm l), None)).
Proof.
  assert (Hfill : forall ys, Forall2 (fun x y => transformData x = (y, None)) l ys ->
                             transformData (VSlice l) = (VSlice ys, None)).
  { intros ys Hys. rewrite transformData_slice.
    rewrite (transform_slice_fill _ _ ys) by (try exact Hys; rewrite length_replicate; lia).
    reflexivity. }
  split; [| split].
  - intros out Hout. pose proof Hout as Hout'. rewrite transformData_slice in Hout'.
    apply transform_slice_success in Hout' as [ys Hys].
    rewrite (Hfill ys Hys) in Hout. injection Hout as <-.
    exists ys. split; [reflexivity |]. split.
    + symmetry. eapply Forall2_length. exact Hys.
    + intros i x Hi. eapply Forall2_lookup_l in Hys as (y & Hy & Hxy); eauto.
      exists y. split; [exact Hy |]. split; [exact Hxy |].
      intros Hyt. pose proof (transformData_normalized x Hyt y Hxy) as Hn.
      split; [exact Hn | exact (normalized_canonical x y Hn)].
  - intros Hall. destruct (transform_all_total transformData l Hall) as [ys Hys].
    rewrite (Hfill ys Hys). reflexivity.
  - intros Hr Hd. exact (transformData_norm (VSlice l) Hr Hd).
Qed.

(** ** The round trip *)

(** C3, against the claim as stated: the keys [1] and ["1"] of this tree are
    an integer and a string, and the document that is read back has one member
    where the tree has two entries. *)
Lemma colliding_keys_lose_an_entry :
  let ff := fun _ : Z => inr "json: unsupported value" in
  let t := VMap [(VInt 1, VString "a"); (VString "1", VString "b")] in
  yaml_tree t = true
  /\ forallb string_or_integer (tree_keys t) = true
  /\ YAMLToJSON ff t = (json_text "{'1':'b'}", None)
  /\ parse_json (json_text "{'1':'b'}") = Some (JObject [("1", JString "b")])
  /\ ~ matches t (JObject [("1", JString "b")]).
Proof.
  repeat split; try (vm_compute; reflexivity).
  intros H. inversion H as [| | | | | | | | m m' p Hp HF]; subst.
  apply Permutation_length in Hp. apply Forall2_length in HF. simpl in Hp, HF. lia.
Qed.

Lemma Qabs_zero (x : Q) : (Qabs x == 0)%Q -> (x == 0)%Q.
Proof.
  intros H. assert (Hle : (Qabs x <= 0)%Q) by (rewrite H; apply Qle_refl).
  apply Qabs_Qle_condition in Hle as [H1 H2]. apply Qle_antisym; assumption.
Qed.

(** A text that denotes the very number of a float is read as that float. *)
Lemma reads_as_exact (text : string) (bits : Z) :
  match number_value text, float_value bits with
  | Some q, Some v => Qeq_bool q v = true
  | _, _ => False
  end ->
  (Z.testbit bits 63 = true <-> exists r, text = String "-" r) ->
  reads_as text bits.
Proof.
  destruct (number_value text) as [q |] eqn:Hq; [| contradiction].
  destruct (float_value bits) as [v |] eqn:Hv; [| contradiction].
  intros E Hs. apply Qeq_bool_iff in E. unfold reads_as. rewrite Hq, Hv. exists q, v.
  assert (H0 : (Qabs (q - v) == 0)%Q).
  { rewrite E. unfold Qminus. rewrite Qplus_opp_r. reflexivity. }
  split; [reflexivity |]. split; [reflexivity |]. split; [exact Hs |].
  intros g w _. split.
  - rewrite H0. apply Qabs_nonneg.
  - intros Ht. left. rewrite H0 in Ht. symmetry in Ht. apply Qabs_zero in Ht.
    rewrite <- E. apply Qplus_inj_r with (z := (- w)%Q).
    rewrite Qplus_opp_r. exact Ht.
Qed.

Example reads_as_examples :
  reads_as "1.5" 0x3FF8000000000000
  /\ reads_as "-100" 0xC059000000000000
  /\ reads_as "2.5e-1" 0x3FD0000000000000
  /\ reads_as "0" 0.
Proof.
  repeat split; apply reads_as_exact; try (vm_compute; reflexivity);
    (split; [try discriminate; intros _; eexists; reflexivity
            | try (intros [r H]; discriminate H); intros _; reflexivity]).
Qed.

(** A text that denotes another number is not read as the float: [0] is not
    read as 1.5, nor [1.5] as the float next to 1.5. *)
Example reads_as_rejects :
  ~ reads_as "0" 0x3FF8000000000000 /\ ~ reads_as "1.5" 0x3FF8000000000001.
Proof.
  split; intros (q & v & Hq & Hv & _ & Hn);
    vm_compute in Hq; vm_compute in Hv; injection Hq as <-; injection Hv as <-.
  - destruct (Hn 0 _ eq_refl) as [Hle _]. vm_compute in Hle. apply Hle. reflexivity.
  - destruct (Hn 0x3FF8000000000000 _ eq_refl) as [Hle _].
    vm_compute in Hle. apply Hle. reflexivity.
Qed.

(** C3, as amended: for every tree of the decoder whose keys are strings or
    Go [int]s, no two keys of one mapping having the same text after coercion,
    whose strings are well-formed UTF-8 and whose floats the encoder writes
    (they are finite): [transformData] and [json.Marshal] return no error, and
    reading the bytes back as JSON gives a document isomorphic to the tree,
    with the same shape, the same scalars and each key as its text, an integer
    key in decimal.  An integer is read back as its decimal numeral and a
    float as a number that is read as that very float, the float encoder, which
    is Go's [strconv], writing for a float a text that reads back as it. *)
Theorem yaml_json_round_trip (FormatFloat : Z -> string + string) (t : value) :
  (forall f text, FormatFloat f = inl text -> reads_as text f) ->
  yaml_tree t = true ->
  has_rejected_key t = false ->
  coerced_keys_distinct t ->
  strings_valid t = true ->
  floats_written FormatFloat t = true ->
  exists c out j,
    transformData t = (c, None)
    /\ Marshal FormatFloat c = (out, None)
    /\ YAMLToJSON FormatFloat t = (out, None)
    /\ parse_json out = Some j
    /\ matches t j.
Proof.
  intros Hback Hy Hr Hd Hs Hf.
  pose proof (transformData_norm t Hr Hd) as Hn.
  destruct (marshal_parse FormatFloat (norm t) (norm_writable FormatFloat t Hy Hr Hs Hf))
    as (out & Hm & Hp).
  exists (norm t), out, (json_of FormatFloat (norm t)).
  split; [exact Hn |]. split; [exact Hm |]. split; [| split; [exact Hp |]].
  - unfold YAMLToJSON. rewrite Hn. exact Hm.
  - apply norm_matches; assumption.
Qed.

Lemma yaml_json_round_trip_witness :
  let ff := fun bits : Z =>
              if bits =? 0x3FF8000000000000 then inl "1.5"
              else if bits =? 0xC059000000000000 then inl "-100"
              else inr "json: unsupported value" in
  let t := VMap [(VInt 10, VSlice [VFloat64 0x3FF8000000000000; VNil; VString "a<b"]);
                 (VString "k", VMap [(VInt (-1), VFloat64 0xC059000000000000)])] in
  exists c out j,
    transformData t = (c, None)
    /\ Marshal ff c = (out, None)
    /\ YAMLToJSON ff t = (out, None)
    /\ parse_json out = Some j
    /\ matches t j.
Proof.
  apply (yaml_json_round_trip
           (fun bits : Z =>
              if bits =? 0x3FF8000000000000 then inl "1.5"
              else if bits =? 0xC059000000000000 then inl "-100"
              else inr "json: unsupported value")
           (VMap [(VInt 10, VSlice [VFloat64 0x3FF8000000000000; VNil; VString "a<b"]);
                  (VString "k", VMap [(VInt (-1), VFloat64 0xC059000000000000)])])).
  - intros f text.
    destruct (Z.eqb_spec f 0x3FF8000000000000) as [-> | _].
    { intros [= <-]. exact (proj1 reads_as_examples). }
    destruct (Z.eqb_spec f 0xC059000000000000) as [-> | _]; [| discriminate].
    intros [= <-]. exact (proj1 (proj2 reads_as_examples)).
  - reflexivity.
  - reflexivity.
  - simpl. repeat split; apply NoDup_ListNoDup; vm_compute; repeat constructor;
      simpl; intuition discriminate.
  - vm_compute. reflexivity.
  - reflexivity.
Defined.

(** Two more trees the claim as stated covers and the round trip loses: a
    float that is not a number, and a string that is not UTF-8. *)
Example nan_is_not_written :
  let ff := fun bits : Z =>
              if bits =? 0x7FF8000000000001 then inr "json: unsupported value: NaN"
              else inl "0" in
  YAMLToJSON ff (VMap [(VString "x", VFloat64 0x7FF8000000000001)])
  = ([], Some "json: unsupported value: NaN").
Proof. reflexivity. Qed.

Example broken_string_is_replaced :
  let ff := fun _ : Z => inr "json: unsupported value" in
  let s := String (chr 0xFF) EmptyString in
  YAMLToJSON ff (VSlice [VString s]) = (json_text "['\ufffd']", None)
  /\ parse_json (json_text "['\ufffd']")
     = Some (JArray [JString (string_of_list_ascii [chr 0xEF; chr 0xBF; chr 0xBD])]).
Proof. split; vm_compute; reflexivity. Qed.

(** ** Collisions, and the order Go visits a map in *)

Lemma map_index_assign {A : Type} (sk k : string) (v : A) (o : list (string * A)) :
  map_index sk (map_assign k v o) = if String.eqb sk k then Some v else map_index sk o.
Proof.
  induction o as [| [k' v'] o IH]; simpl.
  - reflexivity.
  - destruct (String.eqb_spec k k') as [-> | Hne]; simpl.
    + destruct (String.eqb sk k'); reflexivity.
    + rewrite IH. destruct (String.eqb_spec sk k') as [-> | Hne'].
      * destruct (String.eqb_spec k' k); [congruence | reflexivity].
      * reflexivity.
Qed.

Lemma map_index_fold {A : Type} (sk : string) (es o : list (string * A)) :
  map_index sk (fold_left (fun o e => map_assign (fst e) (snd e) o) es o)
  = match map_index sk (rev es) with
    | Some v => Some v
    | None => map_index sk o
    end.
Proof.
  revert o. induction es as [| [k v] es IH]; intros o; simpl; [reflexivity |].
  rewrite IH, map_index_assign.
  assert (Happ : forall l, map_index sk (l ++ [(k, v)])
                      = match map_index sk l with
                        | Some x => Some x
                        | None => if String.eqb sk k then Some v else None
                        end).
  { induction l as [| [k' v'] l IHl]; simpl; [reflexivity |].
    destruct (String.eqb sk k'); [reflexivity | exact IHl]. }
  rewrite Happ. destruct (map_index sk (rev es)); [reflexivity |].
  destruct (String.eqb sk k); reflexivity.
Qed.

(** X1. Last write wins: in the map [transformData] returns, a key holds the
    transformed value of the last entry, in the order the [range] loop visited
    them, whose key has that text. *)
Theorem last_write_wins (m : list (value * value)) :
  match transformData (VMap m) with
  | (VStrMap o, None) =>
      exists es,
        Forall2 (fun kv e => key_text (fst kv) = inl (fst e)
                             /\ transformData (snd kv) = (snd e, None)) m es
        /\ forall sk, map_index sk o = map_index sk (rev es)
  | (_, None) => False
  | (_, Some _) => True
  end.
Proof.
  destruct (transformData (VMap m)) as [out [e |]] eqn:Ht; [destruct out; exact I |].
  rewrite transformData_map in Ht. apply transform_map_success in Ht as (es & HF & ->).
  exists es. split; [exact HF |]. intros sk. rewrite map_index_fold.
  destruct (map_index sk (rev es)); reflexivity.
Qed.

(** Which entry is the last depends on the order of the visit: the two
    orders of the map with the keys [1] and ["1"] give two documents. *)
Example collision_depends_on_order :
  let ff := fun _ : Z => inr "json: unsupported value" in
  YAMLToJSON ff (VMap [(VInt 1, VString "a"); (VString "1", VString "b")])
  = (json_text "{'1':'b'}", None)
  /\ YAMLToJSON ff (VMap [(VString "1", VString "b"); (VInt 1, VString "a")])
     = (json_text "{'1':'a'}", None).
Proof. split; vm_compute; reflexivity. Qed.

(** X2. An error never comes with a tree: whenever [transformData] returns an
    error, the value it returns is nil. *)
Theorem error_without_tree (t : value) :
  snd (transformData t) = None \/ fst (transformData t) = VNil.
Proof.
  destruct (transformData t) as [out [e |]] eqn:Ht; [right | left; reflexivity].
  simpl. exact (transformData_error_nil t out e Ht).
Qed.

(** X3. [strconv.Itoa] writes the canonical decimal form of every integer. *)
Theorem Itoa_writes_canonical_decimal (n : Z) : canonical_decimal (Itoa n) n.
Proof. exact (Itoa_canonical n). Qed.

Lemma existsb_false_Forall {A : Type} (f : A -> bool) (l : list A) :
  existsb f l = false <-> Forall (fun x => f x = false) l.
Proof.
  induction l as [| x l IH]; simpl.
  - split; [constructor | reflexivity].
  - rewrite orb_false_iff, IH, Forall_cons. reflexivity.
Qed.

Lemma fold_right_conj_Forall {A : Type} (P : A -> Prop) (l : list A) :
  fold_right (fun x acc => P x /\ acc) True l <-> Forall P l.
Proof.
  induction l as [| x l IH]; simpl.
  - split; [constructor | trivial].
  - rewrite IH, Forall_cons. reflexivity.
Qed.

Lemma order_free_all (t : value) : order_free t.
Proof.
  induction t as [| b | n | n | n | f | s | l IH | m IH | m IH] using value_nested_ind;
    intros t' Hsame Hr Hd; inversion Hsame; subst;
    try (repeat split; try assumption; apply same_value_scalar; reflexivity);
    try discriminate.
  - (* slices *)
    match goal with H : Forall2 same_input _ _ |- _ => rename H into HF end.
    simpl in Hr, Hd. apply existsb_false_Forall in Hr.
    apply (fold_right_conj_Forall coerced_keys_distinct) in Hd.
    assert (Hall : Forall (fun x => has_rejected_key x = false) l'
                   /\ Forall coerced_keys_distinct l'
                   /\ Forall2 same_value (map norm l) (map norm l')).
    { clear Hsame. induction HF as [| x y l l' Hxy HF IHF]; simpl.
      - repeat split; constructor.
      - apply Forall_cons in IH as [Hx IH]. apply Forall_cons in Hr as [Hrx Hr].
        apply Forall_cons in Hd as [Hdx Hd].
        destruct (Hx y Hxy Hrx Hdx) as (H1 & H2 & H3).
        destruct (IHF IH Hr Hd) as (H4 & H5 & H6).
        repeat split; constructor; assumption. }
    destruct Hall as (H1 & H2 & H3). simpl. split; [| split].
    + apply existsb_false_Forall. exact H1.
    + apply (fold_right_conj_Forall coerced_keys_distinct). exact H2.
    + apply same_value_slice. exact H3.
  - (* maps *)
    match goal with H : Forall2 _ p _ |- _ => rename H into HF end.
    match goal with H : Permutation m p |- _ => rename H into Hp end.
    simpl in Hr. destruct Hd as [Hnd Hd].
    apply existsb_false_Forall in Hr.
    apply (fold_right_conj_Forall (fun kv => coerced_keys_distinct (snd kv))) in Hd.
    pose (g := fun kv : value * value => (key_string (fst kv), norm (snd kv))).
    assert (Hall : Forall (fun kv => negb (key_accepted (fst kv))
                                     || has_rejected_key (snd kv) = false) m'
                   /\ Forall (fun kv => coerced_keys_distinct (snd kv)) m'
                   /\ map (fun kv => key_string (fst kv)) p
                      = map (fun kv => key_string (fst kv)) m'
                   /\ Forall2 (fun e e' => fst e = fst e' /\ same_value (snd e) (snd e'))
                              (map g p) (map g m')).
    { rewrite Hp in IH, Hr, Hd. clear Hsame Hp Hnd.
      induction HF as [| [k v] [k' v'] p m' [Hk Hv] HF IHF]; simpl.
      - repeat split; constructor.
      - simpl in Hk, Hv. subst k'.
        apply Forall_cons in IH as [[_ Hx] IH]. apply Forall_cons in Hr as [Hrx Hr].
        apply Forall_cons in Hd as [Hdx Hd]. simpl in Hx, Hrx, Hdx.
        apply orb_false_iff in Hrx as [Hrk Hrv].
        destruct (Hx v' Hv Hrv Hdx) as (H1 & H2 & H3).
        destruct (IHF IH Hr Hd) as (H4 & H5 & H6 & H7).
        repeat split.
        + constructor; [simpl; rewrite Hrk, H1; reflexivity | exact H4].
        + constructor; assumption.
        + f_equal. exact H6.
        + constructor; [split; [reflexivity | exact H3] | exact H7]. }
    destruct Hall as (H1 & H2 & H3 & H4). split; [| split].
    + simpl. apply existsb_false_Forall. exact H1.
    + simpl. split.
      * rewrite <- H3, <- Hp. exact Hnd.
      * apply (fold_right_conj_Forall (fun kv => coerced_keys_distinct (snd kv))). exact H2.
    + simpl. apply (same_value_strmap _ _ (map g p)).
      * rewrite map_map. simpl. exact Hnd.
      * apply Permutation_map. exact Hp.
      * exact H4.
Qed.

(** C9, against the claim as stated: the trees two runs of [transformData]
    build from the same input are not written as the same bytes when two keys
    collide; which entry is the last depends on the order in which a run
    visits the map. *)
Lemma colliding_keys_two_outputs :
  ~ (forall (FormatFloat : Z -> string + string) (t t' c c' : value),
        same_input t t' ->
        transformData t = (c, None) -> transformData t' = (c', None) ->
        Marshal FormatFloat c = Marshal FormatFloat c').
Proof.
  intros H.
  specialize (H (fun _ : Z => inr "json: unsupported value")
                (VMap [(VInt 1, VString "a"); (VString "1", VString "b")])
                (VMap [(VString "1", VString "b"); (VInt 1, VString "a")])
                (VStrMap [("1", VString "b")]) (VStrMap [("1", VString "a")])).
  assert (Hs : same_input (VMap [(VInt 1, VString "a"); (VString "1", VString "b")])
                          (VMap [(VString "1", VString "b"); (VInt 1, VString "a")])).
  { apply (same_input_map _ _ [(VString "1", VString "b"); (VInt 1, VString "a")]).
    - apply Permutation_swap.
    - repeat constructor. }
  specialize (H Hs eq_refl eq_refl). vm_compute in H. discriminate H.
Qed.

(** C9, as amended: serialisation is deterministic: two runs of
    [json.Marshal] on one canonical tree, whichever order each run meets the
    entries of its maps in, return the same bytes and the same error; every
    tree [transformData] builds is such a tree, its maps holding each key
    once; and the trees two runs of [transformData] build from the same input,
    each run visiting the maps in an order of its own, are the same tree and
    are written as the same bytes when the input has no rejected key and no
    two keys of one mapping with the same text.  With such keys the two trees
    may differ, as above. *)
Theorem marshal_deterministic (FormatFloat : Z -> string + string) :
  (forall c c1 c2, same_value c c1 -> same_value c c2 ->
                   Marshal FormatFloat c1 = Marshal FormatFloat c2)
  /\ (forall t c, yaml_tree t = true -> transformData t = (c, None) -> same_value c c)
  /\ (forall t t' c c',
        same_input t t' ->
        has_rejected_key t = false -> coerced_keys_distinct t ->
        transformData t = (c, None) -> transformData t' = (c', None) ->
        same_value c c' /\ Marshal FormatFloat c = Marshal FormatFloat c').
Proof.
  split; [| split].
  - intros c c1 c2 H1 H2. unfold Marshal.
    rewrite <- (marshal_same_value FormatFloat c c1 H1).
    rewrite <- (marshal_same_value FormatFloat c c2 H2). reflexivity.
  - intros t c Hy Hc. exact (transformData_proper t Hy c Hc).
  - intros t t' c c' Hsame Hr Hd Hc Hc'.
    destruct (order_free_all t t' Hsame Hr Hd) as (Hr' & Hd' & Hv).
    rewrite (transformData_norm t Hr Hd) in Hc. injection Hc as <-.
    rewrite (transformData_norm t' Hr' Hd') in Hc'. injection Hc' as <-.
    split; [exact Hv |]. unfold Marshal.
    rewrite (marshal_same_value FormatFloat _ _ Hv). reflexivity.
Qed.

(** X4. Without colliding keys the whole conversion does not depend on the
    order in which Go visits the maps of its input. *)
Theorem conversion_order_free (FormatFloat : Z -> string + string) (t t' : value) :
  same_input t t' ->
  has_rejected_key t = false -> coerced_keys_distinct t ->
  YAMLToJSON FormatFloat t = YAMLToJSON FormatFloat t'.
Proof.
  intros Hsame Hr Hd.
  destruct (order_free_all t t' Hsame Hr Hd) as (Hr' & Hd' & Hv).
  unfold YAMLToJSON. rewrite (transformData_norm t Hr Hd), (transformData_norm t' Hr' Hd').
  unfold Marshal. rewrite (marshal_same_value FormatFloat _ _ Hv). reflexivity.
Qed.

Lemma conversion_order_free_witness :
  let ff := fun _ : Z => inr "json: unsupported value" in
  YAMLToJSON ff (VMap [(VString "b", VInt 1); (VInt 2, VNil)])
  = YAMLToJSON ff (VMap [(VInt 2, VNil); (VString "b", VInt 1)]).
Proof.
  apply (conversion_order_free (fun _ : Z => inr "json: unsupported value")
           (VMap [(VString "b", VInt 1); (VInt 2, VNil)])
           (VMap [(VInt 2, VNil); (VString "b", VInt 1)])).
  - apply (same_input_map _ _ [(VInt 2, VNil); (VString "b", VInt 1)]).
    + apply Permutation_swap.
    + repeat constructor.
  - reflexivity.
  - simpl. repeat split. apply NoDup_ListNoDup. vm_compute. repeat constructor;
      simpl; intuition discriminate.
Defined.

(** X6. What [json.Marshal] writes for a tree [transformData] built from
    a tree of the decoder, whatever keys collided while it was built, is read
    back as the document of the built tree, when its strings are well-formed
    and its floats finite. *)
Theorem marshal_reads_back (FormatFloat : Z -> string + string) (t c : value) :
  yaml_tree t = true ->
  transformData t = (c, None) ->
  strings_valid c = true ->
  floats_written FormatFloat c = true ->
  exists b, Marshal FormatFloat c = (b, None)
            /\ YAMLToJSON FormatFloat t = (b, None)
            /\ parse_json b = Some (json_of FormatFloat c).
Proof.
  intros Hy Hc Hs Hf.
  assert (Hcan : canonical c = true).
  { destruct (transformData_outcome t Hy) as [(_ & k & _ & _ & Ht) | (_ & out & Ht & Hcan)];
      rewrite Ht in Hc; [discriminate Hc |]. injection Hc as <-. exact Hcan. }
  destruct (marshal_parse FormatFloat c (conj Hcan (conj Hs Hf))) as (b & Hm & Hp).
  exists b. split; [exact Hm |]. split; [| exact Hp].
  unfold YAMLToJSON. rewrite Hc. exact Hm.
Qed.

Lemma marshal_reads_back_witness :
  let ff := fun _ : Z => inr "json: unsupported value" in
  let t := VMap [(VInt 1, VString "a"); (VString "1", VSlice []);
                 (VString "b", VSlice [VInt 1; VMap []])] in
  let c := VStrMap [("1", VSlice []); ("b", VSlice [VInt 1; VStrMap []])] in
  exists b, Marshal ff c = (b, None)
            /\ YAMLToJSON ff t = (b, None)
            /\ parse_json b = Some (json_of ff c).
Proof.
  apply (marshal_reads_back (fun _ : Z => inr "json: unsupported value")
           (VMap [(VInt 1, VString "a"); (VString "1", VSlice []);
                  (VString "b", VSlice [VInt 1; VMap []])])
           (VStrMap [("1", VSlice []); ("b", VSlice [VInt 1; VStrMap []])]));
    vm_compute; reflexivity.
Defined.

(** ** More on the two loops *)

Lemma map_assign_length {A : Type} (sk : string) (v : A) (o : list (string * A)) :
  (length o <= length (map_assign sk v o) <= S (length o))%nat.
Proof.
  induction o as [| [k' v'] o IH]; simpl; [lia |].
  destruct (String.eqb sk k'); simpl; lia.
Qed.

Lemma fold_assign_length {A : Type} (es o : list (string * A)) :
  (length (fold_left (fun o e => map_assign (fst e) (snd e) o) es o)
   <= length o + length es)%nat.
Proof.
  revert o. induction es as [| e es IH]; intros o; simpl; [lia |].
  specialize (IH (map_assign (fst e) (snd e) o)).
  pose proof (map_assign_length (fst e) (snd e) o). lia.
Qed.

(** X7. The keys of the map [transformData] returns are the texts of the keys of
    its input, no more and no fewer, each once; so the output never has more
    entries than the input. *)
Theorem output_keys_are_input_keys (m : list (value * value)) :
  match transformData (VMap m) with
  | (VStrMap o, None) =>
      (forall sk, sk ∈ map fst o <-> exists k v, (k, v) ∈ m /\ key_text k = inl sk)
      /\ NoDup (map fst o)
      /\ (length o <= length m)%nat
  | (_, None) => False
  | (_, Some _) => True
  end.
Proof.
  destruct (transformData (VMap m)) as [out [e |]] eqn:Ht; [destruct out; exact I |].
  rewrite transformData_map in Ht. apply transform_map_success in Ht as (es & HF & ->).
  split; [| split].
  - intros sk. rewrite fold_assign_keys. split.
    + intros [Hin | Hin]; [inversion Hin |].
      apply list_elem_of_fmap in Hin as ([sk' y] & -> & He).
      apply list_elem_of_lookup in He as [i Hi].
      destruct (Forall2_lookup_r _ _ _ _ _ HF Hi) as ([k v] & Hm & Hk & _).
      exists k, v. split; [apply list_elem_of_lookup; eauto | exact Hk].
    + intros (k & v & Hin & Hk). right.
      apply list_elem_of_lookup in Hin as [i Hi].
      destruct (Forall2_lookup_l _ _ _ _ _ HF Hi) as ([sk' y] & He & Hk' & _).
      simpl in Hk'. rewrite Hk in Hk'. injection Hk' as ->.
      apply list_elem_of_fmap. exists (sk', y). split; [reflexivity |].
      apply list_elem_of_lookup. eauto.
  - apply fold_assign_NoDup. constructor.
  - pose proof (fold_assign_length es (@nil (string * value))) as Hl.
    apply Forall2_length in HF. simpl in Hl. lia.
Qed.

(** ** The first error ends the run *)

Lemma transform_slice_first_error rec (l1 l2 : list value) (x junk : value) (e : string) :
  (forall y, y ∈ l1 -> snd (rec y) = None) ->
  rec x = (junk, Some e) ->
  forall i o, transform_slice rec (l1 ++ x :: l2) i o = (VNil, Some e).
Proof.
  intros H1 Hx. induction l1 as [| y l1 IH]; intros i o; simpl.
  - rewrite Hx. reflexivity.
  - pose proof (H1 y (list_elem_of_here _ _)) as Hy.
    destruct (rec y) as [y' [e' |]]; [discriminate Hy |].
    apply IH. intros z Hz. apply H1. right. exact Hz.
Qed.

Lemma transform_map_first_error rec (m1 m2 : list (value * value)) (k v : value) (e : string) :
  (forall kv, kv ∈ m1 -> key_accepted (fst kv) = true /\ snd (rec (snd kv)) = None) ->
  (key_accepted k = false /\ e = unsupported_key k
   \/ key_accepted k = true /\ snd (rec v) = Some e) ->
  forall o, transform_map rec (m1 ++ (k, v) :: m2) o = (VNil, Some e).
Proof.
  intros H1 Hkv. induction m1 as [| [k' v'] m1 IH]; intros o; simpl.
  - destruct Hkv as [[Hk ->] | [Hk Hv]].
    + rewrite (key_text_rejected k Hk). reflexivity.
    + destruct (key_text_accepted k Hk) as [sk ->].
      destruct (rec v) as [y [e' |]]; simpl in Hv; [| discriminate].
      injection Hv as ->. reflexivity.
  - destruct (H1 (k', v') (list_elem_of_here _ _)) as [Hk' Hv']. simpl in Hk', Hv'.
    destruct (key_text_accepted k' Hk') as [sk ->].
    destruct (rec v') as [y [e' |]]; [discriminate Hv' |].
    apply IH. intros kv Hin. apply H1. right. exact Hin.
Qed.

(** X8. In a slice the error [transformData] returns is that of the first
    element that fails: the elements before it were transformed, those after
    it are not looked at. *)
Theorem slice_first_error (l1 l2 : list value) (x : value) (e : string) :
  (forall y, y ∈ l1 -> snd (transformData y) = None) ->
  snd (transformData x) = Some e ->
  transformData (VSlice (l1 ++ x :: l2)) = (VNil, Some e).
Proof.
  intros H1 Hx. rewrite transformData_slice.
  destruct (transformData x) as [junk err] eqn:Ex. simpl in Hx. subst err.
  apply (transform_slice_first_error _ l1 l2 x junk e H1 Ex).
Qed.

Lemma slice_first_error_witness :
  transformData (VSlice ([VInt 1] ++ VMap [(VBool true, VNil)] :: [VMap [(VNil, VNil)]]))
  = (VNil, Some "types don't match: expect map key string or int get: bool").
Proof.
  apply (slice_first_error [VInt 1] [VMap [(VNil, VNil)]] (VMap [(VBool true, VNil)])).
  - intros y Hy. apply list_elem_of_singleton in Hy. subst y. reflexivity.
  - reflexivity.
Defined.

(** X9. In a map the error [transformData] returns is that of the first entry, in
    the order of the visit, whose key is rejected or whose value fails; the
    key is looked at before the value, so a rejected key hides an error
    inside its value. *)
Theorem map_first_error (m1 m2 : list (value * value)) (k v : value) (e : string) :
  (forall kv, kv ∈ m1 -> key_accepted (fst kv) = true
                         /\ snd (transformData (snd kv)) = None) ->
  key_accepted k = false /\ e = unsupported_key k
  \/ key_accepted k = true /\ snd (transformData v) = Some e ->
  transformData (VMap (m1 ++ (k, v) :: m2)) = (VNil, Some e).
Proof.
  intros H1 Hkv. rewrite transformData_map.
  apply (transform_map_first_error _ m1 m2 k v e H1 Hkv).
Qed.

Lemma map_first_error_witness :
  transformData (VMap ([(VInt 1, VNil)]
                       ++ (VFloat64 0, VMap [(VBool true, VNil)]) :: [(VNil, VNil)]))
  = (VNil, Some (unsupported_key (VFloat64 0))).
Proof.
  apply (map_first_error [(VInt 1, VNil)] [(VNil, VNil)] (VFloat64 0)
           (VMap [(VBool true, VNil)])).
  - intros kv Hkv. apply list_elem_of_singleton in Hkv. subst kv. split; reflexivity.
  - left. split; reflexivity.
Defined.

Example first_error_examples :
  transformData (VSlice [VInt 1; VMap [(VBool true, VNil)]; VMap [(VNil, VNil)]])
  = (VNil, Some "types don't match: expect map key string or int get: bool")
  /\ transformData (VMap [(VFloat64 0, VMap [(VBool true, VNil)])])
     = (VNil, Some "types don't match: expect map key string or int get: float64").
Proof. split; reflexivity. Qed.

(** ** Collisions *)

Lemma Itoa_inj (n m : Z) : Itoa n = Itoa m -> n = m.
Proof.
  intros E. pose proof (Itoa_canonical n) as Hn. pose proof (Itoa_canonical m) as Hm.
  unfold canonical_decimal in Hn, Hm. rewrite E in Hn.
  destruct (Z.ltb_spec n 0) as [Ln | Ln], (Z.ltb_spec m 0) as [Lm | Lm].
  - destruct Hn as (r & Er & _ & Hr & _), Hm as (r' & Er' & _ & Hr' & _).
    rewrite Er in Er'. injection Er' as <-. rewrite Hr in Hr'. injection Hr' as H. lia.
  - destruct Hn as (r & Er & _), Hm as (_ & Hv & _).
    rewrite Er in Hv. discriminate Hv.
  - destruct Hm as (r & Er & _), Hn as (_ & Hv & _).
    rewrite Er in Hv. discriminate Hv.
  - destruct Hn as (_ & Hv & _), Hm as (_ & Hv' & _).
    rewrite Hv in Hv'. injection Hv' as H. exact H.
Qed.

Lemma transform_map_texts (m : list (value * value)) (es : list (string * value)) :
  Forall2 (fun kv e => key_text (fst kv) = inl (fst e)
                       /\ transformData (snd kv) = (snd e, None)) m es ->
  map (fun kv => key_string (fst kv)) m = map fst es.
Proof.
  induction 1 as [| [k v] [sk y] m es [Hk _] _ IH]; simpl; [reflexivity |].
  simpl in Hk. unfold key_string at 1. rewrite Hk, IH. reflexivity.
Qed.

(** X5. An entry is lost exactly when two keys collide: the map [transformData]
    returns has as many entries as its input if and only if no two keys of the
    input have the same text, and then it holds the transformed entries in
    the order of the visit. *)
Theorem entry_lost_iff_keys_collide (m : list (value * value)) :
  match transformData (VMap m) with
  | (VStrMap o, None) =>
      (length o = length m <-> NoDup (map (fun kv => key_string (fst kv)) m))
      /\ (NoDup (map (fun kv => key_string (fst kv)) m) ->
          Forall2 (fun kv e => key_text (fst kv) = inl (fst e)
                               /\ transformData (snd kv) = (snd e, None)) m o)
  | (_, None) => False
  | (_, Some _) => True
  end.
Proof.
  destruct (transformData (VMap m)) as [out [e |]] eqn:Ht; [destruct out; exact I |].
  rewrite transformData_map in Ht. apply transform_map_success in Ht as (es & HF & ->).
  pose proof (transform_map_texts m es HF) as Hk.
  assert (Hfresh : NoDup (map (fun kv => key_string (fst kv)) m) ->
                   fold_left (fun o e => map_assign (fst e) (snd e) o) es [] = es).
  { intros Hnd. rewrite Hk in Hnd. apply (fold_assign_fresh es []). exact Hnd. }
  split; [split |].
  - intros Hlen. rewrite Hk. apply NoDup_ListNoDup.
    apply (@List.NoDup_incl_NoDup _
             (map fst (fold_left (fun o e => map_assign (fst e) (snd e) o) es []))).
    + apply NoDup_ListNoDup. apply fold_assign_NoDup. constructor.
    + rewrite !length_map. apply Forall2_length in HF. lia.
    + intros sk Hin. apply list_elem_of_In in Hin. apply list_elem_of_In.
      apply fold_assign_keys in Hin as [Hin | Hin]; [inversion Hin | exact Hin].
  - intros Hnd. rewrite (Hfresh Hnd). symmetry. eapply Forall2_length. exact HF.
  - intros Hnd. rewrite (Hfresh Hnd). exact HF.
Qed.

(** X10. Two keys collide only when one is an integer and the other a string: a
    mapping whose keys are all integers, or all strings, loses no entry. *)
Theorem keys_of_one_kind_never_collide (m : list (value * value)) :
  NoDup (map fst m) ->
  Forall (fun kv => exists n, fst kv = VInt n) m
  \/ Forall (fun kv => exists s, fst kv = VString s) m ->
  NoDup (map (fun kv => key_string (fst kv)) m)
  /\ match transformData (VMap m) with
     | (VStrMap o, None) => length o = length m
     | (_, None) => False
     | (_, Some _) => True
     end.
Proof.
  intros Hnd Hkind.
  assert (Hd : NoDup (map (fun kv => key_string (fst kv)) m)).
  { rewrite <- (map_map fst key_string).
    apply NoDup_fmap_2_strong; [| exact Hnd].
    intros k k' Hk Hk' E.
    apply list_elem_of_fmap in Hk as (kv & -> & Hin).
    apply list_elem_of_fmap in Hk' as (kv' & -> & Hin').
    destruct Hkind as [HF | HF]; rewrite Forall_forall in HF;
      destruct (HF kv Hin) as [a Ha], (HF kv' Hin') as [a' Ha'];
      rewrite Ha, Ha' in *; cbv [key_string key_text] in E.
    - f_equal. apply Itoa_inj. exact E.
    - congruence. }
  split; [exact Hd |].
  destruct (transformData (VMap m)) as [out [e |]] eqn:Ht; [destruct out; exact I |].
  rewrite transformData_map in Ht. apply transform_map_success in Ht as (es & HF & ->).
  pose proof (transform_map_texts m es HF) as Hk. rewrite Hk in Hd.
  rewrite (fold_assign_fresh es []) by exact Hd. symmetry. eapply Forall2_length. exact HF.
Qed.

Lemma keys_of_one_kind_never_collide_witness :
  NoDup (map (fun kv => key_string (fst kv)) [(VInt 1, VNil); (VInt (-1), VBool true)])
  /\ match transformData (VMap [(VInt 1, VNil); (VInt (-1), VBool true)]) with
     | (VStrMap o, None) => length o = 2%nat
     | (_, None) => False
     | (_, Some _) => True
     end.
Proof.
  apply (keys_of_one_kind_never_collide [(VInt 1, VNil); (VInt (-1), VBool true)]).
  - apply NoDup_ListNoDup. repeat constructor; simpl; intuition discriminate.
  - left. repeat constructor; eexists; reflexivity.
Defined.

(** ** The bytes of the output *)

Lemma number_char_plain (c : ascii) : is_number_char c = true -> html_plain c = true.
Proof.
  destruct c as [b0 b1 b2 b3 b4 b5 b6 b7].
  destruct b0, b1, b2, b3, b4, b5, b6, b7; vm_compute; intros H;
    first [discriminate H | reflexivity].
Qed.

Lemma ascii_byte_plain (c : ascii) :
  byte c < 0x80 ->
  forallb html_plain (if htmlSafe (byte c) then [c] else escape_byte c) = true.
Proof.
  intros Hc.
  destruct c as [b0 b1 b2 b3 b4 b5 b6 b7].
  destruct b7; [exfalso; destruct b0, b1, b2, b3, b4, b5, b6; vm_compute in Hc; discriminate Hc |].
  clear Hc.
  destruct b0, b1, b2, b3, b4, b5, b6; reflexivity.
Qed.

Lemma high_byte_plain (c : ascii) : 0x80 <= byte c -> html_plain c = true.
Proof.
  intros H. unfold html_plain. cbv zeta.
  repeat match goal with |- context [?a =? ?b] =>
    destruct (Z.eqb_spec a b); [lia |] end.
  destruct (Z.leb_spec 0x20 (byte c)); [reflexivity | lia].
Qed.

Lemma appendString_loop_plain (fuel : nat) (src : bytes) :
  forallb html_plain (appendString_loop fuel src) = true.
Proof.
  revert src. induction fuel as [| fuel IH]; intros src; [reflexivity |].
  destruct src as [| c tl]; [reflexivity |].
  rewrite appendString_loop_step. cbv zeta.
  destruct (Z.ltb_spec (byte c) 0x80) as [Hc | Hc].
  - rewrite forallb_app, ascii_byte_plain, IH by exact Hc. reflexivity.
  - destruct (DecodeRune (c :: tl)) as [r size] eqn:Hd.
    destruct ((r =? RuneError) && (size =? 1)%nat) eqn:Hbad.
    + change (backslash_char :: lit "ufffd" ++ appendString_loop fuel (drop size (c :: tl)))
        with ((backslash_char :: lit "ufffd") ++ appendString_loop fuel (drop size (c :: tl))).
      rewrite forallb_app, IH. reflexivity.
    + destruct (decode_multibyte c tl r size Hc Hd Hbad)
        as (seq & rest' & Hsplit & Hsize & H2 & Hhigh & Hsep).
      destruct ((r =? 0x2028) || (r =? 0x2029)) eqn:Hr.
      * change (backslash_char :: lit "u202" ++ hex_char (Z.land r 0xF)
                  :: appendString_loop fuel (drop size (c :: tl)))
          with ((backslash_char :: lit "u202" ++ [hex_char (Z.land r 0xF)])
                  ++ appendString_loop fuel (drop size (c :: tl))).
        rewrite forallb_app, IH, andb_true_r.
        apply orb_true_iff in Hr as [Hr | Hr]; apply Z.eqb_eq in Hr; subst r; reflexivity.
      * rewrite Hsplit. subst size. rewrite take_app_length, forallb_app, IH, andb_true_r.
        apply forallb_forall. intros x Hx. apply high_byte_plain.
        rewrite Forall_forall in Hhigh. apply Hhigh. apply list_elem_of_In. exact Hx.
Qed.

Lemma appendString_plain (s : string) : forallb html_plain (appendString s) = true.
Proof.
  unfold appendString. simpl. rewrite forallb_app, appendString_loop_plain. reflexivity.
Qed.

Lemma json_number_plain (s : bytes) : json_number s = true -> forallb html_plain s = true.
Proof.
  intros H. apply json_number_chars in H. rewrite forallb_forall in *.
  intros c Hc. apply number_char_plain. apply H. exact Hc.
Qed.

Lemma join_elements_plain (parts : list (bytes + string)) (first : bool) (bs : bytes) :
  Forall (fun p => forall b, p = inl b -> forallb html_plain b = true) parts ->
  join_elements first parts = inl bs -> forallb html_plain bs = true.
Proof.
  intros HF. revert first bs.
  induction HF as [| p parts Hp HF IH]; intros first bs; simpl.
  - intros [= <-]. reflexivity.
  - destruct p as [b | e]; [| discriminate].
    destruct (join_elements false parts) as [bs' | e] eqn:Hj; [| discriminate].
    intros [= <-]. rewrite !forallb_app, (Hp b eq_refl), (IH false bs' Hj).
    destruct first; reflexivity.
Qed.

Lemma join_entries_plain (parts : list (string * (bytes + string))) (first : bool) (bs : bytes) :
  Forall (fun p => forall b, snd p = inl b -> forallb html_plain b = true) parts ->
  join_entries first parts = inl bs -> forallb html_plain bs = true.
Proof.
  intros HF. revert first bs.
  induction HF as [| [k p] parts Hp HF IH]; intros first bs; cbn [join_entries].
  - intros [= <-]. reflexivity.
  - simpl in Hp. destruct p as [b | e]; [| discriminate].
    destruct (join_entries false parts) as [bs' | e] eqn:Hj; [| discriminate].
    intros [= <-].
    rewrite ?forallb_app. cbn [forallb].
    rewrite ?forallb_app, appendString_loop_plain. cbn [forallb].
    rewrite ?forallb_app, (Hp b eq_refl), (IH false bs' Hj).
    destruct first; reflexivity.
Qed.

Section Plain.

Variable FormatFloat : Z -> string + string.
Hypothesis floats_are_numbers :
  forall f text, FormatFloat f = inl text -> json_number (lit text) = true.

Lemma Forall_fmap_plain_elements (l : list value) :
  Forall (fun v => forall b, encode FormatFloat v = inl b -> forallb html_plain b = true) l ->
  Forall (fun p : bytes + string => forall b, p = inl b -> forallb html_plain b = true)
         (map (encode FormatFloat) l).
Proof. intros H. apply Forall_fmap. eapply Forall_impl; [exact H |]. intros x Hx. exact Hx. Qed.

Lemma encode_plain (v : value) (b : bytes) :
  encode FormatFloat v = inl b -> forallb html_plain b = true.
Proof.
  revert b.
  induction v as [| x | n | n | n | f | s | l IH | m IH | m IH] using value_nested_ind;
    intros b; simpl.
  - intros [= <-]. reflexivity.
  - intros [= <-]. destruct x; reflexivity.
  - intros [= <-]. apply json_number_plain, Itoa_json_number.
  - intros [= <-]. apply json_number_plain, Itoa_json_number.
  - intros [= <-]. apply json_number_plain, Itoa_json_number.
  - destruct (FormatFloat f) as [text | e] eqn:Hf; [| discriminate].
    intros [= <-]. apply json_number_plain, (floats_are_numbers f). exact Hf.
  - intros [= <-]. apply appendString_plain.
  - destruct (join_elements true (map (encode FormatFloat) l)) as [bs | e] eqn:Hj;
      [| discriminate].
    intros [= <-]. repeat (rewrite ?forallb_app; cbn [forallb]).
    rewrite (join_elements_plain _ true bs (Forall_fmap_plain_elements l IH) Hj). reflexivity.
  - discriminate.
  - destruct (join_entries true _) as [bs | e] eqn:Hj; [| discriminate].
    intros [= <-]. repeat (rewrite ?forallb_app; cbn [forallb]).
    assert (HF : Forall (fun p : string * (bytes + string) =>
                           forall b, snd p = inl b -> forallb html_plain b = true)
                   (sort_entries (map (fun kv => (fst kv, encode FormatFloat (snd kv))) m))).
    { rewrite sort_entries_Permutation. apply Forall_fmap.
      eapply Forall_impl; [exact IH |]. intros [k x] Hx. exact Hx. }
    rewrite (join_entries_plain _ true bs HF Hj). reflexivity.
Qed.

End Plain.

Lemma html_plain_spec (c : ascii) :
  html_plain c = true ->
  0x20 <= byte c /\ byte c <> 0x26 /\ byte c <> 0x3C /\ byte c <> 0x3E.
Proof.
  unfold html_plain. cbv zeta. intros Hp.
  apply andb_true_iff in Hp as [H1 H2]. apply Z.leb_le in H1.
  apply negb_true_iff in H2. rewrite !orb_false_iff in H2.
  destruct H2 as [[H2 H3] H4]. apply Z.eqb_neq in H2, H3, H4. auto.
Qed.

Lemma YAMLToJSON_plain (FormatFloat : Z -> string + string) (data : value) (b : bytes) :
  (forall f text, FormatFloat f = inl text -> json_number (lit text) = true) ->
  YAMLToJSON FormatFloat data = (b, None) ->
  forallb html_plain b = true.
Proof.
  intros Hff Hy.
  unfold YAMLToJSON in Hy. destruct (transformData data) as [jm [e |]]; [discriminate |].
  unfold Marshal in Hy. destruct (encode FormatFloat jm) as [b' | e] eqn:He; [| discriminate].
  injection Hy as <-. exact (encode_plain FormatFloat Hff jm b' He).
Qed.

(** X13. Whatever the document holds, the JSON text has no control character and
    none of [&], [<] and [>] in it: [json.Marshal] escapes them in strings and
    keys, and writes nothing else that could hold them, the float encoder
    writing numbers only. *)
Theorem output_is_html_safe (FormatFloat : Z -> string + string) (data : value) (b : bytes) :
  (forall f text, FormatFloat f = inl text -> json_number (lit text) = true) ->
  YAMLToJSON FormatFloat data = (b, None) ->
  forall c, c ∈ b ->
    0x20 <= byte c /\ byte c <> 0x26 /\ byte c <> 0x3C /\ byte c <> 0x3E.
Proof.
  intros Hff Hy c Hc.
  pose proof (YAMLToJSON_plain FormatFloat data b Hff Hy) as Hp.
  rewrite forallb_forall in Hp. apply list_elem_of_In in Hc.
  apply html_plain_spec. apply Hp. exact Hc.
Qed.

Lemma output_is_html_safe_witness :
  0x20 <= byte "{" /\ byte "{" <> 0x26 /\ byte "{" <> 0x3C /\ byte "{" <> 0x3E.
Proof.
  apply (output_is_html_safe
           (fun f : Z => if f =? 0 then inl "0" else inr "json: unsupported value")
           (VMap [(VString "<a>", VSlice [VFloat64 0; VString "&"])])
           (lit "{" ++ appendString "<a>" ++ lit ":[0," ++ appendString "&" ++ lit "]}")).
  - intros f text. destruct (f =? 0); [intros [= <-]; reflexivity | discriminate].
  - vm_compute. reflexivity.
  - left.
Defined.

(** ** The response body *)

(** X14. [loadHTTPBytes] closes the body of every response it receives, once, on
    every path: also when [client.Do] returned the response with an error and
    when the status is not 200.  It closes the body after the request and
    after the read, it closes nothing when there is no response, and what
    it logs is the error of that close and nothing else. *)
Theorem body_closed_once (w : World) (timeout : Z) (path : string) :
  let tr := snd (loadHTTPBytes w timeout path) in
  closes tr = match response_received w timeout path with Some _ => 1 | None => 0 end%nat
  /\ (forall i j ev, tr !! i = Some EvClose -> tr !! j = Some ev ->
        match ev with EvRequest _ _ _ | EvReadAll => (j < i)%nat | _ => True end)
  /\ (forall e, EvLog e ∈ tr <->
                exists resp, response_received w timeout path = Some resp
                             /\ CloseErr resp = Some e).
Proof.
  assert (Hclose : forall (resp : Response) (pre : list event),
             Forall (fun ev => match ev with EvRequest _ _ _ | EvReadAll => True | _ => False end) pre ->
             let tr := pre ++ close_body (Some resp) in
             closes tr = 1%nat
             /\ (forall i j ev, tr !! i = Some EvClose -> tr !! j = Some ev ->
                   match ev with EvRequest _ _ _ | EvReadAll => (j < i)%nat | _ => True end)
             /\ (forall e, EvLog e ∈ tr <-> CloseErr resp = Some e)).
  { intros resp pre Hpre tr. subst tr. unfold closes, close_body.
    split; [| split].
    - rewrite List.filter_app, length_app.
      replace (List.filter _ pre) with (@nil event).
      + destruct (CloseErr resp); reflexivity.
      + induction Hpre as [| ev pre Hev _ IH]; [reflexivity |].
        simpl. destruct ev; try contradiction; exact IH.
    - intros i j ev Hi Hj.
      assert (Hi' : (length pre <= i)%nat).
      { destruct (Nat.le_gt_cases (length pre) i) as [? | Hlt]; [assumption |].
        rewrite lookup_app_l in Hi by exact Hlt.
        rewrite Forall_lookup in Hpre. specialize (Hpre i _ Hi). contradiction. }
      destruct (Nat.le_gt_cases (length pre) j) as [Hge | Hlt].
      + rewrite lookup_app_r in Hj by exact Hge.
        destruct (j - length pre)%nat as [| [| k]] eqn:Ek; simpl in Hj.
        * injection Hj as <-. exact I.
        * destruct (CloseErr resp); [injection Hj as <-; exact I | discriminate Hj].
        * destruct (CloseErr resp); [destruct k |]; discriminate Hj.
      + destruct ev; try exact I; lia.
    - intros e. rewrite elem_of_app. split.
      + intros [H | H].
        * rewrite Forall_forall in Hpre. destruct (Hpre _ H).
        * apply elem_of_cons in H as [H | H]; [discriminate H |].
          destruct (CloseErr resp) as [e' |]; [| inversion H].
          apply list_elem_of_singleton in H. congruence.
      + intros ->. right. right. left. }
  unfold loadHTTPBytes, response_received.
  destruct (NewRequest w "GET" path) as [e0 |].
  { simpl. split; [reflexivity |]. split; [intros i j ev H; destruct i; discriminate H |].
    intros e. split; [intros H; inversion H | intros (r & H & _); discriminate H]. }
  destruct (Do w timeout "GET" path) as [resp | [resp |] e1].
  - destruct (negb (StatusCode resp =? StatusOK)); cbn [snd].
    + destruct (Hclose resp [EvRequest timeout "GET" path]) as (H1 & H2 & H3);
        [repeat constructor |].
      split; [exact H1 |]. split; [exact H2 |].
      intros e. rewrite (H3 e). split; [eauto | intros (r & [= <-] & Hr); exact Hr].
    + destruct (Hclose resp [EvRequest timeout "GET" path; EvReadAll]) as (H1 & H2 & H3);
        [repeat constructor |].
      split; [exact H1 |]. split; [exact H2 |].
      intros e. rewrite (H3 e). split; [eauto | intros (r & [= <-] & Hr); exact Hr].
  - cbn [snd].
    destruct (Hclose resp [EvRequest timeout "GET" path]) as (H1 & H2 & H3);
      [repeat constructor |].
    split; [exact H1 |]. split; [exact H2 |].
    intros e. rewrite (H3 e). split; [eauto | intros (r & [= <-] & Hr); exact Hr].
  - simpl. split; [reflexivity |].
    split; [intros i j ev H; destruct i as [| i]; [| destruct i]; discriminate H |].
    intros e. split.
    + intros H. apply elem_of_cons in H as [H | H]; [discriminate H | inversion H].
    + intros (r & H & _). discriminate H.
Qed.

(** ** One location, one medium *)

(** X15. [LoadFromFileOrHTTP] touches nothing but the location it is given, and it
    by one medium: it reads a file only when the location does not start
    with [http], that file and nothing more, and it sends a request only when
    the location starts with [http], a GET of that location with the timeout
    of 30 seconds.  It never does both. *)
Theorem load_touches_only_its_location (w : World) (path : string) :
  let tr := snd (LoadFromFileOrHTTP w path) in
  (forall p, EvReadFile p ∈ tr ->
     p = path /\ HasPrefix path "http" = false /\ tr = [EvReadFile path])
  /\ (forall t m u, EvRequest t m u ∈ tr ->
        t = 30 * Second /\ m = "GET" /\ u = path /\ HasPrefix path "http" = true
        /\ forall p, EvReadFile p ∉ tr).
Proof.
  unfold LoadFromFileOrHTTP, LoadStrategy.
  destruct (HasPrefix path "http").
  - assert (Hno : forall p, EvReadFile p ∉ snd (loadHTTPBytes w LoadHTTPTimeout path)).
    { intros p H. unfold loadHTTPBytes, close_body in H.
      destruct (NewRequest w "GET" path); [inversion H |].
      destruct (Do w LoadHTTPTimeout "GET" path) as [resp | [resp |] e];
        [destruct (negb (StatusCode resp =? StatusOK)) | |];
        try destruct (CloseErr resp); simpl in H;
        repeat (apply elem_of_cons in H as [H | H]; [discriminate H |]); inversion H. }
    cbv zeta. split; [intros p H; destruct (Hno p H) |].
    intros t m u H. unfold loadHTTPBytes, close_body in H.
    assert (Hreq : EvRequest t m u = EvRequest LoadHTTPTimeout "GET" path).
    { destruct (NewRequest w "GET" path); [inversion H |].
      destruct (Do w LoadHTTPTimeout "GET" path) as [resp | [resp |] e];
        [destruct (negb (StatusCode resp =? StatusOK)) | |];
        try destruct (CloseErr resp); simpl in H;
        apply elem_of_cons in H as [H | H]; try exact H;
        repeat (apply elem_of_cons in H as [H | H]; [discriminate H |]); inversion H. }
    injection Hreq as -> -> ->. repeat split. exact Hno.
  - cbv zeta. unfold readFile. simpl. split.
    + intros p H. apply list_elem_of_singleton in H. injection H as ->. repeat split.
    + intros t m u H. apply list_elem_of_singleton in H. discriminate H.
Qed.

(** ** The stages of [YAMLDoc] *)

Lemma YAMLToJSON_error_nil (FormatFloat : Z -> string + string) (data : value) (e : string) :
  snd (YAMLToJSON FormatFloat data) = Some e -> fst (YAMLToJSON FormatFloat data) = [].
Proof.
  unfold YAMLToJSON, Marshal. destruct (transformData data) as [jm [e' |]]; [reflexivity |].
  destruct (encode FormatFloat jm); [discriminate | reflexivity].
Qed.

(** X16. [YAMLDoc] is its four stages one after the other, and the first error
    ends it: the error of the loader, then the error of the YAML decoder,
    then the type error for a document whose root is not a mapping, then the
    error of [YAMLToJSON]; an empty or null document is written as the empty
    object. *)
Theorem YAMLDoc_stages (FormatFloat : Z -> string + string) (w : World) (y : Yaml)
    (path : string) :
  YAMLDoc FormatFloat w y path
  = match fst (LoadFromFileOrHTTP w path) with
    | (_, Some e) => ([], Some e)
    | (data, None) =>
        match decode y data with
        | inr e => ([], Some e)
        | inl (VMap m) => YAMLToJSON FormatFloat (VMap m)
        | inl VNil => (lit "{}", None)
        | inl _ => ([], Some (mismatch y data))
        end
    end.
Proof.
  unfold YAMLDoc, YAMLData, bytesToYAMLDoc, Unmarshal_map.
  destruct (fst (LoadFromFileOrHTTP w path)) as [data [e |]]; [reflexivity |].
  destruct (decode y data) as [v | e]; [| reflexivity].
  destruct v; try reflexivity.
  destruct (YAMLToJSON FormatFloat (VMap m)) as [b [e |]] eqn:Hy; [| reflexivity].
  pose proof (YAMLToJSON_error_nil FormatFloat (VMap m) e) as Hn.
  rewrite Hy in Hn. simpl in Hn. rewrite Hn; reflexivity.
Qed.

Lemma encode_strmap_braces (FormatFloat : Z -> string + string)
    (o : list (string * value)) (b : bytes) :
  encode FormatFloat (VStrMap o) = inl b -> exists body, b = lit "{" ++ body ++ lit "}".
Proof.
  simpl. destruct (join_entries true _) as [bs | e]; [| discriminate].
  intros [= <-]. exists bs. reflexivity.
Qed.

Lemma YAMLDoc_success (FormatFloat : Z -> string + string) (w : World) (y : Yaml)
    (path : string) (b : bytes) :
  YAMLDoc FormatFloat w y path = (b, None) ->
  exists data m,
    fst (LoadFromFileOrHTTP w path) = (data, None)
    /\ bytesToYAMLDoc y data = (VMap m, None)
    /\ YAMLToJSON FormatFloat (VMap m) = (b, None)
    /\ exists body, b = lit "{" ++ body ++ lit "}".
Proof.
  unfold YAMLDoc, YAMLData.
  destruct (fst (LoadFromFileOrHTTP w path)) as [data [e |]]; [discriminate |].
  destruct (bytesToYAMLDoc y data) as [doc [e |]] eqn:Hb; [discriminate |].
  assert (Hm : exists m, doc = VMap m).
  { unfold bytesToYAMLDoc in Hb. destruct (Unmarshal_map y data) as [m [e |]]; [discriminate |].
    injection Hb as <-. eauto. }
  destruct Hm as [m ->].
  destruct (YAMLToJSON FormatFloat (VMap m)) as [b' [e |]] eqn:Hy; [discriminate |].
  intros [= ->]. exists data, m.
  split; [reflexivity |]. split; [exact Hb |]. split; [exact Hy |].
  unfold YAMLToJSON in Hy.
  destruct (transformData (VMap m)) as [jm [e |]] eqn:Ht; [discriminate |].
  rewrite transformData_map in Ht. apply transform_map_success in Ht as (es & _ & ->).
  unfold Marshal in Hy.
  destruct (encode FormatFloat (VStrMap _)) as [b' | e] eqn:He; [| discriminate].
  injection Hy as <-. exact (encode_strmap_braces FormatFloat _ _ He).
Qed.

Lemma YAMLDoc_error_nil (FormatFloat : Z -> string + string) (w : World) (y : Yaml)
    (path : string) (b : bytes) (e : string) :
  YAMLDoc FormatFloat w y path = (b, Some e) -> b = [].
Proof.
  unfold YAMLDoc. destruct (YAMLData w y path) as [doc [e' |]]; [intros [= <- _]; reflexivity |].
  destruct (YAMLToJSON FormatFloat doc) as [b' [e' |]]; [intros [= <- _]; reflexivity | discriminate].
Qed.

(** X17. What [YAMLDoc] returns is an error and no bytes, or a JSON object: the
    bytes start with an opening brace and end with a closing one, whatever
    the document is, since its root can only be a mapping. *)
Theorem YAMLDoc_writes_an_object (FormatFloat : Z -> string + string) (w : World)
    (y : Yaml) (path : string) :
  match YAMLDoc FormatFloat w y path with
  | (b, Some _) => b = []
  | (b, None) =>
      (exists body, b = lit "{" ++ body ++ lit "}")
      /\ exists data m, fst (LoadFromFileOrHTTP w path) = (data, None)
                        /\ bytesToYAMLDoc y data = (VMap m, None)
  end.
Proof.
  destruct (YAMLDoc FormatFloat w y path) as [b [e |]] eqn:Hy.
  - exact (YAMLDoc_error_nil _ _ _ _ _ _ Hy).
  - destruct (YAMLDoc_success _ _ _ _ _ Hy) as (data & m & Hl & Hb & _ & Hbody).
    split; [exact Hbody | eauto].
Qed.

(** ** The command line *)

Lemma parseOne_word (s : string) (rest : list string) :
  (String.length s < 2)%nat \/ char_at 0 s <> "-"%char ->
  parseOne (s :: rest) = NoFlag (s :: rest).
Proof.
  intros H. unfold parseOne.
  replace ((String.length s <? 2)%nat || negb (Ascii.eqb (char_at 0 s) "-")) with true;
    [reflexivity |].
  symmetry. apply orb_true_iff. destruct H as [H | H].
  - left. apply Nat.ltb_lt. exact H.
  - right. apply negb_true_iff. apply Ascii.eqb_neq. exact H.
Qed.

Lemma Parse_word (s : string) (rest : list string) :
  (String.length s < 2)%nat \/ char_at 0 s <> "-"%char ->
  Parse (s :: rest) = Parsed EmptyString (s :: rest).
Proof.
  intros H. unfold Parse. cbn [length Parse_loop].
  rewrite (parseOne_word s rest H). reflexivity.
Qed.

Lemma Parse_output_set (args rest : list string) (output : string) :
  Parse args = Parsed output rest -> output <> EmptyString ->
  exists arg1 tl, args = arg1 :: tl /\ (2 <= String.length arg1)%nat
                  /\ char_at 0 arg1 = "-"%char.
Proof.
  intros Hp Hne. destruct args as [| arg1 tl].
  - vm_compute in Hp. injection Hp as <- _. contradiction.
  - exists arg1, tl. split; [reflexivity |].
    destruct (Nat.ltb_spec (String.length arg1) 2) as [Hl | Hl].
    { rewrite Parse_word in Hp by (left; exact Hl). injection Hp as <- _. contradiction. }
    split; [exact Hl |].
    destruct (Ascii.eqb_spec (char_at 0 arg1) "-") as [E | E]; [exact E |].
    rewrite Parse_word in Hp by (right; exact E). injection Hp as <- _. contradiction.
Qed.

Lemma dash_is_not_http (s : string) : char_at 0 s = "-"%char -> HasPrefix s "http" = false.
Proof.
  destruct s as [| c s]; [reflexivity |]. unfold char_at. simpl. intros ->.
  unfold HasPrefix. simpl. apply andb_false_r.
Qed.

Lemma Loading_not_FileWrite (tr : list event) (name : string) (data : bytes) (perm : Z) :
  FileWrite name data perm ∉ map Loading tr.
Proof. intros H. apply list_elem_of_fmap in H as (ev & H & _). discriminate H. Qed.

Lemma Loading_not_Stdout (tr : list event) (text : bytes) :
  Stdout text ∉ map Loading tr.
Proof. intros H. apply list_elem_of_fmap in H as (ev & H & _). discriminate H. Qed.

Lemma Usage_quiet (prog : string) :
  (forall name data perm, FileWrite name data perm ∉ Usage prog)
  /\ (forall text, Stdout text ∉ Usage prog).
Proof.
  split; intros; intros H; unfold Usage in H;
    repeat (apply elem_of_cons in H as [H | H]; [discriminate H |]); inversion H.
Qed.

Section Program.

Variable FormatFloat : Z -> string + string.
Variable w : World.
Variable y : Yaml.
Variable WriteFile : string -> bytes -> Z -> error.
Variable prog : string.

(** X18. The flag [output] can be set only by the first word of the command
    line, and that word is what [main] loads, since it loads [os.Args[1]]
    and not the first word after the flags: whenever the program writes a
    file, the document it wrote came from the local file whose name is that
    first word, a word that starts with a dash; and the file is the one the
    flag names, written once with the permission bits 0600. *)
Theorem a_file_is_written_from_a_flag_word (args : list string)
    (name : string) (data : bytes) (perm : Z) :
  FileWrite name data perm ∈ fst (main FormatFloat w y WriteFile prog args) ->
  exists arg1 rest output left,
    args = arg1 :: rest
    /\ char_at 0 arg1 = "-"%char
    /\ LoadFromFileOrHTTP w arg1 = (ReadFile w arg1, [EvReadFile arg1])
    /\ YAMLDoc FormatFloat w y arg1 = (data, None)
    /\ Parse args = Parsed output left
    /\ name = output /\ name <> EmptyString /\ perm = 384.
Proof.
  unfold main. destruct (Parse args) as [output left | | msg] eqn:Hp.
  - destruct args as [| arg1 rest]; simpl.
    { intros H. apply list_elem_of_singleton in H. discriminate H. }
    destruct (YAMLDoc FormatFloat w y arg1) as [json [e |]] eqn:Hy; simpl.
    { intros H. apply elem_of_app in H as [H | H]; [destruct (Loading_not_FileWrite _ _ _ _ H) |].
      apply list_elem_of_singleton in H. discriminate H. }
    destruct (String.eqb_spec output EmptyString) as [E | E]; simpl.
    { intros H. apply elem_of_app in H as [H | H]; [destruct (Loading_not_FileWrite _ _ _ _ H) |].
      apply list_elem_of_singleton in H. discriminate H. }
    intros H.
    assert (Hw : FileWrite name data perm = FileWrite output json rw_owner).
    { destruct (WriteFile output json rw_owner); simpl in H;
        apply elem_of_app in H as [H | H];
        try (destruct (Loading_not_FileWrite _ _ _ _ H));
        apply elem_of_cons in H as [H | H]; try exact H.
      - apply list_elem_of_singleton in H. discriminate H.
      - inversion H. }
    injection Hw as -> -> ->.
    destruct (Parse_output_set _ _ _ Hp E) as (a & tl & [= <- <-] & _ & Hd).
    exists arg1, rest, output, left. repeat split; try assumption; try reflexivity.
    unfold LoadFromFileOrHTTP, LoadStrategy. rewrite (dash_is_not_http arg1 Hd). reflexivity.
  - simpl. intros H. destruct (proj1 (Usage_quiet prog) _ _ _ H).
  - simpl. intros H. apply elem_of_cons in H as [H | H]; [discriminate H |].
    destruct (proj1 (Usage_quiet prog) _ _ _ H).
Qed.

(** X19. The words after the location count for nothing: when the first word is
    not a flag (it is shorter than two bytes or does not start with a dash),
    the program does what it does for that word alone, whatever follows it,
    an [-output] flag too; it writes no file. *)
Theorem words_after_the_location_are_ignored (arg1 : string) (rest : list string) :
  (String.length arg1 < 2)%nat \/ char_at 0 arg1 <> "-"%char ->
  main FormatFloat w y WriteFile prog (arg1 :: rest)
  = main FormatFloat w y WriteFile prog [arg1]
  /\ forall name data perm,
       FileWrite name data perm ∉ fst (main FormatFloat w y WriteFile prog (arg1 :: rest)).
Proof.
  intros H. unfold main. rewrite (Parse_word arg1 rest H), (Parse_word arg1 [] H).
  split; [reflexivity |]. intros name data perm Hin.
  destruct (YAMLDoc FormatFloat w y arg1) as [json [e |]]; simpl in Hin;
    apply elem_of_app in Hin as [Hin | Hin];
    try (destruct (Loading_not_FileWrite _ _ _ _ Hin));
    apply list_elem_of_singleton in Hin; discriminate Hin.
Qed.

(** X20. The exit status tells what happened: it is 2 exactly when the flag
    package rejects the command line, and 0 or 1 otherwise; whenever it is
    not 0 a line with the reason was written to the standard error; and when
    it is 0 then help was asked for, or the document of the first word was
    converted and either printed or written to the file without an error. *)
Theorem exit_status_tells (args : list string) :
  let run := main FormatFloat w y WriteFile prog args in
  (snd run = 0 \/ snd run = 1 \/ snd run = 2)
  /\ (snd run = 2 <-> exists msg, Parse args = Failed msg)
  /\ (snd run <> 0 -> exists msg, Stderr (line msg) ∈ fst run)
  /\ (snd run = 0 ->
      Parse args = Help
      \/ exists arg1 rest json,
           args = arg1 :: rest
           /\ YAMLDoc FormatFloat w y arg1 = (json, None)
           /\ (Stdout (json ++ [newline]) ∈ fst run
               \/ exists name, FileWrite name json rw_owner ∈ fst run
                               /\ WriteFile name json rw_owner = None)).
Proof.
  unfold main. destruct (Parse args) as [output left | | msg] eqn:Hp; cbv zeta.
  - destruct args as [| arg1 rest]; simpl.
    { split; [auto |]. split; [split; [discriminate | intros [m H]; discriminate H] |].
      split; [intros _; eexists; left | discriminate]. }
    destruct (YAMLDoc FormatFloat w y arg1) as [json [e |]] eqn:Hy; simpl.
    { split; [auto |]. split; [split; [discriminate | intros [m H]; discriminate H] |].
      split; [| discriminate]. intros _. exists e. apply elem_of_app. right. left. }
    destruct (String.eqb output EmptyString); simpl.
    { split; [auto |]. split; [split; [discriminate | intros [m H]; discriminate H] |].
      split; [intros H; contradiction H; reflexivity |]. intros _. right.
      exists arg1, rest, json. split; [reflexivity |]. split; [exact Hy |].
      left. apply elem_of_app. right. left. }
    destruct (WriteFile output json rw_owner) as [e |] eqn:Hw; simpl.
    { split; [auto |]. split; [split; [discriminate | intros [m H]; discriminate H] |].
      split; [| discriminate]. intros _. exists e. apply elem_of_app. right. right. left. }
    split; [auto |]. split; [split; [discriminate | intros [m H]; discriminate H] |].
    split; [intros H; contradiction H; reflexivity |]. intros _. right.
    exists arg1, rest, json. split; [reflexivity |]. split; [exact Hy |].
    right. exists output. split; [apply elem_of_app; right; left | exact Hw].
  - simpl. split; [auto |]. split; [split; [discriminate | intros [m H]; discriminate H] |].
    split; [intros H; contradiction H; reflexivity | auto].
  - simpl. split; [auto |]. split; [split; [eauto | reflexivity] |].
    split; [intros _; exists msg; left | discriminate].
Qed.

Hypothesis floats_are_numbers :
  forall f text, FormatFloat f = inl text -> json_number (lit text) = true.

(** X21. What the program prints to the standard output is one line, a JSON
    object and the newline after it: the text [YAMLDoc] returned for the
    first word, with no newline inside; and it prints it only when it
    ends with status 0. *)
Theorem stdout_is_one_line (args : list string) (text : bytes) :
  Stdout text ∈ fst (main FormatFloat w y WriteFile prog args) ->
  snd (main FormatFloat w y WriteFile prog args) = 0
  /\ exists arg1 rest body,
       args = arg1 :: rest
       /\ YAMLDoc FormatFloat w y arg1 = (lit "{" ++ body ++ lit "}", None)
       /\ text = (lit "{" ++ body ++ lit "}") ++ [newline]
       /\ newline ∉ lit "{" ++ body ++ lit "}".
Proof.
  unfold main. destruct (Parse args) as [output left | | msg] eqn:Hp.
  - destruct args as [| arg1 rest]; simpl.
    { intros H. apply list_elem_of_singleton in H. discriminate H. }
    destruct (YAMLDoc FormatFloat w y arg1) as [json [e |]] eqn:Hy; simpl.
    { intros H. apply elem_of_app in H as [H | H]; [destruct (Loading_not_Stdout _ _ H) |].
      apply list_elem_of_singleton in H. discriminate H. }
    destruct (String.eqb_spec output EmptyString) as [E | E]; simpl.
    + intros H. apply elem_of_app in H as [H | H]; [destruct (Loading_not_Stdout _ _ H) |].
      apply list_elem_of_singleton in H. injection H as ->.
      split; [reflexivity |].
      destruct (YAMLDoc_success _ _ _ _ _ Hy) as (data & m & _ & _ & Hj & body & ->).
      exists arg1, rest, body.
      split; [reflexivity |]. split; [exact Hy |]. split; [reflexivity |].
      intros Hin. pose proof (YAMLToJSON_plain _ _ _ floats_are_numbers Hj) as Hplain.
      rewrite forallb_forall in Hplain. apply list_elem_of_In in Hin.
      specialize (Hplain _ Hin). discriminate Hplain.
    + intros H. exfalso.
      destruct (WriteFile output json rw_owner); simpl in H;
        apply elem_of_app in H as [H | H];
        try (destruct (Loading_not_Stdout _ _ H));
        repeat (apply elem_of_cons in H as [H | H]; [discriminate H |]); inversion H.
  - simpl. intros H. destruct (proj2 (Usage_quiet prog) _ H).
  - simpl. intros H. apply elem_of_cons in H as [H | H]; [discriminate H |].
    destruct (proj2 (Usage_quiet prog) _ H).
Qed.

End Program.

Lemma a_file_is_written_from_a_flag_word_witness :
  let ff := fun _ : Z => inr "json: unsupported value" in
  let w := {| ReadFile := fun _ => (lit "a: 1", None);
              NewRequest := fun _ _ => None;
              Do := fun _ _ _ => DoError None "no network";
              Quote := fun s => s |} in
  let y := {| decode := fun _ => inl (VMap [(VString "a", VInt 1)]);
              mismatch := fun _ => "cannot unmarshal" |} in
  exists arg1 rest output left,
    ["-output=o.json"; "doc.yml"] = arg1 :: rest
    /\ char_at 0 arg1 = "-"%char
    /\ LoadFromFileOrHTTP w arg1 = (ReadFile w arg1, [EvReadFile arg1])
    /\ YAMLDoc ff w y arg1 = (json_text "{'a':1}", None)
    /\ Parse ["-output=o.json"; "doc.yml"] = Parsed output left
    /\ "o.json" = output /\ "o.json" <> EmptyString /\ 384 = 384.
Proof.
  apply (a_file_is_written_from_a_flag_word
           (fun _ : Z => inr "json: unsupported value")
           {| ReadFile := fun _ => (lit "a: 1", None);
              NewRequest := fun _ _ => None;
              Do := fun _ _ _ => DoError None "no network";
              Quote := fun s => s |}
           {| decode := fun _ => inl (VMap [(VString "a", VInt 1)]);
              mismatch := fun _ => "cannot unmarshal" |}
           (fun _ _ _ => None) "yaml2json" ["-output=o.json"; "doc.yml"]
           "o.json" (json_text "{'a':1}") 384).
  vm_compute. right. left.
Defined.

Lemma words_after_the_location_are_ignored_witness :
  let ff := fun _ : Z => inr "json: unsupported value" in
  let w := {| ReadFile := fun _ => (lit "a: 1", None);
              NewRequest := fun _ _ => None;
              Do := fun _ _ _ => DoError None "no network";
              Quote := fun s => s |} in
  let y := {| decode := fun _ => inl (VMap [(VString "a", VInt 1)]);
              mismatch := fun _ => "cannot unmarshal" |} in
  main ff w y (fun _ _ _ => None) "yaml2json" ["doc.yml"; "-output"; "o.json"]
  = main ff w y (fun _ _ _ => None) "yaml2json" ["doc.yml"]
  /\ forall name data perm,
       FileWrite name data perm
       ∉ fst (main ff w y (fun _ _ _ => None) "yaml2json" ["doc.yml"; "-output"; "o.json"]).
Proof.
  apply (words_after_the_location_are_ignored
           (fun _ : Z => inr "json: unsupported value")
           {| ReadFile := fun _ => (lit "a: 1", None);
              NewRequest := fun _ _ => None;
              Do := fun _ _ _ => DoError None "no network";
              Quote := fun s => s |}
           {| decode := fun _ => inl (VMap [(VString "a", VInt 1)]);
              mismatch := fun _ => "cannot unmarshal" |}
           (fun _ _ _ => None) "yaml2json" "doc.yml" ["-output"; "o.json"]).
  right. discriminate.
Defined.

Lemma stdout_is_one_line_witness :
  let ff := fun f : Z => if f =? 0 then inl "0" else inr "json: unsupported value" in
  let w := {| ReadFile := fun _ => (lit "a: 0.0", None);
              NewRequest := fun _ _ => None;
              Do := fun _ _ _ => DoError None "no network";
              Quote := fun s => s |} in
  let y := {| decode := fun _ => inl (VMap [(VString "a", VFloat64 0)]);
              mismatch := fun _ => "cannot unmarshal" |} in
  snd (main ff w y (fun _ _ _ => None) "yaml2json" ["doc.yml"]) = 0
  /\ exists arg1 rest body,
       ["doc.yml"] = arg1 :: rest
       /\ YAMLDoc ff w y arg1 = (lit "{" ++ body ++ lit "}", None)
       /\ json_text "{'a':0}" ++ [newline] = (lit "{" ++ body ++ lit "}") ++ [newline]
       /\ newline ∉ lit "{" ++ body ++ lit "}".
Proof.
  apply (stdout_is_one_line
           (fun f : Z => if f =? 0 then inl "0" else inr "json: unsupported value")
           {| ReadFile := fun _ => (lit "a: 0.0", None);
              NewRequest := fun _ _ => None;
              Do := fun _ _ _ => DoError None "no network";
              Quote := fun s => s |}
           {| decode := fun _ => inl (VMap [(VString "a", VFloat64 0)]);
              mismatch := fun _ => "cannot unmarshal" |}
           (fun _ _ _ => None) "yaml2json").
  - intros f text. destruct (f =? 0); [intros [= <-]; reflexivity | discriminate].
  - vm_compute. right. left.
Defined.

(** ** A second run *)

Lemma transformData_again (t : value) :
  forall out, transformData t = (out, None) -> transformData out = (out, None).
Proof.
  induction t as [| b | n | n | n | f | s | l IH | m IH | m IH] using value_nested_ind;
    intros out Ht; try (injection Ht as <-; reflexivity).
  - rewrite transformData_slice in Ht.
    destruct (transform_slice_success _ _ _ _ _ Ht) as [ys Hys].
    rewrite (transform_slice_fill _ _ ys) in Ht by (try exact Hys; rewrite length_replicate; lia).
    injection Ht as <-. simpl take. simpl app.
    assert (Hfix : Forall2 (fun x y => transformData x = (y, None)) ys ys).
    { clear - IH Hys. induction Hys as [| x y l ys Hxy Hys IHys]; [constructor |].
      apply Forall_cons in IH as [Hx IH]. constructor; [exact (Hx y Hxy) | exact (IHys IH)]. }
    rewrite transformData_slice.
    rewrite (transform_slice_fill _ _ ys) by (try exact Hfix; rewrite length_replicate; lia).
    reflexivity.
  - rewrite transformData_map in Ht. apply transform_map_success in Ht as (es & _ & ->).
    reflexivity.
Qed.

(** X11. [transformData] is idempotent on every value it accepts, not only on
    trees whose keys are strings: what it returns without an error it returns
    unchanged when it is called on it again. *)
Theorem second_run_changes_nothing (t out : value) :
  transformData t = (out, None) -> transformData out = (out, None).
Proof. exact (transformData_again t out). Qed.

Lemma second_run_changes_nothing_witness :
  transformData (VSlice [VStrMap [("1", VString "b")]; VInt 2])
  = (VSlice [VStrMap [("1", VString "b")]; VInt 2], None).
Proof.
  apply (second_run_changes_nothing
           (VSlice [VMap [(VInt 1, VString "a"); (VString "1", VString "b")]; VInt 2])).
  reflexivity.
Defined.

(** ** When the conversion fails *)

Section Fails.

Variable FormatFloat : Z -> string + string.

Lemma transformData_finite (t : value) :
  forall out, transformData t = (out, None) ->
  floats_finite FormatFloat t = true -> floats_finite FormatFloat out = true.
Proof.
  induction t as [| b | n | n | n | f | s | l IH | m IH | m IH] using value_nested_ind;
    intros out Ht Hf; try (injection Ht as <-; exact Hf).
  - rewrite transformData_slice in Ht.
    destruct (transform_slice_success _ _ _ _ _ Ht) as [ys Hys].
    rewrite (transform_slice_fill _ _ ys) in Ht by (try exact Hys; rewrite length_replicate; lia).
    injection Ht as <-. simpl take. simpl app. simpl in Hf |- *.
    rewrite forallb_forall in Hf. apply forallb_forall.
    clear - IH Hys Hf. induction Hys as [| x y l ys Hxy Hys IHys]; [intros ? [] |].
    apply Forall_cons in IH as [Hx IH]. intros z [<- | Hz].
    + apply (Hx y Hxy). apply Hf. left. reflexivity.
    + apply IHys; [exact IH | | exact Hz]. intros u Hu. apply Hf. right. exact Hu.
  - rewrite transformData_map in Ht. apply transform_map_success in Ht as (es & HF & ->).
    simpl in Hf |- *. rewrite forallb_forall in Hf.
    apply forallb_forall. apply List.Forall_forall.
    eapply Forall_impl.
    + apply (fold_assign_Forall (fun v => floats_finite FormatFloat v = true) es []);
        [| constructor].
      clear - IH HF Hf. induction HF as [| [k v] [sk v'] m es [_ Hv] HF IHF]; [constructor |].
      apply Forall_cons in IH as [[_ Hx] IH]. simpl in Hx, Hv. constructor.
      * simpl. apply (Hx v' Hv). apply (Hf (k, v)). left. reflexivity.
      * apply IHF; [exact IH |]. intros u Hu. apply Hf. right. exact Hu.
    + intros e He. exact He.
Qed.

Lemma join_elements_all (parts : list (bytes + string)) (first : bool) :
  Forall (fun p => exists b, p = inl b) parts -> exists bs, join_elements first parts = inl bs.
Proof.
  intros HF. revert first. induction HF as [| p parts [b ->] _ IH]; intros first.
  - exists []. reflexivity.
  - destruct (IH false) as [bs Hbs]. rewrite join_elements_inl, Hbs. eauto.
Qed.

Lemma join_entries_all (parts : list (string * (bytes + string))) (first : bool) :
  Forall (fun p => exists b, snd p = inl b) parts -> exists bs, join_entries first parts = inl bs.
Proof.
  intros HF. revert first. induction HF as [| [k p] parts [b Hb] _ IH]; intros first.
  - exists []. reflexivity.
  - simpl in Hb. subst p. destruct (IH false) as [bs Hbs]. rewrite join_entries_inl, Hbs. eauto.
Qed.

Lemma encode_canonical (c : value) :
  canonical c = true -> floats_finite FormatFloat c = true ->
  exists b, encode FormatFloat c = inl b.
Proof.
  induction c as [| x | n | n | n | f | s | l IH | m IH | m IH] using value_nested_ind;
    intros Hc Hf; simpl in *; try (eexists; reflexivity); try discriminate.
  - destruct (FormatFloat f); [eexists; reflexivity | discriminate].
  - rewrite forallb_forall in Hc, Hf.
    destruct (join_elements_all (map (encode FormatFloat) l) true) as [bs ->]; [| eauto].
    apply Forall_fmap. rewrite Forall_forall in IH. apply Forall_forall. intros x Hx.
    apply IH; [exact Hx | |]; [apply Hc | apply Hf]; apply list_elem_of_In; exact Hx.
  - rewrite forallb_forall in Hc, Hf.
    destruct (join_entries_all
                (sort_entries (map (fun kv => (fst kv, encode FormatFloat (snd kv))) m)) true)
      as [bs ->]; [| eauto].
    rewrite sort_entries_Permutation. apply Forall_fmap.
    rewrite Forall_forall in IH. apply Forall_forall. intros kv Hkv. simpl.
    apply IH; [exact Hkv | |]; [apply (Hc kv) | apply (Hf kv)]; apply list_elem_of_In; exact Hkv.
Qed.

(** X12. The conversion of a tree of the decoder fails only for a key that is
    neither a string nor an [int], or for a float the encoder does not write:
    with neither in the tree [YAMLToJSON] returns bytes and no error, also
    when keys collide and when a string is not well-formed UTF-8. *)
Theorem conversion_fails_only_for_keys_and_floats (t : value) :
  yaml_tree t = true ->
  has_rejected_key t = false ->
  floats_finite FormatFloat t = true ->
  exists b, YAMLToJSON FormatFloat t = (b, None).
Proof.
  intros Hy Hr Hf. unfold YAMLToJSON, Marshal.
  destruct (transformData_outcome t Hy) as [(Hr' & _) | (_ & out & Ht & Hc)]; [congruence |].
  rewrite Ht.
  destruct (encode_canonical out Hc (transformData_finite t out Ht Hf)) as [b ->]. eauto.
Qed.

End Fails.

Lemma conversion_fails_only_for_keys_and_floats_witness :
  exists b,
    YAMLToJSON (fun f : Z => if f =? 0 then inl "0" else inr "json: unsupported value")
      (VMap [(VInt 1, VFloat64 0); (VString "1", VString (String "255" EmptyString))])
    = (b, None).
Proof.
  apply (conversion_fails_only_for_keys_and_floats
           (fun f : Z => if f =? 0 then inl "0" else inr "json: unsupported value")
           (VMap [(VInt 1, VFloat64 0); (VString "1", VString (String "255" EmptyString))]));
    reflexivity.
Defined.

(** ** The exit status *)

Lemma parseOne_shorter (args args' : list string) (v : string) :
  parseOne args = Seen v args' -> (length args' < length args)%nat.
Proof.
  unfold parseOne. destruct args as [| s rest]; [discriminate |].
  destruct ((String.length s <? 2)%nat || negb (Ascii.eqb (char_at 0 s) "-")); [discriminate |].
  destruct (Ascii.eqb (char_at 1 s) "-" && (String.length s =? 2)%nat); [discriminate |].
  match goal with |- context [if ?b then BadFlag _ else _] => destruct b end; [discriminate |].
  destruct (name_and_value _) as [name value].
  destruct (String.eqb name "output").
  - destruct value as [v' |]; [intros [= _ <-]; simpl; lia |].
    destruct rest as [| v' rest']; [discriminate |]. intros [= _ <-]. simpl. lia.
  - destruct (String.eqb name "help" || String.eqb name "h"); discriminate.
Qed.

(** The fuel of [Parse] is enough: more fuel gives the same. *)
Lemma Parse_loop_fuel (fuel fuel' : nat) (output : string) (args : list string) :
  (length args < fuel)%nat -> (length args < fuel')%nat ->
  Parse_loop fuel output args = Parse_loop fuel' output args.
Proof.
  revert fuel' output args. induction fuel as [| fuel IH]; intros fuel' output args H H'; [lia |].
  destruct fuel' as [| fuel']; [lia |].
  cbn [Parse_loop]. destruct (parseOne args) as [a | v a | |] eqn:Hp; try reflexivity.
  pose proof (parseOne_shorter _ _ _ Hp) as Hs. apply IH; lia.
Qed.
